(** * getGSA: de-identification and compliance-evaluation pipeline

    A shallow embedding of
    - [src/services/redaction.ts]      (PII redaction engine),
    - the in-memory rule store         ([SimpleVectorStore], [queryRules]),
    - [src/services/aiService.ts]      ([classifyDocument], [generateChecklist]),
    - [src/routes/analyze.ts]          (the analysis pipeline),
    - [src/services/documentParser.ts] (parsing, validation, file names),
    - [src/middleware/errorHandler.ts] and [src/routes/ingest.ts], with the
      repositories and the schema of the tables they write to,
    followed by the properties of the specification, each proved or refuted
    against these definitions, and by further properties of the code.

    Conventions.  A JavaScript string is a list of code units; the model
    covers the code units U+0000..U+00FF, one [ascii] each.  Integer-valued
    JavaScript numbers (offsets, lengths, scores) are [Z]; the JSON numbers
    read back from the language model are exact rationals [Q]. *)

From Stdlib Require Import Ascii String QArith ZArith Lia.
From stdpp Require Import gmap strings list pretty sorting.
Close Scope Q_scope.
Set Warnings "-register-all".

(** ** JavaScript strings *)

Module Js.

Abbreviation jsstring := (list ascii).

(** String literals of the source are written [str "..."]. *)
Definition str (s : string) : jsstring := String.list_ascii_of_string s.

Definition code (c : ascii) : nat := nat_of_ascii c.

Definition in_range (lo hi : nat) (c : ascii) : bool :=
  (lo <=? code c)%nat && (code c <=? hi)%nat.

Definition is_char (x : ascii) (c : ascii) : bool := Ascii.eqb x c.

(** Clamp a number to [0, n], as [String.prototype.substring] does with
    each of its arguments. *)
Definition clamp (n : nat) (z : Z) : nat := Nat.min (Z.to_nat z) n.

(** [s.substring(a, b)]: both ends clamped to [0, s.length], swapped when
    out of order. *)
Definition substring (s : jsstring) (a b : Z) : jsstring :=
  let a' := clamp (length s) a in
  let b' := clamp (length s) b in
  let lo := Nat.min a' b' in
  let hi := Nat.max a' b' in
  take (hi - lo) (drop lo s).

(** [s.substring(a)]: to the end of the string. *)
Definition substring_from (s : jsstring) (a : Z) : jsstring :=
  drop (clamp (length s) a) s.

(** [s.length] as a JavaScript number. *)
Definition len (s : jsstring) : Z := Z.of_nat (length s).

Fixpoint is_prefix (p s : jsstring) : bool :=
  match p, s with
  | [], _ => true
  | _ :: _, [] => false
  | a :: p', b :: s' => Ascii.eqb a b && is_prefix p' s'
  end.

(** [s.includes(w)]: [w] occurs in [s] as a contiguous run; the empty
    string occurs in every string. *)
Fixpoint includes (s w : jsstring) : bool :=
  is_prefix w s ||
  match s with
  | [] => false
  | _ :: s' => includes s' w
  end.

(** The white space of [\s] among the code units below U+0100:
    TAB, LF, VT, FF, CR, SPACE and NO-BREAK SPACE. *)
Definition is_space (c : ascii) : bool :=
  in_range 9 13 c || (code c =? 32)%nat || (code c =? 160)%nat.

Definition is_digit (c : ascii) : bool := in_range 48 57 c.
Definition is_upper (c : ascii) : bool := in_range 65 90 c.
Definition is_lower (c : ascii) : bool := in_range 97 122 c.

(** [\w] without the [i] and [u] flags: [A-Za-z0-9_]. *)
Definition is_word (c : ascii) : bool :=
  is_upper c || is_lower c || is_digit c || is_char "_" c.

(** [toLowerCase] on a code unit below U+0100: the ASCII capitals and the
    Latin-1 capitals U+00C0..U+00DE (U+00D7, the multiplication sign, has no
    case) move up by 32. *)
Definition lower_char (c : ascii) : ascii :=
  if is_upper c || (in_range 192 222 c && negb (code c =? 215)%nat)
  then ascii_of_nat (code c + 32)
  else c.

Definition toLowerCase (s : jsstring) : jsstring := map lower_char s.

(** [Array.prototype.sort(cmp)] is a stable sort: an element moves before
    another one only when the comparator puts it strictly first.  Insertion
    from the right keeps elements that compare equal in their order. *)
Section Sort.
Context {A : Type} (cmp : A → A → Z).

Fixpoint insertSorted (x : A) (l : list A) : list A :=
  match l with
  | [] => [x]
  | y :: l' => if (cmp x y <=? 0)%Z then x :: y :: l' else y :: insertSorted x l'
  end.

Definition sortBy (l : list A) : list A := foldr insertSorted [] l.
End Sort.

End Js.
Import Js.

(** ** Regular expressions

    The three patterns of [PII_PATTERNS] use character classes, greedy
    repetition of a class, greedy optional groups, concatenation and the
    word boundary [\b].  [x+] is [x x*], and [x{n}] is [x] written [n] times;
    both unfoldings keep the order in which a backtracking matcher tries the
    alternatives. *)

Module Regex.

Inductive regex : Type :=
| Eps
| Cls (p : ascii → bool)       (* one code unit of a class *)
| ClsStar (p : ascii → bool)   (* [...]*, greedy *)
| Opt (r : regex)              (* (...)?, greedy *)
| Seq (r1 r2 : regex)
| WordB.                       (* \b *)

Definition ClsPlus (p : ascii → bool) : regex := Seq (Cls p) (ClsStar p).

Fixpoint ClsN (n : nat) (p : ascii → bool) : regex :=
  match n with
  | O => Eps
  | S n' => Seq (Cls p) (ClsN n' p)
  end.

(** [x{n,}] *)
Definition ClsAtLeast (n : nat) (p : ascii → bool) : regex :=
  Seq (ClsN n p) (ClsStar p).

Definition word_opt (c : option ascii) : bool :=
  match c with
  | Some x => is_word x
  | None => false
  end.

(** [\b] holds between two positions when exactly one side is a word
    character; the outside of the string counts as a non-word character. *)
Definition at_boundary (prev : option ascii) (rest : jsstring) : bool :=
  xorb (word_opt prev) (word_opt (head rest)).

(** Greedy repetition of a class with backtracking: take as many code units
    as the class allows, then give them back one at a time until the
    continuation succeeds. *)
Fixpoint star (p : ascii → bool) (prev : option ascii) (rest : jsstring)
    (k : option ascii → jsstring → option jsstring) : option jsstring :=
  match rest with
  | c :: t =>
      if p c then
        match star p (Some c) t k with
        | Some out => Some out
        | None => k prev rest
        end
      else k prev rest
  | [] => k prev rest
  end.

(** The backtracking matcher.  The state is the code unit before the
    current position (for [\b]) and the text from the current position on;
    [k] is the continuation; the result is the text left after the whole
    match, for the first alternative that succeeds. *)
Fixpoint rmatch (r : regex) (prev : option ascii) (rest : jsstring)
    (k : option ascii → jsstring → option jsstring) : option jsstring :=
  match r with
  | Eps => k prev rest
  | Cls p =>
      match rest with
      | c :: t => if p c then k (Some c) t else None
      | [] => None
      end
  | ClsStar p => star p prev rest k
  | Opt r1 =>
      match rmatch r1 prev rest k with
      | Some out => Some out
      | None => k prev rest
      end
  | Seq r1 r2 => rmatch r1 prev rest (fun prev' rest' => rmatch r2 prev' rest' k)
  | WordB => if at_boundary prev rest then k prev rest else None
  end.

Definition accept : option ascii → jsstring → option jsstring :=
  fun _ rest => Some rest.

(** Try the pattern at the current position, then at each later one.
    [i] is the index of the current position; the result is the index and
    the text of the leftmost match. *)
Fixpoint scan (r : regex) (prev : option ascii) (rest : jsstring) (i : nat)
    : option (nat * jsstring) :=
  match rmatch r prev rest accept with
  | Some out => Some (i, take (length rest - length out) rest)
  | None =>
      match rest with
      | [] => None
      | c :: t => scan r (Some c) t (S i)
      end
  end.

(** [regex.exec(text)] for a pattern with the [g] flag whose [lastIndex] is
    [lastIndex]: the match ([index], [match[0]]) if any, and the new value
    of [lastIndex] (the end of the match, or 0 after a failure). *)
Definition exec (r : regex) (text : jsstring) (lastIndex : nat)
    : option (nat * jsstring) * nat :=
  if (length text <? lastIndex)%nat then (None, O)
  else
    match scan r (last (take lastIndex text)) (drop lastIndex text) lastIndex with
    | Some (i, v) => (Some (i, v), (i + length v)%nat)
    | None => (None, O)
    end.

(** [regex.test(text)]: the same step, reporting only whether it matched. *)
Definition test (r : regex) (text : jsstring) (lastIndex : nat) : bool * nat :=
  let '(m, li) := exec r text lastIndex in (bool_decide (is_Some m), li).

(** [while ((match = regex.exec(text)) !== null) { ... }]: the matches in
    the order found.  A match of the empty string leaves [lastIndex] in
    place and the loop of the source never ends; the model then runs out of
    fuel and returns [None]. *)
Fixpoint execLoop (fuel : nat) (r : regex) (text : jsstring) (lastIndex : nat)
    : option (list (nat * jsstring)) :=
  match fuel with
  | O => None
  | S fuel' =>
      match exec r text lastIndex with
      | (Some m, li) => cons m <$> execLoop fuel' r text li
      | (None, _) => Some []
      end
  end.

Definition execAll (r : regex) (text : jsstring) : option (list (nat * jsstring)) :=
  execLoop (S (length text)) r text 0.

End Regex.
Import Regex.

(** ** [src/services/redaction.ts] *)

Module Redaction.

Inductive PIIType : Type := email | phone | ssn.

#[global] Instance PIIType_eq_dec : EqDecision PIIType.
Proof. solve_decision. Defined.

Definition sep_dot_space (c : ascii) : bool :=
  is_char "-" c || is_char "." c || is_space c.

Definition sep_space (c : ascii) : bool := is_char "-" c || is_space c.

Definition email_local (c : ascii) : bool :=
  is_upper c || is_lower c || is_digit c ||
  is_char "." c || is_char "_" c || is_char "%" c || is_char "+" c || is_char "-" c.

Definition email_domain (c : ascii) : bool :=
  is_upper c || is_lower c || is_digit c || is_char "." c || is_char "-" c.

(** The class [[A-Z|a-z]] of the source: the bar is a member of it. *)
Definition email_tld (c : ascii) : bool :=
  is_upper c || is_char "|" c || is_lower c.

Fixpoint seq_of (rs : list regex) : regex :=
  match rs with
  | [] => Eps
  | [r] => r
  | r :: rs' => Seq r (seq_of rs')
  end.

(** [/\b[A-Za-z0-9._%+-]+@[A-Za-z0-9.-]+\.[A-Z|a-z]{2,}\b/g] *)
Definition email_pattern : regex :=
  seq_of [WordB; ClsPlus email_local; Cls (is_char "@"); ClsPlus email_domain;
          Cls (is_char "."); ClsAtLeast 2 email_tld; WordB].

(** [/(\+?1[-.\s]?)?\(?\d{3}\)?[-.\s]?\d{3}[-.\s]?\d{4}\b/g] *)
Definition phone_pattern : regex :=
  seq_of [Opt (seq_of [Opt (Cls (is_char "+")); Cls (is_char "1"); Opt (Cls sep_dot_space)]);
          Opt (Cls (is_char "(")); ClsN 3 is_digit; Opt (Cls (is_char ")"));
          Opt (Cls sep_dot_space); ClsN 3 is_digit; Opt (Cls sep_dot_space);
          ClsN 4 is_digit; WordB].

(** [/\b\d{3}[-\s]?\d{2}[-\s]?\d{4}\b/g] *)
Definition ssn_pattern : regex :=
  seq_of [WordB; ClsN 3 is_digit; Opt (Cls sep_space); ClsN 2 is_digit;
          Opt (Cls sep_space); ClsN 4 is_digit; WordB].

Definition PII_PATTERNS (t : PIIType) : regex :=
  match t with
  | email => email_pattern
  | phone => phone_pattern
  | ssn => ssn_pattern
  end.

(** [Object.entries(PII_PATTERNS)] and [Object.values(PII_PATTERNS)] go
    through the keys in the order they are written. *)
Definition PII_TYPES : list PIIType := [email; phone; ssn].

Definition REDACTION_LABELS (t : PIIType) : jsstring :=
  match t with
  | email => str "[REDACTED_EMAIL]"
  | phone => str "[REDACTED_PHONE]"
  | ssn => str "[REDACTED_SSN]"
  end.

Record RedactionMatch : Type := {
  type : PIIType;
  value : jsstring;
  start : Z;
  end_ : Z;
  hash : jsstring;
}.

Record RedactionResult : Type := {
  redactedText : jsstring;
  matches : list RedactionMatch;
  redactionCount : Z;
}.

Section WithHash.
(** [crypto.createHash('sha256').update(value).digest('hex')] *)
Variable hashValue : jsstring → jsstring.

(** The body of [while ((match = regex.exec(text)) !== null)]: one
    [RedactionMatch] per match, with the offsets of the match in [text]. *)
Definition toMatch (t : PIIType) (m : nat * jsstring) : RedactionMatch :=
  {| type := t;
     value := m.2;
     start := Z.of_nat m.1;
     end_ := (Z.of_nat m.1 + len m.2)%Z;
     hash := hashValue m.2 |}.

Definition findMatches (t : PIIType) (text : jsstring) : option (list RedactionMatch) :=
  map (toMatch t) <$> execAll (PII_PATTERNS t) text.

(** [before + label + after], with [before] and [after] cut from
    [redactedText] at the offsets the match has in the original text. *)
Definition replaceSpan (redactedText : jsstring) (matchItem : RedactionMatch) : jsstring :=
  let label := REDACTION_LABELS (type matchItem) in
  let before := substring redactedText 0 (start matchItem) in
  let after := substring_from redactedText (end_ matchItem) in
  before ++ label ++ after.

(** [matchItem.start += offsetAdjustment;
     matchItem.end = matchItem.start + label.length] *)
Definition adjustMatch (offsetAdjustment : Z) (matchItem : RedactionMatch) : RedactionMatch :=
  let label := REDACTION_LABELS (type matchItem) in
  let start' := (start matchItem + offsetAdjustment)%Z in
  {| type := type matchItem;
     value := value matchItem;
     start := start';
     end_ := (start' + len label)%Z;
     hash := hash matchItem |}.

(** One turn of [for (const matchItem of tempMatches)]: replace the span
    in [redactedText], adjust the item and push it. *)
Definition applyRedaction (offsetAdjustment : Z)
    (st : jsstring * list RedactionMatch) (matchItem : RedactionMatch)
    : jsstring * list RedactionMatch :=
  (replaceSpan st.1 matchItem, st.2 ++ [adjustMatch offsetAdjustment matchItem]).

(** The second loop over [tempMatches]: the change of length of each
    replacement is added to [offsetAdjustment]. *)
Definition updateAdjustment (offsetAdjustment : Z) (matchItem : RedactionMatch) : Z :=
  (offsetAdjustment + (len (REDACTION_LABELS (type matchItem)) - len (value matchItem)))%Z.

(** One turn of [for (const [type, pattern] of Object.entries(PII_PATTERNS))]
    on the state ([redactedText], [matches], [offsetAdjustment]). *)
Definition redactType (text : jsstring)
    (st : jsstring * list RedactionMatch * Z) (t : PIIType)
    : option (jsstring * list RedactionMatch * Z) :=
  match findMatches t text with
  | None => None
  | Some found =>
      let tempMatches := sortBy (fun a b => (start b - start a)%Z) found in
      let '(rt, ms) := foldl (applyRedaction st.2) st.1 tempMatches in
      Some (rt, ms, foldl updateAdjustment st.2 tempMatches)
  end.

Fixpoint redactTypes (text : jsstring) (st : jsstring * list RedactionMatch * Z)
    (ts : list PIIType) : option (jsstring * list RedactionMatch * Z) :=
  match ts with
  | [] => Some st
  | t :: ts' =>
      match redactType text st t with
      | None => None
      | Some st' => redactTypes text st' ts'
      end
  end.

(** [redactPII(text)]; [None] stands for a run whose matching loop never
    ends. *)
Definition redactPII (text : jsstring) : option RedactionResult :=
  match redactTypes text (text, [], 0%Z) PII_TYPES with
  | None => None
  | Some (rt, ms, _) =>
      let sorted := sortBy (fun a b => (start a - start b)%Z) ms in
      Some {| redactedText := rt;
              matches := sorted;
              redactionCount := Z.of_nat (length sorted) |}
  end.
End WithHash.

(** The shared patterns of [PII_PATTERNS] carry the [g] flag, so each keeps
    a [lastIndex] between calls.  [containsPII] calls [pattern.test] on the
    shared objects themselves; the state is the [lastIndex] of each. *)
Definition PatternState : Type := PIIType → nat.

Definition initialPatterns : PatternState := fun _ => O.

Definition setLastIndex (st : PatternState) (t : PIIType) (li : nat) : PatternState :=
  fun t' => if decide (t' = t) then li else st t'.

(** [for (const pattern of Object.values(PII_PATTERNS)) if (pattern.test(text)) return true;]
    and [return false] after the loop. *)
Fixpoint containsPII_loop (ts : list PIIType) (st : PatternState) (text : jsstring)
    : bool * PatternState :=
  match ts with
  | [] => (false, st)
  | t :: ts' =>
      let '(found, li) := test (PII_PATTERNS t) text (st t) in
      let st' := setLastIndex st t li in
      if found then (true, st') else containsPII_loop ts' st' text
  end.

Definition containsPII (st : PatternState) (text : jsstring) : bool * PatternState :=
  containsPII_loop PII_TYPES st text.

End Redaction.
Import Redaction.

(** ** The in-memory rule store ([SimpleVectorStore], [queryRules]) *)

Module VectorStore.

Inductive Severity : Type := critical | high | medium | low.

#[global] Instance Severity_eq_dec : EqDecision Severity.
Proof. solve_decision. Defined.

Record Metadata : Type := {
  title : jsstring;
  category : string;
  severity : Severity;
}.

Record VectorDocument : Type := {
  id : string;
  content : jsstring;
  metadata : Metadata;
}.

(** [distances] holds [1 - score / 10], here as an exact rational; the
    source computes it in binary64. *)
Record QueryResult : Type := {
  ids : list string;
  documents : list jsstring;
  metadatas : list Metadata;
  distances : list Q;
}.

Definition rule (i : string) (t : string) (c : string) (cat : string) (sev : Severity)
    : VectorDocument :=
  {| id := i; content := str c;
     metadata := {| title := str t; category := cat; severity := sev |} |}.

(** [GSA_RULES], already mapped to the documents of the store. *)
Definition GSA_RULES : list VectorDocument :=
  [ rule "R1" "Unique Entity Identifier (UEI) Requirement"
      "All vendors must provide a valid Unique Entity Identifier (UEI) in their company profile. The UEI is a 12-character alphanumeric identifier assigned by SAM.gov. Missing or invalid UEI is a critical compliance violation that must be flagged immediately. Legacy DUNS numbers (9-digit numeric) are no longer accepted as primary identifiers but may be present for reference."
      "identification" critical;
    rule "R2" "NAICS Code to SIN Mapping"
      "Each NAICS (North American Industry Classification System) code provided must map to at least one valid Special Item Number (SIN). NAICS codes are 6-digit numeric codes that classify business establishments. The mapping must be verified and duplicates should be removed per the official GSA SIN to NAICS mapping table. Multiple NAICS codes may map to the same SIN, but each unique SIN should only be listed once in the final output."
      "classification" high;
    rule "R3" "Contract Value Threshold"
      "All GSA contracts must be valued at $25,000 or more to be eligible for award. Contracts below this threshold are not permitted under GSA regulations. This is a mandatory minimum that cannot be waived or reduced."
      "financial" critical;
    rule "R4" "Labor Category Requirements"
      "All service contracts must specify labor categories with clear job titles, required qualifications, and minimum experience requirements. Each labor category must include education requirements, years of experience, certifications, and clearance levels if applicable. Labor categories must be distinct and not overlap in responsibilities."
      "labor" high;
    rule "R5" "PII Redaction Requirements"
      "All personally identifiable information (PII) must be redacted from submitted documents before processing. PII includes names, addresses, phone numbers, email addresses, Social Security Numbers, and financial account information. Redaction must be complete and irreversible. Partial redaction is not acceptable."
      "security" critical ].

(** [query.split(/\s+/)]: the pieces between the runs of white space.  A run
    at the start or at the end of the string leaves an empty piece there,
    and the empty string gives one empty piece.  [cur] is the piece being
    read, [inRun] tells that the code unit before was white space. *)
Fixpoint splitLoop (s : jsstring) (cur : jsstring) (inRun : bool) : list jsstring :=
  match s with
  | [] => [cur]
  | c :: s' =>
      if is_space c then
        if inRun then splitLoop s' [] true
        else cur :: splitLoop s' [] true
      else splitLoop s' (cur ++ [c]) false
  end.

Definition splitWhitespace (s : jsstring) : list jsstring := splitLoop s [] false.

(** The loop [for (const word of queryWords)] on [score]. *)
Definition scoreWord (content title : jsstring) (score : Z) (word : jsstring) : Z :=
  let score1 := if includes content word then (score + 2)%Z else score in
  if includes title word then (score1 + 3)%Z else score1.

Definition scoreDocument (query : jsstring) (doc : VectorDocument) : VectorDocument * Z :=
  let content := toLowerCase (VectorStore.content doc) in
  let title := toLowerCase (VectorStore.title (metadata doc)) in
  let queryWords := splitWhitespace query in
  (doc, foldl (scoreWord content title) 0%Z queryWords).

(** [array.slice(0, n)]: a negative [n] counts from the end. *)
Definition slice0 {A : Type} (l : list A) (n : Z) : list A :=
  if (n <? 0)%Z then take (Z.to_nat (Z.max (Z.of_nat (length l) + n) 0)) l
  else take (Z.to_nat n) l.

Definition distance (score : Z) : Q := (1 - inject_Z score / 10)%Q.

(** [SimpleVectorStore.query({ queryTexts: [queryText], nResults })].  The
    method reads [this.documents]; the arrays it sorts and slices are its
    own.  The store is returned with the result, as the method leaves it. *)
Definition query (store : list VectorDocument) (queryText : jsstring) (nResults : Z)
    : QueryResult * list VectorDocument :=
  let q := toLowerCase queryText in
  let scored := map (scoreDocument q) store in
  let topResults :=
    slice0 (sortBy (fun a b => (b.2 - a.2)%Z) (filter (fun item => (0 < item.2)%Z) scored))
           nResults in
  ({| ids := map (fun item => id item.1) topResults;
      documents := map (fun item => content item.1) topResults;
      metadatas := map (fun item => metadata item.1) topResults;
      distances := map (fun item => distance item.2) topResults |},
   store).

End VectorStore.

(** ** Errors and outcomes *)

Module Outcome.

(** [Error] and [AppError]: the latter carries an HTTP status code. *)
Record Error : Type := {
  statusCode : option Z;
  message : string;
}.

Inductive outcome (A : Type) : Type :=
| Ok (a : A)
| Throw (e : Error).
Arguments Ok {A} a.
Arguments Throw {A} e.

End Outcome.
Import Outcome.

(** ** [src/services/aiService.ts] *)

Module AiService.
Import VectorStore.

(** Values read from JSON.  A number [JNum z] stands for an integer that
    binary64 holds exactly and [String] prints in plain decimal: the model
    covers the integers up to 2^53 in absolute value, and a statement about
    the text or the value of a number carries that bound. *)
Inductive json : Type :=
| JNull
| JBool (b : bool)
| JNum (z : Z)
| JStr (s : jsstring)
| JArr (l : list json)
| JObj (m : gmap string json).

(** [!v] is false: the truthy values.  A field that is absent reads as
    [undefined], which is falsy; see [truthy_field]. *)
Definition truthy (v : json) : bool :=
  match v with
  | JNull => false
  | JBool b => b
  | JNum z => negb (z =? 0)%Z
  | JStr s => negb (bool_decide (s = []))
  | JArr _ => true
  | JObj _ => true
  end.

Definition truthy_field (v : option json) : bool :=
  match v with
  | Some x => truthy x
  | None => false
  end.

Fixpoint joinWith (sep : jsstring) (parts : list jsstring) : jsstring :=
  match parts with
  | [] => []
  | [x] => x
  | x :: rest => x ++ sep ++ joinWith sep rest
  end.

(** [String(v)] has no result for some values: an object parsed from JSON
    that has a member [toString] of its own hides [Object.prototype.toString]
    behind a value that cannot be called, [valueOf] gives the object back,
    and the conversion throws a [TypeError].  An array is converted through
    [join], which converts every element but [null].  [stringifies v] says
    that [String(v)] returns. *)
Fixpoint stringifies (v : json) : bool :=
  match v with
  | JObj m => negb (bool_decide (is_Some (m !! "toString")))
  | JArr l => forallb stringifies l
  | _ => true
  end.

(** [String(v)], where it returns ([stringifies v]); an array is its
    elements joined by commas, [null] elements giving the empty string. *)
Fixpoint toString (v : json) : jsstring :=
  match v with
  | JNull => str "null"
  | JBool true => str "true"
  | JBool false => str "false"
  | JNum z => str (pretty z)
  | JStr s => s
  | JArr l =>
      joinWith (str ",")
        (map (fun x => match x with JNull => [] | _ => toString x end) l)
  | JObj _ => str "[object Object]"
  end.

(** [String(fields.x)] for a field that may be absent. *)
Definition toString_field (v : option json) : jsstring :=
  match v with
  | Some x => toString x
  | None => str "undefined"
  end.

Definition stringifies_field (v : option json) : bool :=
  match v with
  | Some x => stringifies x
  | None => true
  end.

(** [array.join(', ')] *)
Definition joinArray (sep : jsstring) (l : list json) : jsstring :=
  joinWith sep (map (fun x => match x with JNull => [] | _ => toString x end) l).

(** [/^[A-Z0-9]{12}$/.test(uei)] on [String(uei)] *)
Definition ueiPattern_test (uei : option json) : bool :=
  let s := toString_field uei in
  (length s =? 12)%nat && forallb (fun c => is_upper c || is_digit c) s.

Definition digitValue (c : ascii) : Z := Z.of_nat (code c - 48).

Definition digitsValue (ds : jsstring) : Z :=
  foldl (fun acc c => (acc * 10 + digitValue c)%Z) 0%Z ds.

Fixpoint takeDigits (s : jsstring) : jsstring * jsstring :=
  match s with
  | c :: s' =>
      if is_digit c then let '(ds, rest) := takeDigits s' in (c :: ds, rest)
      else ([], s)
  | [] => ([], [])
  end.

(** [parseFloat] on a string of digits and dots: the longest prefix that is
    a decimal literal ([12], [12.], [12.5], [.5]); [None] is [NaN].  The
    value here is the exact decimal; the number of the source is the
    binary64 nearest to it, which [atLeast25000] takes into account. *)
Definition parseFloat (s : jsstring) : option Q :=
  let '(ip, rest) := takeDigits s in
  let fp := match rest with
            | c :: rest' => if is_char "." c then (takeDigits rest').1 else []
            | [] => []
            end in
  match ip, fp with
  | [], [] => None
  | _, _ =>
      Some (Qmake (digitsValue ip * 10 ^ Z.of_nat (length fp) + digitsValue fp)
                  (Z.to_pos (10 ^ Z.of_nat (length fp))))
  end.

(** [value >= 25000] on the number that [parseFloat] returns for the
    decimal [v]: the binary64 nearest to it, ties to even.  The binary64
    below 25000 is 25000 - 2^-38 and 25000 has an even significand, so the
    decimals that round to 25000 or above are those from 25000 - 2^-39 on.
    A comparison with [NaN] is false. *)
Definition atLeast25000 (v : option Q) : bool :=
  match v with
  | Some q => Qle_bool (inject_Z 25000 - Qmake 1 (2 ^ 39)%positive)%Q q
  | None => false
  end.

Inductive ItemStatus : Type := compliant | non_compliant | needs_review.

#[global] Instance ItemStatus_eq_dec : EqDecision ItemStatus.
Proof. solve_decision. Defined.

(** The evidence of an item: the template of the source and the values it
    interpolates.  The text of a number ([toLocaleString]) depends on the
    locale of the host and is not rendered. *)
Inductive Evidence : Type :=
| InvalidUEIFormat (uei : jsstring)               (* `Invalid UEI format: ${uei}` *)
| UEINotFound                                     (* 'UEI not found in document' *)
| ValidUEIFound (uei : jsstring)                  (* `Valid UEI found: ${uei}` *)
| NaicsFound (count : nat) (codes : jsstring)     (* `Found ${n} NAICS code(s): ${codes}. Requires mapping verification.` *)
| NoNaicsFound                                    (* 'No NAICS codes found in document' *)
| ContractValue (v : option Q)                    (* `Contract value: $${value.toLocaleString()}` *)
| ContractValueBelow (v : option Q)               (* `Contract value $${...} is below $25,000 threshold` *)
| LaborCategoriesFound (count : nat)              (* `Found ${n} labor categories with details` *)
| LaborCategoriesMissing.                         (* 'Labor categories missing or incomplete' *)

Record ChecklistItem : Type := {
  requirement : string;
  status : ItemStatus;
  evidence : Evidence;
  ruleId : string;
  severity : Severity;
}.

Definition item (req : string) (st : ItemStatus) (ev : Evidence) (rid : string)
    (sev : Severity) : ChecklistItem :=
  {| requirement := req; status := st; evidence := ev; ruleId := rid; severity := sev |}.

(** The rules handed over by the retriever: [{ id, content, metadata }]. *)
Record RuleData : Type := {
  rd_id : string;
  rd_content : jsstring;
  rd_metadata : Metadata;
}.

(** The four blocks of [generateChecklist], each giving the items it
    pushes. *)
Definition checkUEI (fields : gmap string json) (documentType : string)
    : list ChecklistItem :=
  if bool_decide (documentType = "company_profile") then
    let uei := fields !! "UEI" in
    if negb (truthy_field uei) || negb (ueiPattern_test uei) then
      [item "Valid UEI Required" non_compliant
            (if truthy_field uei then InvalidUEIFormat (toString_field uei) else UEINotFound)
            "R1" critical]
    else
      [item "Valid UEI Required" compliant (ValidUEIFound (toString_field uei))
            "R1" critical]
  else [].

Definition checkNAICS (fields : gmap string json) (documentType : string)
    : list ChecklistItem :=
  if bool_decide (documentType = "company_profile") && truthy_field (fields !! "NAICS_codes") then
    let naicsCodes := match fields !! "NAICS_codes" with
                      | Some (JArr l) => l
                      | Some v => [v]
                      | None => []
                      end in
    if (0 <? length naicsCodes)%nat then
      [item "NAICS Code to SIN Mapping" needs_review
            (NaicsFound (length naicsCodes) (joinArray (str ", ") naicsCodes))
            "R2" high]
    else
      [item "NAICS Code to SIN Mapping" non_compliant NoNaicsFound "R2" high]
  else [].

Definition checkContractValue (fields : gmap string json) (documentType : string)
    : list ChecklistItem :=
  if bool_decide (documentType = "past_performance") &&
     bool_decide (is_Some (fields !! "contract_value")) then
    let value :=
      parseFloat (List.filter (fun c => is_digit c || is_char "." c)
                              (toString_field (fields !! "contract_value"))) in
    if atLeast25000 value then
      [item "Contract Value >= $25,000" compliant (ContractValue value) "R3" high]
    else
      [item "Contract Value >= $25,000" non_compliant (ContractValueBelow value)
            "R3" high]
  else [].

(** [v && Array.isArray(v) && v.length > 0] *)
Definition isNonEmptyArray (v : option json) : bool :=
  match v with
  | Some (JArr l) => (0 <? length l)%nat
  | _ => false
  end.

(** [v.length] of an array *)
Definition arrayLength (v : option json) : nat :=
  match v with
  | Some (JArr l) => length l
  | _ => O
  end.

Definition checkLabor (fields : gmap string json) (documentType : string)
    : list ChecklistItem :=
  if bool_decide (documentType = "pricing_sheet") then
    if isNonEmptyArray (fields !! "labor_categories") then
      [item "Labor Category Details" compliant
            (LaborCategoriesFound (arrayLength (fields !! "labor_categories")))
            "R4" medium]
    else
      [item "Labor Category Details" non_compliant LaborCategoriesMissing "R4" medium]
  else [].

(** [generateChecklist(fields, documentType, _relevantRules)]: the checklist
    of a call that returns. *)
Definition generateChecklist (fields : gmap string json) (documentType : string)
    (_relevantRules : list RuleData) : list ChecklistItem :=
  checkUEI fields documentType ++ checkNAICS fields documentType ++
  checkContractValue fields documentType ++ checkLabor fields documentType.

(** The conversions to a string that a call of [generateChecklist] makes:
    [ueiPattern.test(uei)] for a truthy [UEI], [naicsCodes.join(', ')] for
    truthy [NAICS_codes], [String(fields.contract_value)] for a
    [contract_value] that is not [undefined].  The call returns when each of
    them has a result. *)
Definition checklistConverts (fields : gmap string json) (documentType : string) : bool :=
  (if bool_decide (documentType = "company_profile") && truthy_field (fields !! "UEI")
   then stringifies_field (fields !! "UEI") else true) &&
  (if bool_decide (documentType = "company_profile") &&
      truthy_field (fields !! "NAICS_codes")
   then stringifies_field (fields !! "NAICS_codes") else true) &&
  (if bool_decide (documentType = "past_performance") &&
      bool_decide (is_Some (fields !! "contract_value"))
   then stringifies_field (fields !! "contract_value") else true).

(** The [TypeError] of a conversion that has no result. *)
Definition TypeError : Error :=
  {| statusCode := None; message := "Cannot convert object to primitive value" |}.

(** [await generateChecklist(fields, documentType, rules)], as the caller
    gets it: the checklist, or the [TypeError]. *)
Definition generateChecklistResult (fields : gmap string json) (documentType : string)
    (rules : list RuleData) : outcome (list ChecklistItem) :=
  if checklistConverts fields documentType
  then Ok (generateChecklist fields documentType rules)
  else Throw TypeError.

(** A member of the object parsed from the reply of the language model:
    absent ([undefined]), [null], or a value of the type the prompt asks
    for. *)
Inductive member (A : Type) : Type :=
| Absent
| Null
| Val (a : A).
Arguments Absent {A}.
Arguments Null {A}.
Arguments Val {A} a.

Record ClassifierReply : Type := {
  r_documentType : member string;
  r_confidence : member Q;
  r_reasoning : member string;
}.

Record ClassificationResult : Type := {
  documentType : string;
  confidence : Q;
  reasoning : string;
  shouldAbstain : bool;
}.

(** [v || d] for a string member: absent, [null] and the empty string are
    falsy. *)
Definition orString (v : member string) (d : string) : string :=
  match v with
  | Val s => if bool_decide (s = "") then d else s
  | _ => d
  end.

(** [v || 0] for a number member *)
Definition orZero (v : member Q) : Q :=
  match v with
  | Val q => if Qeq_bool q 0 then 0%Q else q
  | _ => 0%Q
  end.

(** [v < threshold]: [undefined] converts to [NaN], and every comparison
    with [NaN] is false; [null] converts to 0. *)
Definition lessThan (v : member Q) (threshold : Q) : bool :=
  match v with
  | Absent => false
  | Null => negb (Qle_bool threshold 0)
  | Val q => negb (Qle_bool threshold q)
  end.

(** [classifyDocument(text)], given what the [try] block gets from the
    language model: [Some reply] when the call returns and its text holds a
    JSON object, [None] when anything in the block throws.
    [CONFIDENCE_THRESHOLD] is read from the environment, 0.8 by default. *)
Definition classifyDocument (CONFIDENCE_THRESHOLD : Q) (reply : option ClassifierReply)
    : ClassificationResult :=
  match reply with
  | Some result =>
      {| documentType := orString (r_documentType result) "unknown";
         confidence := orZero (r_confidence result);
         reasoning := orString (r_reasoning result) "No reasoning provided";
         shouldAbstain := lessThan (r_confidence result) CONFIDENCE_THRESHOLD |}
  | None =>
      {| documentType := "unknown";
         confidence := 0%Q;
         reasoning := "Classification failed due to error";
         shouldAbstain := true |}
  end.

Record FieldExtractionResult : Type := {
  fields : gmap string json;
  fe_confidence : Q;
  extractedCount : Z;
}.

Definition noFields : FieldExtractionResult :=
  {| fields := ∅; fe_confidence := 0%Q; extractedCount := 0%Z |}.

(** [fieldsToExtract.length] in the [switch] of [extractFields]; [None] is
    the [default] branch. *)
Definition fieldsToExtract (documentType : string) : option Z :=
  if bool_decide (documentType = "company_profile") then Some 5%Z
  else if bool_decide (documentType = "past_performance") then Some 6%Z
  else if bool_decide (documentType = "pricing_sheet") then Some 4%Z
  else None.

(** [v !== null && v !== ''] *)
Definition isExtracted (v : json) : bool :=
  match v with
  | JNull => false
  | JStr [] => false
  | _ => true
  end.

(** [extractFields(text, documentType)], given what the [try] block gets
    from the language model: the object parsed from its reply, or [None]
    when anything in the block throws. *)
Definition extractFields (documentType : string) (reply : option (gmap string json))
    : FieldExtractionResult :=
  match fieldsToExtract documentType with
  | None => noFields
  | Some n =>
      match reply with
      | Some parsed =>
          let count :=
            Z.of_nat (length (List.filter (fun kv => isExtracted kv.2) (map_to_list parsed))) in
          {| fields := parsed;
             fe_confidence := (inject_Z count / inject_Z n)%Q;
             extractedCount := count |}
      | None => noFields
      end
  end.

End AiService.

(** ** [src/routes/analyze.ts] and the repositories it writes to *)

Module Analyze.
Import VectorStore AiService.

Inductive AnalysisStatus : Type :=
| pending | processing | completed | completed_with_warnings | failed.

#[global] Instance AnalysisStatus_eq_dec : EqDecision AnalysisStatus.
Proof. solve_decision. Defined.

(** A row of [analysis_results].  The two JSON columns hold the values the
    source serialises into them. *)
Record AnalysisResult : Type := {
  ar_id : string;
  request_id : string;
  document_classification : option string;
  classification_confidence : option Q;
  checklist_items : option (list ChecklistItem);
  negotiation_brief : option string;
  client_email : option string;
  rule_citations : option (list string);
  ar_status : AnalysisStatus;
  error_message : option string;
}.

(** The columns of [documents] that the route reads. *)
Record Document : Type := {
  doc_request_id : string;
  redacted_content : option jsstring;
}.

(** The state the route works on: the two tables and the module variable
    [collection] of the rule store, unset until [initializeVectorStore]. *)
Record State : Type := {
  documentsTable : list Document;
  analysisTable : gmap string AnalysisResult;
  collection : option (list VectorDocument);
}.

(** What the language model and the host give to one run. *)
Record Env : Type := {
  CONFIDENCE_THRESHOLD : Q;
  uuidv4 : string;
  classifierReply : jsstring → option ClassifierReply;
  extractorReply : jsstring → string → option (gmap string json);
  generateNegotiationBrief : list ChecklistItem → gmap string json → string → string;
  generateClientEmail : list ChecklistItem → json → string;
  JSON_stringify : gmap string json → jsstring;
}.

(** State and exceptions: a computation ends with a value or with a thrown
    error, and in both cases with the state it has reached. *)
Definition M (A : Type) : Type := State → outcome A * State.

Definition ret {A} (a : A) : M A := fun st => (Ok a, st).
Definition throw {A} (e : Error) : M A := fun st => (Throw e, st).
Definition bind {A B} (m : M A) (f : A → M B) : M B :=
  fun st =>
    match m st with
    | (Ok a, st') => f a st'
    | (Throw e, st') => (Throw e, st')
    end.
Definition tryCatch {A} (m : M A) (handler : Error → M A) : M A :=
  fun st =>
    match m st with
    | (Ok a, st') => (Ok a, st')
    | (Throw e, st') => handler e st'
    end.
Definition liftOutcome {A} (o : outcome A) : M A := fun st => (o, st).
Definition gets {A} (f : State → A) : M A := fun st => (Ok (f st), st).
Definition modify (f : State → State) : M unit := fun st => (Ok tt, f st).

Notation "x <- m ;; k" := (bind m (fun x => k))
  (at level 100, m at next level, right associativity).
Notation "m ;;; k" := (bind m (fun _ => k))
  (at level 100, right associativity).

Definition AppError (code : Z) (msg : string) : Error :=
  {| statusCode := Some code; message := msg |}.

Definition plainError (msg : string) : Error :=
  {| statusCode := None; message := msg |}.

(** [DocumentRepository.findByRequestId] *)
Definition findByRequestId (requestId : string) : M (list Document) :=
  gets (fun st =>
    List.filter (fun d => bool_decide (doc_request_id d = requestId)) (documentsTable st)).

(** The error that the database driver throws; it is no [AppError]. *)
Definition SqliteError (msg : string) : Error := plainError msg.

(** [AnalysisRepository.create]: an [INSERT]; [id TEXT PRIMARY KEY] refuses
    an id that the table holds. *)
Definition create (row : AnalysisResult) : M unit :=
  fun st =>
    if bool_decide (is_Some (analysisTable st !! ar_id row)) then
      (Throw (SqliteError "UNIQUE constraint failed: analysis_results.id"), st)
    else
      (Ok tt,
       {| documentsTable := documentsTable st;
          analysisTable := <[ar_id row := row]> (analysisTable st);
          collection := collection st |}).

(** [AnalysisRepository.update(id, updates)]: the row with this id, if there
    is one, is changed. *)
Definition update (id : string) (updates : AnalysisResult → AnalysisResult) : M unit :=
  modify (fun st =>
    {| documentsTable := documentsTable st;
       analysisTable := alter updates id (analysisTable st);
       collection := collection st |}).

Definition setClassification (dt : string) (c : Q) (row : AnalysisResult) : AnalysisResult :=
  {| ar_id := ar_id row; request_id := request_id row;
     document_classification := Some dt;
     classification_confidence := Some c;
     checklist_items := checklist_items row;
     negotiation_brief := negotiation_brief row;
     client_email := client_email row;
     rule_citations := rule_citations row;
     ar_status := ar_status row;
     error_message := error_message row |}.

Definition setStatusAndError (s : AnalysisStatus) (msg : string) (row : AnalysisResult)
    : AnalysisResult :=
  {| ar_id := ar_id row; request_id := request_id row;
     document_classification := document_classification row;
     classification_confidence := classification_confidence row;
     checklist_items := checklist_items row;
     negotiation_brief := negotiation_brief row;
     client_email := client_email row;
     rule_citations := rule_citations row;
     ar_status := s;
     error_message := Some msg |}.

Definition setResults (checklist : list ChecklistItem) (brief email : string)
    (citations : list string) (s : AnalysisStatus) (row : AnalysisResult) : AnalysisResult :=
  {| ar_id := ar_id row; request_id := request_id row;
     document_classification := document_classification row;
     classification_confidence := classification_confidence row;
     checklist_items := Some checklist;
     negotiation_brief := Some brief;
     client_email := Some email;
     rule_citations := Some citations;
     ar_status := s;
     error_message := error_message row |}.

(** [queryRules(query, nResults)]: throws while [collection] is unset. *)
Definition queryRules (queryText : jsstring) (nResults : Z) : M QueryResult :=
  fun st =>
    match collection st with
    | None => (Throw (plainError "Vector store not initialized"), st)
    | Some store =>
        let '(result, store') := query store queryText nResults in
        (Ok result,
         {| documentsTable := documentsTable st;
            analysisTable := analysisTable st;
            collection := Some store' |})
    end.

(** [relevantRules.ids.map((id, index) => ({ id, content: documents[index],
    metadata: metadatas[index] }))]; the three arrays of a [QueryResult]
    have one length. *)
Fixpoint rulesDataOf (rids : list string) (ds : list jsstring) (ms : list Metadata)
    : list RuleData :=
  match rids, ds, ms with
  | i :: rids', d :: ds', m :: ms' =>
      {| rd_id := i; rd_content := d; rd_metadata := m |} :: rulesDataOf rids' ds' ms'
  | _, _, _ => []
  end.

(** What the handler does with the request: a JSON response with status
    200, or the error handed to [next]. *)
Inductive Response : Type :=
| RespondAbstained (analysisId requestId : string) (c : ClassificationResult)
| RespondAnalyzed (analysisId requestId : string) (c : ClassificationResult)
    (extracted : FieldExtractionResult) (ruleCitations : list string)
    (checklist : list ChecklistItem) (negotiationBrief clientEmail : string)
| NextError (e : Error).

(** The body of the [try] block, from the lookup of the documents on. *)
Definition analyzeBody (env : Env) (requestId : string) : M Response :=
  let analysisId := uuidv4 env in
  documents <- findByRequestId requestId ;;
  match documents with
  | [] => throw (AppError 404 ("No documents found for request_id: " +:+ requestId))
  | document :: _ =>
      let redactedText := default [] (redacted_content document) in
      create {| ar_id := analysisId; request_id := requestId;
                document_classification := None;
                classification_confidence := None;
                checklist_items := None;
                negotiation_brief := None;
                client_email := None;
                rule_citations := None;
                ar_status := processing;
                error_message := None |} ;;;
      (* Step 1: classify *)
      let classification :=
        classifyDocument (CONFIDENCE_THRESHOLD env) (classifierReply env redactedText) in
      update analysisId
        (setClassification (documentType classification) (confidence classification)) ;;;
      if shouldAbstain classification then
        update analysisId
          (setStatusAndError completed_with_warnings
             ("Low confidence classification: " +:+ reasoning classification)) ;;;
        ret (RespondAbstained analysisId requestId classification)
      else
        (* Step 2: extract fields *)
        let fieldExtraction :=
          extractFields (documentType classification)
            (extractorReply env redactedText (documentType classification)) in
        (* Step 3: query the rules *)
        let ruleQuery :=
          str (documentType classification) ++ str " compliance requirements " ++
          JSON_stringify env (fields fieldExtraction) in
        relevantRules <- queryRules ruleQuery 5 ;;
        let rulesData :=
          rulesDataOf (ids relevantRules) (VectorStore.documents relevantRules)
                      (metadatas relevantRules) in
        (* Step 4: checklist *)
        checklist <- liftOutcome
          (generateChecklistResult (fields fieldExtraction) (documentType classification)
             rulesData) ;;
        (* Step 5: negotiation brief *)
        let negotiationBrief :=
          generateNegotiationBrief env checklist (fields fieldExtraction)
            (documentType classification) in
        (* Step 6: client email; the prompt holds [`${companyName}`] *)
        let companyName :=
          match fields fieldExtraction !! "company_name" with
          | Some v => if truthy v then v else JStr (str "valued partner")
          | None => JStr (str "valued partner")
          end in
        clientEmail <- liftOutcome
          (if stringifies companyName
           then Ok (generateClientEmail env checklist companyName)
           else Throw TypeError) ;;
        update analysisId
          (setResults checklist negotiationBrief clientEmail (ids relevantRules) completed) ;;;
        ret (RespondAnalyzed analysisId requestId classification fieldExtraction
               (ids relevantRules) checklist negotiationBrief clientEmail)
  end.

(** The handler: [try { ... } catch (error) { logger.error(...); next(error); }] *)
Definition analyze (env : Env) (requestId : string) : M Response :=
  tryCatch (analyzeBody env requestId) (fun error => ret (NextError error)).

End Analyze.

(** ** [src/services/documentParser.ts] *)

Module DocumentParser.
Import AiService.

Abbreviation Buffer := (list ascii).

Record ParsedDocument : Type := {
  text : jsstring;
  pageCount : option Z;
  metadata : option json;
}.

(** What the host gives to the parsers: [pdf-parse] and [mammoth], which
    return or throw an error with a message, and the UTF-8 decoder of
    [Buffer.toString]. *)
Record Parsers : Type := {
  pdf : Buffer → string + (jsstring * Z * json);
  extractRawText : Buffer → string + (jsstring * json);
  decodeUtf8 : Buffer → jsstring;
}.

Definition AppError400 (msg : string) : Error :=
  {| statusCode := Some 400%Z; message := msg |}.

(** [parsePDF]: the error of the library becomes an [AppError] 400. *)
Definition parsePDF (env : Parsers) (buffer : Buffer) : outcome ParsedDocument :=
  match pdf env buffer with
  | inr (t, numpages, info) =>
      Ok {| text := t; pageCount := Some numpages; metadata := Some info |}
  | inl msg => Throw (AppError400 ("Failed to parse PDF: " +:+ msg))
  end.

Definition parseDOCX (env : Parsers) (buffer : Buffer) : outcome ParsedDocument :=
  match extractRawText env buffer with
  | inr (t, messages) =>
      Ok {| text := t; pageCount := None;
            metadata := Some (JObj {[ "messages" := messages ]}) |}
  | inl msg => Throw (AppError400 ("Failed to parse DOCX: " +:+ msg))
  end.

Definition parseTXT (env : Parsers) (buffer : Buffer) : outcome ParsedDocument :=
  Ok {| text := decodeUtf8 env buffer; pageCount := None;
        metadata := Some (JObj {[ "encoding" := JStr (str "utf-8") ]}) |}.

(** [parseDocument(buffer, mimeType)] *)
Definition parseDocument (env : Parsers) (buffer : Buffer) (mimeType : string)
    : outcome ParsedDocument :=
  if bool_decide (mimeType = "application/pdf") then parsePDF env buffer
  else if bool_decide
            (mimeType = "application/vnd.openxmlformats-officedocument.wordprocessingml.document")
          || bool_decide (mimeType = "application/msword") then parseDOCX env buffer
  else if bool_decide (mimeType = "text/plain") then parseTXT env buffer
  else Throw (AppError400 ("Unsupported file type: " +:+ mimeType)).

(** [validateDocumentSize(size, maxSizeMB)]; the parameter defaults to 10. *)
Definition validateDocumentSize (size : Z) (maxSizeMB : Z) : outcome unit :=
  let maxSizeBytes := (maxSizeMB * 1024 * 1024)%Z in
  if (maxSizeBytes <? size)%Z then
    Throw (AppError400 ("File size exceeds maximum allowed size of " +:+ pretty maxSizeMB +:+ "MB"))
  else Ok tt.

Definition allowedTypes : list string :=
  [ "application/pdf";
    "application/vnd.openxmlformats-officedocument.wordprocessingml.document";
    "application/msword";
    "text/plain" ].

(** [validateFileType(mimeType)] *)
Definition validateFileType (mimeType : string) : outcome unit :=
  if bool_decide (mimeType ∈ allowedTypes) then Ok tt
  else Throw (AppError400 ("File type not supported: " +:+ mimeType)).

(** [s.split(sep)] for a separator of one code unit; [cur] is the piece
    being read. *)
Fixpoint splitOn (sep : ascii) (s : jsstring) (cur : jsstring) : list jsstring :=
  match s with
  | [] => [cur]
  | c :: s' =>
      if Ascii.eqb sep c then cur :: splitOn sep s' []
      else splitOn sep s' (cur ++ [c])
  end.

(** [getFileExtension(filename)] *)
Definition getFileExtension (filename : jsstring) : jsstring :=
  let parts := splitOn "." filename [] in
  if (1 <? length parts)%nat then toLowerCase (default [] (last parts)) else [].

(** [s.replace(/\.\./g, '')]: the pairs of dots are taken from left to
    right, and a pair that has been taken is not looked at again. *)
Fixpoint removeDotDot (s : jsstring) : jsstring :=
  match s with
  | c :: s' =>
      match s' with
      | d :: s'' =>
          if is_char "." c && is_char "." d then removeDotDot s''
          else c :: removeDotDot s'
      | [] => [c]
      end
  | [] => []
  end.

(** [s.trim()]: the white space and line terminators at both ends go; below
    U+0100 they are the code units of [is_space]. *)
Fixpoint trimStart (s : jsstring) : jsstring :=
  match s with
  | c :: s' => if is_space c then trimStart s' else s
  | [] => []
  end.

Fixpoint trimEnd (s : jsstring) : jsstring :=
  match s with
  | c :: s' =>
      match trimEnd s' with
      | [] => if is_space c then [] else [c]
      | t => c :: t
      end
  | [] => []
  end.

Definition trim (s : jsstring) : jsstring := trimEnd (trimStart s).

Definition isPathSeparator (c : ascii) : bool := is_char "/" c || is_char "\" c.

Definition isNul (c : ascii) : bool := is_char Ascii.zero c.

(** [sanitizeFilename(filename)] *)
Definition sanitizeFilename (filename : jsstring) : jsstring :=
  trim (removeDotDot
          (List.filter (fun c => negb (isNul c))
             (List.filter (fun c => negb (isPathSeparator c)) filename))).

End DocumentParser.

(** ** The other functions of [src/services/redaction.ts] *)

Module RedactionTools.

(** [text.match(regex)] for a pattern with the [g] flag: [lastIndex] starts
    at 0, every match is collected, and after a match of the empty string
    [lastIndex] moves on by one.  The result of the source is [null] when
    nothing matches; here it is the empty list.  [None] stands for a loop
    that has not ended within the fuel. *)
Fixpoint matchLoop (fuel : nat) (r : regex) (text : jsstring) (lastIndex : nat)
    : option (list jsstring) :=
  match fuel with
  | O => None
  | S fuel' =>
      match exec r text lastIndex with
      | (Some (i, v), li) =>
          let next := if (length v =? 0)%nat then S li else li in
          cons v <$> matchLoop fuel' r text next
      | (None, _) => Some []
      end
  end.

Definition matchGlobal (r : regex) (text : jsstring) : option (list jsstring) :=
  matchLoop (S (S (length text))) r text 0.

(** The keys of [PII_PATTERNS] *)
Definition typeName (t : PIIType) : string :=
  match t with
  | email => "email"
  | phone => "phone"
  | ssn => "ssn"
  end.

(** One turn of the loop of [getPIIStatistics]:
    [stats[type] = matches ? matches.length : 0]. *)
Definition countType (text : jsstring) (stats : option (gmap string Z)) (t : PIIType)
    : option (gmap string Z) :=
  match stats, matchGlobal (PII_PATTERNS t) text with
  | Some st, Some found => Some (<[typeName t := Z.of_nat (length found)]> st)
  | _, _ => None
  end.

(** [getPIIStatistics(text)] *)
Definition getPIIStatistics (text : jsstring) : option (gmap string Z) :=
  foldl (countType text)
        (Some (<["ssn" := 0%Z]> (<["phone" := 0%Z]> (<["email" := 0%Z]> ∅))))
        PII_TYPES.




End RedactionTools.

(** ** The other functions of the rule store *)

Module RuleStore.
Import VectorStore Analyze.

(** [initializeVectorStore()]: [collection = new SimpleCollection()], whose
    store holds the documents of [GSA_RULES]. *)
Definition initializeVectorStore : M unit :=
  modify (fun st =>
    {| documentsTable := documentsTable st;
       analysisTable := analysisTable st;
       collection := Some GSA_RULES |}).

(** [getRuleById(id)]: [docs.find(doc => doc.id === id) || null]; throws
    while [collection] is unset. *)
Definition getRuleById (id : string) : M (option VectorDocument) :=
  fun st =>
    match collection st with
    | None => (Throw (plainError "Vector store not initialized"), st)
    | Some docs =>
        (Ok (find (fun doc => bool_decide (VectorStore.id doc = id)) docs), st)
    end.

(** [getAllRules()] *)
Definition getAllRules : M (list VectorDocument) :=
  fun st =>
    match collection st with
    | None => (Throw (plainError "Vector store not initialized"), st)
    | Some docs => (Ok docs, st)
    end.

End RuleStore.

(** ** The error handler of [src/middleware/errorHandler.ts] *)

Module ErrorHandler.

(** What [res.status(code).json({ status, message })] sends. *)
Record ErrorResponse : Type := {
  res_status : Z;
  body_status : string;
  body_message : string;
}.

(** [errorHandler(err, req, res, _next)].  [err instanceof AppError] holds
    for the errors that carry a status code. *)
Definition errorHandler (err : Error) : ErrorResponse :=
  match statusCode err with
  | Some code =>
      {| res_status := code; body_status := "error"; body_message := message err |}
  | None =>
      {| res_status := 500%Z; body_status := "error";
         body_message := "An unexpected error occurred" |}
  end.

End ErrorHandler.

(** ** The ingest route *)

Module Ingest.
Import AiService DocumentParser Redaction.

(** A file of the request: its name, its type, its size in bytes and its
    bytes.  [uploadSingle] below decides whether it becomes [req.file]. *)
Record File : Type := {
  originalname : jsstring;
  mimetype : string;
  size : Z;
  buffer : Buffer;
}.

(** A row of [documents]; the two time stamps are filled by the database. *)
Record DocumentRow : Type := {
  id : string;
  request_id : string;
  filename : jsstring;
  file_type : string;
  file_size : Z;
  original_hash : jsstring;
  redacted_content : jsstring;
  metadata : jsstring;
}.

(** A row of [redactions], without the key the database gives it. *)
Record RedactionRow : Type := {
  document_id : string;
  redaction_type : PIIType;
  original_value_hash : jsstring;
  position_start : Z;
  position_end : Z;
}.

Record Db : Type := {
  documents : list DocumentRow;
  redactions : list RedactionRow;
}.

(** The error that the database driver throws; it is no [AppError]. *)
Definition SqliteError (msg : string) : Error :=
  {| statusCode := None; message := msg |}.

(** [DocumentRepository.create(doc)].  The id of the row is drawn inside the
    method ([newId]); [id TEXT PRIMARY KEY] refuses an id that the table
    holds. *)
Definition create (newId requestId : string) (name : jsstring) (fileType : string)
    (fileSize : Z) (originalHash redactedContent metadataText : jsstring) (db : Db)
    : outcome unit * Db :=
  if bool_decide (newId ∈ map id (documents db)) then
    (Throw (SqliteError "UNIQUE constraint failed: documents.id"), db)
  else
    (Ok tt,
     {| documents := documents db ++
          [ {| id := newId; request_id := requestId; filename := name;
               file_type := fileType; file_size := fileSize;
               original_hash := originalHash;
               redacted_content := redactedContent;
               metadata := metadataText |} ];
        redactions := redactions db |}).

(** The loop of the transaction of [RedactionRepository.bulkCreate].  The
    connection is opened with [foreign_keys = ON], and [redactions] has
    [FOREIGN KEY (document_id) REFERENCES documents(id)]: an insert whose
    [document_id] is the id of no document throws. *)
Fixpoint insertRedactions (items : list RedactionRow) (db : Db) : outcome unit * Db :=
  match items with
  | [] => (Ok tt, db)
  | r :: rest =>
      if bool_decide (document_id r ∈ map id (documents db)) then
        insertRedactions rest
          {| documents := documents db; redactions := redactions db ++ [r] |}
      else (Throw (SqliteError "FOREIGN KEY constraint failed"), db)
  end.

(** [RedactionRepository.bulkCreate(redactions)]: a transaction that throws
    is rolled back and the error goes on to the caller. *)
Definition bulkCreate (items : list RedactionRow) (db : Db) : outcome unit * Db :=
  match insertRedactions items db with
  | (Ok _, db') => (Ok tt, db')
  | (Throw e, _) => (Throw e, db)
  end.

(** What the [uuidv4()] calls of one run return: two in the handler, in this
    order, and one inside [DocumentRepository.create]. *)
Record Uuids : Type := {
  requestId : string;
  documentId : string;
  rowId : string;
}.

(** What the host gives to one run. *)
Record Env : Type := {
  parsers : Parsers;
  sha256 : jsstring → jsstring;
  JSON_stringify : json → jsstring;
  toISOString : jsstring;
}.

Record Summary : Type := {
  s_documentId : string;
  s_requestId : string;
  s_filename : jsstring;
  fileSize : Z;
  fileType : string;
  s_pageCount : option Z;
  s_redactionCount : Z;
  redactionsByType_email : Z;
  redactionsByType_phone : Z;
  redactionsByType_ssn : Z;
  textLength : Z;
  processedAt : jsstring;
}.

(** [matches.filter(m => m.type === t).length] *)
Definition countOf (t : PIIType) (ms : list RedactionMatch) : Z :=
  Z.of_nat (length (List.filter (fun m => bool_decide (type m = t)) ms)).

(** [req.body.metadata || JSON.stringify(parsed.metadata || {})] *)
Definition metadataOf (env : Env) (bodyMetadata : option jsstring) (parsed : ParsedDocument)
    : jsstring :=
  match bodyMetadata with
  | Some (c :: s) => c :: s
  | _ =>
      JSON_stringify env
        (match DocumentParser.metadata parsed with
         | Some v => if truthy v then v else JObj ∅
         | None => JObj ∅
         end)
  end.

(** The row that the handler asks [RedactionRepository.bulkCreate] to store
    for a match. *)
Definition toRow (docId : string) (m : RedactionMatch) : RedactionRow :=
  {| document_id := docId;
     redaction_type := type m;
     original_value_hash := hash m;
     position_start := start m;
     position_end := end_ m |}.

(** The [summary] of the handler. *)
Definition summarize (env : Env) (u : Uuids) (file : File) (sanitizedFilename : jsstring)
    (parsed : ParsedDocument) (redactionResult : RedactionResult) : Summary :=
  {| s_documentId := documentId u;
     s_requestId := requestId u;
     s_filename := sanitizedFilename;
     fileSize := size file;
     fileType := mimetype file;
     s_pageCount := pageCount parsed;
     s_redactionCount := redactionCount redactionResult;
     redactionsByType_email := countOf email (matches redactionResult);
     redactionsByType_phone := countOf phone (matches redactionResult);
     redactionsByType_ssn := countOf ssn (matches redactionResult);
     textLength := len (redactedText redactionResult);
     processedAt := toISOString env |}.

(** The body of the [try] block of the handler.  [None] stands for a run in
    which the matching loop of [redactPII] does not end. *)
Definition ingestBody (env : Env) (u : Uuids) (file : option File)
    (bodyMetadata : option jsstring) (db : Db) : option (outcome Summary * Db) :=
  match file with
  | None => Some (Throw (AppError400 "No document provided"), db)
  | Some file =>
      match validateDocumentSize (size file) 10 with
      | Throw e => Some (Throw e, db)
      | Ok _ =>
          let sanitizedFilename := sanitizeFilename (originalname file) in
          match parseDocument (parsers env) (buffer file) (mimetype file) with
          | Throw e => Some (Throw e, db)
          | Ok parsed =>
              let originalHash := sha256 env (text parsed) in
              match redactPII (sha256 env) (text parsed) with
              | None => None
              | Some redactionResult =>
                  match create (rowId u) (requestId u) sanitizedFilename (mimetype file)
                               (size file) originalHash (redactedText redactionResult)
                               (metadataOf env bodyMetadata parsed) db with
                  | (Throw e, db1) => Some (Throw e, db1)
                  | (Ok _, db1) =>
                      let stored :=
                        if (0 <? length (matches redactionResult))%nat then
                          bulkCreate (map (toRow (documentId u)) (matches redactionResult)) db1
                        else (Ok tt, db1) in
                      match stored with
                      | (Throw e, db2) => Some (Throw e, db2)
                      | (Ok _, db2) =>
                          Some (Ok (summarize env u file sanitizedFilename parsed
                                      redactionResult),
                                db2)
                      end
                  end
              end
          end
      end
  end.

(** What the handler does with the request: the JSON response with status
    200, or the error handed to [next]. *)
Inductive Response : Type :=
| RespondIngested (data : Summary)
| NextError (e : Error).

(** The handler: [try { ... } catch (error) { next(error); }] *)
Definition ingest (env : Env) (u : Uuids) (file : option File)
    (bodyMetadata : option jsstring) (db : Db) : option (Response * Db) :=
  match ingestBody env u file bodyMetadata db with
  | Some (Ok data, db') => Some (RespondIngested data, db')
  | Some (Throw e, db') => Some (NextError e, db')
  | None => None
  end.

(** The error of the upload library for a file above [limits.fileSize]; it
    is no [AppError]. *)
Definition MulterError (msg : string) : Error :=
  {| statusCode := None; message := msg |}.

(** [upload.single('document')] as the route configures it, on the file the
    request sends in the field [document], if any.  [fileFilter] is asked
    first and hands the error of [validateFileType] to [next]; a file of
    more than [limits.fileSize] = 10 * 1024 * 1024 bytes then ends in the
    error of the library; any other file becomes [req.file]. *)
Definition uploadSingle (sent : option File) : outcome (option File) :=
  match sent with
  | None => Ok None
  | Some file =>
      match validateFileType (mimetype file) with
      | Throw e => Throw e
      | Ok _ =>
          if (10 * 1024 * 1024 <? size file)%Z then Throw (MulterError "File too large")
          else Ok (Some file)
      end
  end.

(** [router.post('/', upload.single('document'), handler)]: the handler runs
    when the middleware has not ended the request with an error. *)
Definition ingestRoute (env : Env) (u : Uuids) (sent : option File)
    (bodyMetadata : option jsstring) (db : Db) : option (Response * Db) :=
  match uploadSingle sent with
  | Throw e => Some (NextError e, db)
  | Ok file => ingest env u file bodyMetadata db
  end.

(** The status of the answer: 200 from the handler, or the one that
    [errorHandler], mounted after the routes, sends for the error. *)
Definition statusOf (r : Response) : Z :=
  match r with
  | RespondIngested _ => 200%Z
  | NextError e => ErrorHandler.res_status (ErrorHandler.errorHandler e)
  end.

End Ingest.

(** ** From the ingest route to the analysis route *)

Module Pipeline.

(** The columns of a row of [documents] that the analysis route reads. *)
Definition columnsRead (row : Ingest.DocumentRow) : Analyze.Document :=
  {| Analyze.doc_request_id := Ingest.request_id row;
     Analyze.redacted_content := Some (Ingest.redacted_content row) |}.

(** The state of the analysis route over the database that the ingest route
    has written. *)
Definition stateOver (db : Ingest.Db)
    (analysisTable : gmap string Analyze.AnalysisResult)
    (collection : option (list VectorStore.VectorDocument)) : Analyze.State :=
  {| Analyze.documentsTable := map columnsRead (Ingest.documents db);
     Analyze.analysisTable := analysisTable;
     Analyze.collection := collection |}.

End Pipeline.

(** ** The texts of a pattern *)

Module Language.

(** The texts a pattern can match, whatever stands around them: [\b]
    consumes nothing, and what it asks of the neighbours is left out. *)
Fixpoint denotes (r : regex) (v : jsstring) : Prop :=
  match r with
  | Eps => v = []
  | Cls p => ∃ c, v = [c] ∧ p c = true
  | ClsStar p => Forall (fun c => p c = true) v
  | Opt r1 => v = [] ∨ denotes r1 v
  | Seq r1 r2 => ∃ v1 v2, v = v1 ++ v2 ∧ denotes r1 v1 ∧ denotes r2 v2
  | WordB => v = []
  end.

(** The number of decimal digits of a text. *)
Definition digitCount (v : jsstring) : nat := length (List.filter is_digit v).

End Language.

(** ** Notions used in the statements *)

Module Notions.

(** The pattern can match the empty string. *)
Fixpoint nullable (r : regex) : bool :=
  match r with
  | Eps => true
  | Cls _ => false
  | ClsStar _ => true
  | Opt _ => true
  | Seq r1 r2 => nullable r1 && nullable r2
  | WordB => true
  end.

(** The matches [l] lie in [text] from [from] on, one after the other:
    each is a non-empty run of [text] at its index, and the next one starts
    at or after its end. *)
Fixpoint wellPlaced (text : jsstring) (from : nat) (l : list (nat * jsstring)) : Prop :=
  match l with
  | [] => True
  | m :: l' =>
      (from ≤ m.1)%nat ∧ m.2 ≠ [] ∧ (m.1 + length m.2 ≤ length text)%nat ∧
      take (length m.2) (drop m.1 text) = m.2 ∧
      wellPlaced text (m.1 + length m.2) l'
  end.

(** Following the specification (4.1, option b): the single-pass rebuild.
    The text between the spans is kept and each span, taken at its offsets
    in the original text in ascending order, gives way to its label. *)
Fixpoint rebuild (text : jsstring) (pos : nat) (spans : list (nat * nat * jsstring))
    : jsstring :=
  match spans with
  | [] => drop pos text
  | (s, e, label) :: spans' =>
      take (s - pos) (drop pos text) ++ label ++ rebuild text e spans'
  end.

(** The span and the label of a match of category [t]. *)
Definition spanOf (t : PIIType) (m : nat * jsstring) : nat * nat * jsstring :=
  (m.1, (m.1 + length m.2)%nat, REDACTION_LABELS t).

(** The rebuild from all the matches of all the categories, found in the
    original text and sorted by start offset. *)
Definition rebuildAll (text : jsstring) : option jsstring :=
  match execAll email_pattern text, execAll phone_pattern text, execAll ssn_pattern text with
  | Some es, Some ps, Some ss =>
      Some (rebuild text 0
              (sortBy (fun a b => (Z.of_nat a.1.1 - Z.of_nat b.1.1)%Z)
                      (map (spanOf email) es ++ map (spanOf phone) ps ++ map (spanOf ssn) ss)))
  | _, _, _ => None
  end.

End Notions.
Import Notions.

(** ** Inputs used in the evaluations below *)

Module Inputs.
Import VectorStore AiService Analyze.

(** The fields of the test 'should flag missing NAICS codes with R2 citation'. *)
Definition fieldsWithoutNAICS : gmap string json :=
  <["company_name" := JStr (str "Test Company")]>
    (<["UEI" := JStr (str "A1B2C3D4E5F6")]> ∅).

(** A reply of the classifier that names a type and a reason, and has no
    [confidence] member. *)
Definition replyWithoutConfidence : ClassifierReply :=
  {| r_documentType := Val "company_profile";
     r_confidence := Absent;
     r_reasoning := Val "Mentions a UEI and NAICS codes" |}.

(** A reply of the classifier with confidence 0.95. *)
Definition confidentReply : ClassifierReply :=
  {| r_documentType := Val "company_profile";
     r_confidence := Val (95 # 100)%Q;
     r_reasoning := Val "Mentions a UEI and NAICS codes" |}.

(** A reply of the classifier with confidence 0.65. *)
Definition hesitantReply : ClassifierReply :=
  {| r_documentType := Val "unknown";
     r_confidence := Val (65 # 100)%Q;
     r_reasoning := Val "Mixed content" |}.

(** One run: threshold 0.8, the given reply of the classifier, an extraction
    whose call fails (so the fields are the empty object, which
    [JSON.stringify] prints as two braces). *)
Definition envWith (reply : ClassifierReply) : Env :=
  {| CONFIDENCE_THRESHOLD := (8 # 10)%Q;
     uuidv4 := "analysis-1";
     classifierReply := fun _ => Some reply;
     extractorReply := fun _ _ => None;
     generateNegotiationBrief := fun _ _ _ => "brief";
     generateClientEmail := fun _ _ => "email";
     JSON_stringify := fun _ => str "{}" |}.

Definition oneDocument : list Document :=
  [ {| doc_request_id := "request-1";
       redacted_content := Some (str "Company profile. UEI: A1B2C3D4E5F6") |} ].

(** The rule store has been initialised. *)
Definition readyState : State :=
  {| documentsTable := oneDocument; analysisTable := ∅; collection := Some GSA_RULES |}.

(** The fields read from the reply [{"UEI":{"toString":0}}] of the
    extractor: the member [UEI] is an object with a member [toString]. *)
Definition fieldsWithUnprintableUEI : gmap string json :=
  {[ "UEI" := JObj {[ "toString" := JNum 0 ]} ]}.

Definition doubleQuote : ascii := ascii_of_nat 34.

(** One run as [envWith] sets it, with an extraction that returns these
    fields. *)
Definition envWithUnprintableUEI (reply : ClassifierReply) : Env :=
  {| CONFIDENCE_THRESHOLD := (8 # 10)%Q;
     uuidv4 := "analysis-1";
     classifierReply := fun _ => Some reply;
     extractorReply := fun _ _ => Some fieldsWithUnprintableUEI;
     generateNegotiationBrief := fun _ _ _ => "brief";
     generateClientEmail := fun _ _ => "email";
     JSON_stringify := fun _ =>
       str "{" ++ [doubleQuote] ++ str "UEI" ++ [doubleQuote] ++ str ":{" ++
       [doubleQuote] ++ str "toString" ++ [doubleQuote] ++ str ":0}}" |}.

End Inputs.

(** Inputs of the ingest route *)

Module IngestInputs.
Import DocumentParser Ingest.

(** A host on which only plain text can be read. *)
Definition plainParsers : Parsers :=
  {| pdf := fun _ => inl "Invalid PDF structure";
     extractRawText := fun _ => inl "Not a DOCX archive";
     decodeUtf8 := fun b => b |}.

Definition host : Env :=
  {| parsers := plainParsers;
     sha256 := fun v => str "sha256:" ++ v;
     JSON_stringify := fun _ => str "{}";
     toISOString := str "2025-01-01T00:00:00.000Z" |}.

Definition run1 : Uuids :=
  {| requestId := "request-1"; documentId := "document-1"; rowId := "row-1" |}.

Definition textFile (name content : jsstring) : File :=
  {| originalname := name; mimetype := "text/plain";
     size := len content; buffer := content |}.

Definition emptyDb : Db := {| documents := []; redactions := [] |}.

(** [Buffer.alloc(11 * 1024 * 1024)] sent as [large-file.txt], plain text. *)
Definition elevenMegabytes : Buffer := repeat Ascii.zero (Z.to_nat (11 * 1024 * 1024)).

Definition largeFile : File :=
  {| originalname := str "large-file.txt"; mimetype := "text/plain";
     size := 11 * 1024 * 1024; buffer := elevenMegabytes |}.

End IngestInputs.

(** * Properties *)

Import VectorStore AiService Analyze Inputs.

(** ** Compliance evaluator *)

(** C4 (evaluation at the failing input).  For a company profile whose field
    map has a valid [UEI] and no [NAICS_codes] member, [generateChecklist]
    returns the UEI item alone: no item cites R2, where the claim (and the
    test 'should flag missing NAICS codes with R2 citation') asks for a
    non_compliant R2 item. *)
Theorem generateChecklist_omits_missing_NAICS :
  ∀ rules : list RuleData,
    generateChecklist fieldsWithoutNAICS "company_profile" rules =
      [item "Valid UEI Required" compliant (ValidUEIFound (str "A1B2C3D4E5F6"))
            "R1" critical] ∧
    ¬ ∃ it, it ∈ generateChecklist fieldsWithoutNAICS "company_profile" rules ∧
            ruleId it = "R2".
Proof.
  intros rules.
  assert (E : generateChecklist fieldsWithoutNAICS "company_profile" rules =
              [item "Valid UEI Required" compliant (ValidUEIFound (str "A1B2C3D4E5F6"))
                    "R1" critical]) by (vm_compute; reflexivity).
  split; [exact E|].
  rewrite E. intros (it & Hin & Hid).
  apply list_elem_of_singleton in Hin. subst it. discriminate Hid.
Qed.

(** The same omission for the contract value of a past-performance
    document: an absent [contract_value] gives no item at all. *)
Lemma generateChecklist_omits_missing_contract_value :
  ∀ rules : list RuleData, generateChecklist ∅ "past_performance" rules = [].
Proof. intros rules. vm_compute. reflexivity. Qed.

(** C5 as stated fails: the item that [generateChecklist] gives for a pricing
    sheet cites R4 and carries the severity [medium], while the entry R4 of
    the rule corpus [GSA_RULES] has the severity [high]. *)
Lemma checklist_severity_differs_from_corpus :
  ∃ it, it ∈ generateChecklist ∅ "pricing_sheet" [] ∧
        ¬ ∃ doc, doc ∈ GSA_RULES ∧ id doc = ruleId it ∧
                 VectorStore.severity (metadata doc) = AiService.severity it.
Proof.
  exists (item "Labor Category Details" non_compliant LaborCategoriesMissing "R4" medium).
  split.
  - vm_compute. left.
  - intros (doc & Hin & Hid & Hsev).
    unfold GSA_RULES in Hin.
    repeat (apply elem_of_cons in Hin as [-> | Hin]); try discriminate.
    by apply elem_of_nil in Hin.
Qed.

(** A block of [generateChecklist] pushes nothing or one item; in the
    second case the item is known. *)
Ltac pushed_item H :=
  repeat case_match;
  try (by apply elem_of_nil in H);
  apply list_elem_of_singleton in H; subst; simpl; set_solver.

(** C5 (amended).  Every item of a checklist carries the severity that the
    evaluator itself fixes for the rule it cites: critical for R1, high for
    R2, high for R3 and medium for R4; the [retrievedRules] argument has no
    influence on the checklist. *)
Theorem checklist_severity_fixed_by_evaluator :
  ∀ (fields : gmap string json) (documentType : string)
    (rules rules' : list RuleData) (it : ChecklistItem),
    it ∈ generateChecklist fields documentType rules →
    generateChecklist fields documentType rules' =
      generateChecklist fields documentType rules ∧
    (ruleId it, AiService.severity it) ∈
      [("R1", critical); ("R2", high); ("R3", high); ("R4", medium)].
Proof.
  intros fields dt rules rules' it Hin. split; [reflexivity|].
  unfold generateChecklist in Hin.
  rewrite !elem_of_app in Hin.
  destruct Hin as [H | [H | [H | H]]].
  - unfold checkUEI in H. pushed_item H.
  - unfold checkNAICS in H. pushed_item H.
  - unfold checkContractValue in H. pushed_item H.
  - unfold checkLabor in H. pushed_item H.
Qed.

Lemma checklist_severity_fixed_by_evaluator_witness :
  item "Labor Category Details" non_compliant LaborCategoriesMissing "R4" medium
    ∈ generateChecklist ∅ "pricing_sheet" [] ∧
  (generateChecklist ∅ "pricing_sheet" [] = generateChecklist ∅ "pricing_sheet" [] ∧
   ("R4", medium) ∈ [("R1", critical); ("R2", high); ("R3", high); ("R4", medium)]).
Proof.
  assert (H : item "Labor Category Details" non_compliant LaborCategoriesMissing "R4" medium
                ∈ generateChecklist ∅ "pricing_sheet" []) by (vm_compute; left).
  split; [exact H|].
  exact (checklist_severity_fixed_by_evaluator ∅ "pricing_sheet" [] [] _ H).
Defined.

(** ** Pipeline *)

(** The scenario of the specification: confidence 0.65 against the threshold
    0.8.  The run stops after the classification. *)
Lemma analyze_abstains_and_stops :
  let '(response, st) := analyze (envWith hesitantReply) "request-1" readyState in
  response = Ok (RespondAbstained "analysis-1" "request-1"
                   (classifyDocument (8 # 10)%Q (Some hesitantReply))) ∧
  ∃ row, analysisTable st !! "analysis-1" = Some row ∧
         ar_status row = completed_with_warnings ∧
         error_message row = Some "Low confidence classification: Mixed content" ∧
         checklist_items row = None ∧ rule_citations row = None.
Proof. vm_compute. split; [reflexivity|]. eexists. repeat split; reflexivity. Qed.

(** Whatever the replies and the state, a run in which [classifyDocument]
    sets [shouldAbstain] ends after the classification, the id drawn for the
    row being new: the row is [completed_with_warnings] with the reason of
    the classifier in its message, and has no checklist and no citations. *)
Lemma analyze_stops_when_shouldAbstain :
  ∀ (env : Env) (requestId : string) (st : State) (document : Document)
    (others : list Document),
    let classification :=
      classifyDocument (CONFIDENCE_THRESHOLD env)
        (classifierReply env (default [] (redacted_content document))) in
    (findByRequestId requestId st).1 = Ok (document :: others) →
    analysisTable st !! uuidv4 env = None →
    shouldAbstain classification = true →
    ∃ st', analyze env requestId st =
             (Ok (RespondAbstained (uuidv4 env) requestId classification), st') ∧
           ∃ row, analysisTable st' !! uuidv4 env = Some row ∧
                  ar_status row = completed_with_warnings ∧
                  error_message row =
                    Some ("Low confidence classification: " +:+ reasoning classification) ∧
                  checklist_items row = None ∧ rule_citations row = None.
Proof.
  intros env requestId st document others classification Hdocs Hnew Habstain.
  unfold analyze, tryCatch, analyzeBody, bind.
  unfold findByRequestId, gets in *. simpl in Hdocs. injection Hdocs as Hdocs.
  rewrite Hdocs. fold classification. rewrite Habstain.
  unfold create. cbn [ar_id]. rewrite Hnew.
  rewrite bool_decide_eq_false_2 by (by intros [? ?]).
  cbn [update modify ret].
  eexists. split; [reflexivity|].
  cbn [analysisTable]. rewrite lookup_alter_eq, lookup_alter_eq, lookup_insert_eq.
  eexists. split; [reflexivity|]. repeat split; reflexivity.
Qed.

(** C7 (evaluation at the failing input).  The classifier's reply has no
    [confidence] member.  [classifyDocument] reports the confidence 0, below
    the threshold 0.8, and [shouldAbstain] false, since the comparison is
    made on the missing member; the run goes through every later step and
    the row ends [completed] with a checklist and citations, where the claim
    asks for a stop with [completed_with_warnings]. *)
Theorem analyze_runs_on_with_confidence_zero :
  let classification := classifyDocument (8 # 10)%Q (Some replyWithoutConfidence) in
  let '(response, st) := analyze (envWith replyWithoutConfidence) "request-1" readyState in
  confidence classification = 0%Q ∧
  Qlt (confidence classification) (CONFIDENCE_THRESHOLD (envWith replyWithoutConfidence)) ∧
  shouldAbstain classification = false ∧
  ∃ row, analysisTable st !! "analysis-1" = Some row ∧
         classification_confidence row = Some 0%Q ∧
         ar_status row = completed ∧
         checklist_items row =
           Some [item "Valid UEI Required" non_compliant UEINotFound "R1" critical] ∧
         rule_citations row = Some ["R4"; "R5"; "R1"].
Proof.
  vm_compute. split; [reflexivity|]. split; [reflexivity|]. split; [reflexivity|].
  eexists. repeat split; reflexivity.
Qed.

(** The path of [classifyDocument] for a failed call pairs the same
    confidence 0 with [shouldAbstain] true. *)
Lemma classifyDocument_failure_abstains :
  ∀ threshold : Q,
    confidence (classifyDocument threshold None) = 0%Q ∧
    shouldAbstain (classifyDocument threshold None) = true.
Proof. intros threshold. split; reflexivity. Qed.

(** C6 (evaluation at the failing input).  The rule store is initialised
    and the classifier is confident; the reply of the extractor is
    [{"UEI":{"toString":0}}].  In step 4 [generateChecklist] tests the
    pattern of the UEI on this object, whose conversion to a string throws a
    [TypeError].  The handler passes the error to [next] and leaves the row
    as it was: the status is still [processing] and no message is recorded,
    where the claim asks for [failed] with the message; the classification of
    step 1 stays on the row. *)
Theorem analyze_leaves_row_processing_on_error :
  let '(response, st) :=
    analyze (envWithUnprintableUEI confidentReply) "request-1" readyState in
  collection readyState = Some GSA_RULES ∧
  response = Ok (NextError TypeError) ∧
  ∃ row, analysisTable st !! "analysis-1" = Some row ∧
         ar_status row = processing ∧
         error_message row = None ∧
         checklist_items row = None ∧
         document_classification row = Some "company_profile" ∧
         classification_confidence row = Some (95 # 100)%Q.
Proof.
  vm_compute. split; [reflexivity|]. split; [reflexivity|].
  eexists. repeat split; reflexivity.
Qed.

(** The steps of a run from the insertion of the row on.  Each of them ends
    the proof of a statement on the row of the run or on the other rows. *)
Ltac steps_of_run finish :=
  cbn [update modify ret throw liftOutcome];
  destruct (shouldAbstain _); [finish|];
  unfold queryRules; cbn [collection];
  destruct (collection _) as [store|]; [|finish];
  destruct (query store _ 5) as [result store'];
  unfold generateChecklistResult;
  destruct (checklistConverts _ _); [|finish];
  destruct (stringifies _); finish.

(** The row of the run after the handler: it has been inserted and altered,
    and none of the alterations gives it the status [failed]. *)
Ltac row_of_run :=
  cbn; rewrite !lookup_alter_eq, lookup_insert_eq; cbn;
  intros [= <-]; discriminate.

(** Any other row is as it was. *)
Ltac other_row :=
  cbn; rewrite !lookup_alter_ne, lookup_insert_ne by done; tauto.

(** No run of the handler gives a row the status [failed]: a row that has
    it after the run had it before, under an id other than the one of the
    run. *)
Lemma analyze_never_writes_failed :
  ∀ (env : Env) (requestId : string) (st : State) (key : string) (row : AnalysisResult),
    analysisTable (analyze env requestId st).2 !! key = Some row →
    ar_status row = failed →
    analysisTable st !! key = Some row.
Proof.
  intros env requestId st key row.
  unfold analyze, tryCatch, analyzeBody, bind, findByRequestId, gets.
  cbn [fst snd].
  destruct (List.filter _ _) as [|document others]; [cbn; tauto|].
  unfold create. cbn [ar_id].
  destruct (bool_decide (is_Some (analysisTable st !! uuidv4 env))); [cbn; tauto|].
  destruct (decide (key = uuidv4 env)) as [->|Hne].
  - steps_of_run row_of_run.
  - steps_of_run other_row.
Qed.

(** ** [containsPII] *)

(** C9 (evaluation at the failing input).  Two calls in a row on one string:
    the first finds the email and leaves the [lastIndex] of the shared email
    pattern at the end of the match; the second starts from there, finds
    nothing and answers false. *)
Theorem containsPII_depends_on_earlier_calls :
  let text := str "Email: test@example.com" in
  let '(first, st1) := containsPII initialPatterns text in
  let '(second, st2) := containsPII st1 text in
  first = true ∧ st1 email = 23%nat ∧ second = false.
Proof. vm_compute. repeat split; reflexivity. Qed.

(** ** The stable sort *)

Lemma StronglySorted_weaken {A : Type} (R1 R2 : A → A → Prop) (l : list A) :
  (∀ a b, R1 a b → R2 a b) → StronglySorted R1 l → StronglySorted R2 l.
Proof.
  intros HR. induction 1 as [|x l Hl IH Hx]; constructor; [exact IH|].
  eapply Forall_impl; [exact Hx|]. intros y. apply HR.
Qed.

Section SortFacts.
Context {A : Type}.

Lemma insertSorted_perm (cmp : A → A → Z) (x : A) (l : list A) :
  insertSorted cmp x l ≡ₚ x :: l.
Proof.
  induction l as [|y l IH]; simpl; [done|].
  destruct (cmp x y <=? 0)%Z; [done|].
  rewrite IH. apply Permutation_swap.
Qed.

Lemma sortBy_perm (cmp : A → A → Z) (l : list A) : sortBy cmp l ≡ₚ l.
Proof.
  induction l as [|x l IH]; simpl; [done|].
  rewrite insertSorted_perm. by rewrite IH.
Qed.

Lemma sortBy_elem_of (cmp : A → A → Z) (l : list A) (x : A) :
  x ∈ sortBy cmp l ↔ x ∈ l.
Proof. by rewrite sortBy_perm. Qed.

(** Comparators of the shape [key a - key b]. *)
Variable key : A → Z.
Variable cmp : A → A → Z.
Hypothesis cmp_key : ∀ a b, cmp a b = (key a - key b)%Z.

Lemma insertSorted_sorted (x : A) (l : list A) :
  StronglySorted (λ a b, (key a ≤ key b)%Z) l →
  StronglySorted (λ a b, (key a ≤ key b)%Z) (insertSorted cmp x l).
Proof.
  induction 1 as [|y l Hl IH Hy]; simpl.
  - repeat constructor.
  - destruct (Z.leb_spec (cmp x y) 0) as [Hle|Hgt]; rewrite cmp_key in *.
    + constructor; [by constructor|].
      constructor; [lia|].
      eapply Forall_impl; [exact Hy|]. simpl. intros z Hz. lia.
    + constructor; [exact IH|].
      rewrite insertSorted_perm. constructor; [lia|exact Hy].
Qed.

Lemma sortBy_sorted (l : list A) :
  StronglySorted (λ a b, (key a ≤ key b)%Z) (sortBy cmp l).
Proof.
  induction l as [|x l IH]; simpl; [constructor|].
  by apply insertSorted_sorted.
Qed.

(** Stability: the elements of one key keep their order. *)
Lemma insertSorted_filter_key (s : Z) (x : A) (l : list A) :
  filter (λ a, key a = s) (insertSorted cmp x l) =
  filter (λ a, key a = s) (x :: l).
Proof.
  induction l as [|y l IH]; simpl; [done|].
  destruct (Z.leb_spec (cmp x y) 0) as [Hle|Hgt]; [done|].
  rewrite cmp_key in Hgt.
  rewrite (filter_cons _ y (insertSorted cmp x l)), IH.
  rewrite !filter_cons.
  repeat case_decide; try done; lia.
Qed.

Lemma sortBy_filter_key (s : Z) (l : list A) :
  filter (λ a, key a = s) (sortBy cmp l) = filter (λ a, key a = s) l.
Proof.
  induction l as [|x l IH]; simpl; [done|].
  rewrite insertSorted_filter_key, !filter_cons, IH. done.
Qed.

(** On a list whose keys go strictly down the sort is the reversal. *)
Lemma insertSorted_last (x : A) (l : list A) :
  Forall (λ a, (key a < key x)%Z) l → insertSorted cmp x l = l ++ [x].
Proof.
  induction 1 as [|y l Hy Hl IH]; simpl; [done|].
  destruct (Z.leb_spec (cmp x y) 0) as [Hle|Hgt]; rewrite cmp_key in *; [lia|].
  by rewrite IH.
Qed.

Lemma sortBy_rev (l : list A) :
  StronglySorted (λ a b, (key b < key a)%Z) l → sortBy cmp l = reverse l.
Proof.
  induction 1 as [|x l Hl IH Hx]; simpl; [done|].
  rewrite IH, reverse_cons. apply insertSorted_last.
  apply Forall_reverse. exact Hx.
Qed.
End SortFacts.

(** ** Retrieval *)

Lemma slice0_nonneg {A : Type} (l : list A) (n : Z) :
  (0 ≤ n)%Z → slice0 l n = take (Z.to_nat n) l.
Proof.
  intros Hn. unfold slice0.
  destruct (Z.ltb_spec n 0) as [Hlt|_]; [lia|done].
Qed.

Lemma query_at_most_nResults (store : list VectorDocument) (queryText : jsstring) (n : Z) :
  (0 ≤ n)%Z → (Z.of_nat (length (ids (query store queryText n).1)) ≤ n)%Z.
Proof.
  intros Hn. unfold query. cbn [fst ids].
  rewrite length_map, slice0_nonneg, length_take by done. lia.
Qed.

(** C8.  Two calls of [query] in a row, with one query text and one
    [nResults], return the same list of rule identifiers, and the store is
    after them what it was.  The list is the slice to [nResults] (its first
    [nResults] entries when [nResults] is not negative) of a ranking that
    holds the documents of positive score, each once, with scores going
    down, the documents of one score being in the order of the corpus. *)
Theorem query_deterministic_ranking :
  ∀ (store : list VectorDocument) (queryText : jsstring) (nResults : Z),
    let scored := map (scoreDocument (toLowerCase queryText)) store in
    let '(first, store1) := query store queryText nResults in
    let '(second, store2) := query store1 queryText nResults in
    ids first = ids second ∧ store2 = store ∧
    ∃ ranked : list (VectorDocument * Z),
      ids first = map (λ item, id item.1) (slice0 ranked nResults) ∧
      ((0 ≤ nResults)%Z → slice0 ranked nResults = take (Z.to_nat nResults) ranked) ∧
      ranked ≡ₚ filter (λ item, (0 < item.2)%Z) scored ∧
      StronglySorted (λ a b, (b.2 ≤ a.2)%Z) ranked ∧
      ∀ s : Z, filter (λ item, item.2 = s) ranked =
               filter (λ item, item.2 = s) (filter (λ item, (0 < item.2)%Z) scored).
Proof.
  intros store queryText nResults scored.
  unfold query. fold scored.
  split; [reflexivity|]. split; [reflexivity|].
  exists (sortBy (λ a b, (b.2 - a.2)%Z) (filter (λ item, (0 < item.2)%Z) scored)).
  split; [reflexivity|]. split; [apply slice0_nonneg|].
  split; [apply sortBy_perm|]. split.
  - eapply StronglySorted_weaken;
      [|apply (sortBy_sorted (λ a : VectorDocument * Z, (- a.2)%Z))].
    + simpl. intros a b. lia.
    + intros a b. lia.
  - intros s.
    assert (Hcmp : ∀ a b : VectorDocument * Z, (b.2 - a.2 = - a.2 - - b.2)%Z)
      by (intros a b; lia).
    pose proof (sortBy_filter_key (λ a : VectorDocument * Z, (- a.2)%Z)
                  (λ a b, (b.2 - a.2)%Z) Hcmp (- s)%Z
                  (filter (λ item, (0 < item.2)%Z) scored)) as Hst.
    rewrite (list_filter_iff (λ item : VectorDocument * Z, item.2 = s)
               (λ item, (- item.2)%Z = (- s)%Z)) by (intros x; simpl; lia).
    rewrite (list_filter_iff (λ item : VectorDocument * Z, item.2 = s)
               (λ item, (- item.2)%Z = (- s)%Z)) by (intros x; simpl; lia).
    exact Hst.
Qed.

(** ** The matcher *)

Lemma star_sound (p : ascii → bool) (k : option ascii → jsstring → option jsstring) :
  ∀ rest prev out,
    star p prev rest k = Some out →
    ∃ pre prev' rest', rest = pre ++ rest' ∧ k prev' rest' = Some out.
Proof.
  induction rest as [|c t IH]; intros prev out H; simpl in H.
  - by exists [], prev, [].
  - destruct (p c).
    + destruct (star p (Some c) t k) as [out'|] eqn:E.
      * injection H as <-.
        destruct (IH _ _ E) as (pre & prev' & rest' & -> & Hk).
        by exists (c :: pre), prev', rest'.
      * by exists [], prev, (c :: t).
    + by exists [], prev, (c :: t).
Qed.

(** A successful match consumes a prefix of the text and hands the rest to
    the continuation; the prefix is not empty when the pattern is not
    nullable. *)
Lemma rmatch_sound (r : regex) :
  ∀ prev rest k out,
    rmatch r prev rest k = Some out →
    ∃ pre prev' rest',
      rest = pre ++ rest' ∧ k prev' rest' = Some out ∧ (nullable r = false → pre ≠ []).
Proof.
  induction r as [|p|p|r1 IH1|r1 IH1 r2 IH2|]; intros prev rest k out H; simpl in H.
  - by exists [], prev, rest.
  - destruct rest as [|c t]; [done|]. destruct (p c); [|done].
    by exists [c], (Some c), t.
  - destruct (star_sound _ _ _ _ _ H) as (pre & prev' & rest' & -> & Hk).
    by exists pre, prev', rest'.
  - destruct (rmatch r1 prev rest k) as [out'|] eqn:E.
    + injection H as <-.
      destruct (IH1 _ _ _ _ E) as (pre & prev' & rest' & -> & Hk & _).
      by exists pre, prev', rest'.
    + by exists [], prev, rest.
  - destruct (IH1 _ _ _ _ H) as (pre1 & prev1 & rest1 & -> & H2 & Hn1).
    destruct (IH2 _ _ _ _ H2) as (pre2 & prev2 & rest2 & -> & Hk & Hn2).
    exists (pre1 ++ pre2), prev2, rest2.
    split; [by rewrite app_assoc|]. split; [done|].
    simpl. intros Hnull Happ. apply app_eq_nil in Happ as [-> ->].
    apply andb_false_iff in Hnull as [Hnull|Hnull]; [by apply Hn1|by apply Hn2].
  - destruct (at_boundary prev rest); [|done].
    by exists [], prev, rest.
Qed.

Lemma scan_unfold (r : regex) (prev : option ascii) (rest : jsstring) (i : nat) :
  scan r prev rest i =
  match rmatch r prev rest accept with
  | Some out => Some (i, take (length rest - length out) rest)
  | None =>
      match rest with
      | [] => None
      | c :: t => scan r (Some c) t (S i)
      end
  end.
Proof. by destruct rest. Qed.

Lemma scan_sound (r : regex) :
  ∀ rest prev i j v,
    scan r prev rest i = Some (j, v) →
    ∃ skipped post,
      rest = skipped ++ v ++ post ∧ j = (i + length skipped)%nat ∧
      (nullable r = false → v ≠ []).
Proof.
  induction rest as [|c t IH]; intros prev i j v H; rewrite scan_unfold in H.
  - destruct (rmatch r prev [] accept) as [out|] eqn:E; [|done].
    injection H as <- <-.
    destruct (rmatch_sound _ _ _ _ _ E) as (pre & prev' & rest' & Hrest & Hk & Hn).
    injection Hk as ->.
    symmetry in Hrest. apply app_eq_nil in Hrest as [-> ->].
    exists [], []. simpl. split; [done|]. split; [lia|done].
  - destruct (rmatch r prev (c :: t) accept) as [out|] eqn:E.
    + injection H as <- <-.
      destruct (rmatch_sound _ _ _ _ _ E) as (pre & prev' & rest' & Hrest & Hk & Hn).
      injection Hk as ->.
      assert (Hlen : (S (length t) - length out)%nat = length pre).
      { apply (f_equal length) in Hrest. rewrite length_app in Hrest.
        simpl in Hrest. lia. }
      rewrite Hlen, Hrest, take_app_length.
      exists [], out. split; [done|]. split; [simpl; lia|done].
    + destruct (IH _ _ _ _ H) as (skipped & post & -> & -> & Hn).
      exists (c :: skipped), post. split; [done|]. split; [simpl; lia|done].
Qed.

(** A match reported by [exec] is a run of the text at its index, at or
    after [lastIndex], and the new [lastIndex] is its end. *)
Lemma exec_sound (r : regex) (text : jsstring) (lastIndex i li' : nat) (v : jsstring) :
  exec r text lastIndex = (Some (i, v), li') →
  (lastIndex ≤ i)%nat ∧ li' = (i + length v)%nat ∧
  (i + length v ≤ length text)%nat ∧
  take (length v) (drop i text) = v ∧
  (nullable r = false → v ≠ []).
Proof.
  unfold exec. destruct (Nat.ltb_spec (length text) lastIndex) as [|Hle]; [done|].
  destruct (scan r _ _ _) as [[j w]|] eqn:E; [|done].
  intros [= -> -> <-].
  destruct (scan_sound _ _ _ _ _ _ E) as (skipped & post & Hdrop & -> & Hn).
  assert (Hlen : length (drop lastIndex text) = (length text - lastIndex)%nat)
    by apply length_drop.
  rewrite Hdrop, !length_app in Hlen.
  split; [lia|]. split; [done|]. split; [lia|]. split; [|done].
  rewrite <- drop_drop, Hdrop, drop_app_length, take_app_length. done.
Qed.

(** The loop over [exec] ends for a pattern that cannot match the empty
    string, and its matches are well placed. *)
Lemma execLoop_wellPlaced (r : regex) (text : jsstring) :
  nullable r = false →
  ∀ fuel lastIndex,
    (lastIndex ≤ length text)%nat → (length text - lastIndex < fuel)%nat →
    ∃ l, execLoop fuel r text lastIndex = Some l ∧ wellPlaced text lastIndex l.
Proof.
  intros Hnull. induction fuel as [|fuel IH]; intros lastIndex Hle Hfuel; [lia|].
  simpl. destruct (exec r text lastIndex) as [[[i v]|] li'] eqn:E.
  - destruct (exec_sound _ _ _ _ _ _ E) as (Hi & -> & Hend & Htake & Hv).
    specialize (Hv Hnull).
    assert (0 < length v)%nat by (destruct v; [done|simpl; lia]).
    destruct (IH (i + length v)%nat) as (l & -> & Hl); [lia|lia|].
    exists ((i, v) :: l). split; [done|]. simpl. done.
  - by exists [].
Qed.

Lemma execAll_wellPlaced (t : PIIType) (text : jsstring) :
  ∃ l, execAll (PII_PATTERNS t) text = Some l ∧ wellPlaced text 0 l.
Proof.
  apply execLoop_wellPlaced; [by destruct t|lia|lia].
Qed.

(** ** Redaction *)

Lemma substring_run (text : jsstring) (i : nat) (v : jsstring) :
  (i + length v ≤ length text)%nat →
  take (length v) (drop i text) = v →
  substring text (Z.of_nat i) (Z.of_nat i + len v) = v.
Proof.
  intros Hle Hv. unfold substring, clamp, len.
  replace (Z.to_nat (Z.of_nat i)) with i by lia.
  replace (Z.to_nat (Z.of_nat i + Z.of_nat (length v))) with (i + length v)%nat by lia.
  replace (Nat.min i (length text)) with i by lia.
  replace (Nat.min (i + length v) (length text)) with (i + length v)%nat by lia.
  replace (Nat.min i (i + length v)) with i by lia.
  replace (Nat.max i (i + length v) - i)%nat with (length v) by lia.
  exact Hv.
Qed.

Lemma wellPlaced_elem_of (text : jsstring) :
  ∀ l from m,
    wellPlaced text from l → m ∈ l →
    (from ≤ m.1)%nat ∧ m.2 ≠ [] ∧ (m.1 + length m.2 ≤ length text)%nat ∧
    take (length m.2) (drop m.1 text) = m.2.
Proof.
  induction l as [|m0 l IH]; intros from m Hw Hin.
  - by apply elem_of_nil in Hin.
  - destruct Hw as (Hfrom & Hne & Hend & Htake & Hrest).
    apply elem_of_cons in Hin as [->|Hin]; [done|].
    destruct (IH _ _ Hrest Hin) as (? & ? & ? & ?).
    split; [lia|done].
Qed.

Section RedactionFacts.
Variable hashValue : jsstring → jsstring.

Lemma foldl_applyRedaction (adj : Z) (l : list RedactionMatch) :
  ∀ rt ms,
    foldl (applyRedaction adj) (rt, ms) l =
    (foldl replaceSpan rt l, ms ++ map (adjustMatch adj) l).
Proof.
  induction l as [|m l IH]; intros rt ms; simpl.
  - by rewrite app_nil_r.
  - unfold applyRedaction at 2. simpl. rewrite IH.
    by rewrite <- app_assoc.
Qed.

(** The items of one category, in the order in which they are replaced
    and pushed. *)
Lemma redactType_eq (text rt : jsstring) (ms : list RedactionMatch) (adj : Z)
    (t : PIIType) (l : list (nat * jsstring)) :
  execAll (PII_PATTERNS t) text = Some l →
  let temp := sortBy (λ a b, (start b - start a)%Z) (map (toMatch hashValue t) l) in
  redactType hashValue text (rt, ms, adj) t =
    Some (foldl replaceSpan rt temp, ms ++ map (adjustMatch adj) temp,
          foldl updateAdjustment adj temp).
Proof.
  intros Hl temp. unfold redactType, findMatches. rewrite Hl. simpl.
  fold temp. by rewrite foldl_applyRedaction.
Qed.

Lemma redactType_none (text : jsstring) (st : jsstring * list RedactionMatch * Z)
    (t : PIIType) :
  execAll (PII_PATTERNS t) text = Some [] →
  redactType hashValue text st t = Some st.
Proof.
  intros Hl. destruct st as [[rt ms] adj].
  rewrite (redactType_eq _ _ _ _ _ _ Hl). simpl. by rewrite app_nil_r.
Qed.

(** An item pushed for category [t] comes from a match of the pattern of
    [t] in the original text. *)
Lemma adjusted_item_origin (text : jsstring) (t : PIIType) (l : list (nat * jsstring))
    (adj : Z) (m : RedactionMatch) :
  wellPlaced text 0 l →
  m ∈ map (adjustMatch adj)
        (sortBy (λ a b, (start b - start a)%Z) (map (toMatch hashValue t) l)) →
  ∃ i : nat,
    (i, value m) ∈ l ∧ type m = t ∧ hash m = hashValue (value m) ∧
    substring text (Z.of_nat i) (Z.of_nat i + len (value m)) = value m ∧
    start m = (Z.of_nat i + adj)%Z ∧
    end_ m = (start m + len (REDACTION_LABELS t))%Z.
Proof.
  intros Hw Hin.
  apply list_elem_of_fmap in Hin as (m0 & -> & Hin).
  apply sortBy_elem_of in Hin.
  apply list_elem_of_fmap in Hin as ([i v] & -> & Hin).
  destruct (wellPlaced_elem_of _ _ _ _ Hw Hin) as (_ & _ & Hend & Htake).
  exists i. simpl. repeat split; try done.
  by apply substring_run.
Qed.
End RedactionFacts.

Lemma substring_prefix (s : jsstring) (i : nat) :
  (i ≤ length s)%nat → substring s 0 (Z.of_nat i) = take i s.
Proof.
  intros Hle. unfold substring, clamp.
  replace (Z.to_nat 0) with 0%nat by done.
  replace (Z.to_nat (Z.of_nat i)) with i by lia.
  replace (Nat.min i (length s)) with i by lia.
  by rewrite !Nat.min_0_l, Nat.max_0_l, Nat.sub_0_r.
Qed.

Lemma substring_from_nat (s : jsstring) (e : nat) :
  (e ≤ length s)%nat → substring_from s (Z.of_nat e) = drop e s.
Proof.
  intros Hle. unfold substring_from, clamp.
  replace (Z.to_nat (Z.of_nat e)) with e by lia.
  by replace (Nat.min e (length s)) with e by lia.
Qed.

Lemma foldl_reverse_foldr {A B : Type} (f : A → B → A) (a : A) (l : list B) :
  foldl f a (reverse l) = foldr (λ x acc, f acc x) a l.
Proof.
  induction l as [|x l IH]; simpl; [done|].
  by rewrite reverse_cons, foldl_app, IH.
Qed.

Section SingleCategory.
Variable hashValue : jsstring → jsstring.

Lemma wellPlaced_starts_ascend (text : jsstring) (t : PIIType) :
  ∀ l from,
    wellPlaced text from l →
    Forall (λ m, (Z.of_nat from ≤ start m)%Z) (map (toMatch hashValue t) l) ∧
    StronglySorted (λ a b, (- start b < - start a)%Z) (map (toMatch hashValue t) l).
Proof.
  induction l as [|[i v] l IH]; intros from Hw; simpl.
  - split; constructor.
  - destruct Hw as (Hfrom & Hne & Hend & Htake & Hrest). simpl in *.
    destruct (IH _ Hrest) as [Hall Hsorted].
    assert (0 < length v)%nat by (destruct v; [done|simpl; lia]).
    split.
    + constructor; [simpl; lia|].
      eapply Forall_impl; [exact Hall|]. simpl. intros m Hm. lia.
    + constructor; [exact Hsorted|].
      eapply Forall_impl; [exact Hall|]. simpl. intros m Hm. lia.
Qed.

(** The matches of one category are replaced from the last to the
    first. *)
Lemma sort_descending_reverses (text : jsstring) (t : PIIType) (l : list (nat * jsstring)) :
  wellPlaced text 0 l →
  sortBy (λ a b, (start b - start a)%Z) (map (toMatch hashValue t) l) =
  reverse (map (toMatch hashValue t) l).
Proof.
  intros Hw.
  apply (sortBy_rev (λ m, (- start m)%Z)); [intros a b; lia|].
  by apply (wellPlaced_starts_ascend text t l 0%nat).
Qed.

(** Replacing well placed matches of one category from the last to the
    first rebuilds the text in one pass. *)
Lemma replace_from_right_rebuilds (text : jsstring) (t : PIIType) :
  ∀ l from,
    wellPlaced text from l →
    foldr (λ m acc, replaceSpan acc m) text (map (toMatch hashValue t) l) =
    take from text ++ rebuild text from (map (spanOf t) l).
Proof.
  induction l as [|[i v] l IH]; intros from Hw; simpl.
  - by rewrite take_drop.
  - destruct Hw as (Hfrom & Hne & Hend & Htake & Hrest). simpl in *.
    rewrite (IH _ Hrest).
    unfold replaceSpan, toMatch. cbn [type start end_ fst snd].
    assert (Hlen : length (take (i + length v) text ++
                           rebuild text (i + length v) (map (spanOf t) l))
                   = (i + length v + length (rebuild text (i + length v)
                                                (map (spanOf t) l)))%nat).
    { rewrite length_app, length_take. lia. }
    unfold len. rewrite <- Nat2Z.inj_add.
    rewrite substring_prefix, substring_from_nat by lia.
    rewrite take_app_le by (rewrite length_take; lia).
    rewrite take_take, Nat.min_l by lia.
    rewrite drop_app_length' by (rewrite length_take; lia).
    rewrite (app_assoc (take from text)), take_take_drop.
    by replace (from + (i - from))%nat with i by lia.
Qed.

Lemma replace_sorted_rebuilds (text : jsstring) (t : PIIType) (l : list (nat * jsstring)) :
  wellPlaced text 0 l →
  foldl replaceSpan text
    (sortBy (λ a b, (start b - start a)%Z) (map (toMatch hashValue t) l)) =
  rebuild text 0 (map (spanOf t) l).
Proof.
  intros Hw.
  rewrite (sort_descending_reverses _ _ _ Hw), foldl_reverse_foldr.
  by rewrite (replace_from_right_rebuilds _ _ _ _ Hw).
Qed.

(** When one category alone has matches, the redacted text is the
    single-pass rebuild of the original text. *)
Lemma redactPII_single_category (text : jsstring) (t : PIIType)
    (l : list (nat * jsstring)) (r : RedactionResult) :
  redactPII hashValue text = Some r →
  execAll (PII_PATTERNS t) text = Some l →
  (∀ t', t' ≠ t → execAll (PII_PATTERNS t') text = Some []) →
  redactedText r = rebuild text 0 (map (spanOf t) l).
Proof.
  intros Hr Hl Hothers.
  destruct (execAll_wellPlaced t text) as (l' & Hl' & Hw).
  rewrite Hl in Hl'. injection Hl' as <-.
  unfold redactPII, PII_TYPES in Hr. cbn [redactTypes] in Hr.
  destruct t.
  - rewrite (redactType_eq _ _ _ _ _ _ _ Hl) in Hr.
    rewrite !redactType_none in Hr by (apply Hothers; done).
    injection Hr as <-. simpl. by apply replace_sorted_rebuilds.
  - rewrite redactType_none in Hr by (apply Hothers; done).
    rewrite (redactType_eq _ _ _ _ _ _ _ Hl) in Hr.
    rewrite redactType_none in Hr by (apply Hothers; done).
    injection Hr as <-. simpl. by apply replace_sorted_rebuilds.
  - rewrite !redactType_none in Hr by (apply Hothers; done).
    rewrite (redactType_eq _ _ _ _ _ _ _ Hl) in Hr.
    injection Hr as <-. simpl. by apply replace_sorted_rebuilds.
Qed.
End SingleCategory.

Section RedactionResultFacts.
Variable hashValue : jsstring → jsstring.

(** [redactPII] returns for every text, and each item of its match list
    comes from a match of the pattern of its category in the original
    text: the item keeps the literal and its digest, its [start] is the
    index of the match moved by the adjustment in force for the category,
    and its [end] is [start] plus the length of the label. *)
Lemma redactPII_matches_origin (text : jsstring) :
  ∃ (r : RedactionResult) (adj : PIIType → Z),
    redactPII hashValue text = Some r ∧ adj email = 0%Z ∧
    (∀ m, m ∈ matches r →
       ∃ (i : nat) (l : list (nat * jsstring)),
         execAll (PII_PATTERNS (type m)) text = Some l ∧ (i, value m) ∈ l ∧
         hash m = hashValue (value m) ∧
         substring text (Z.of_nat i) (Z.of_nat i + len (value m)) = value m ∧
         start m = (Z.of_nat i + adj (type m))%Z ∧
         end_ m = (start m + len (REDACTION_LABELS (type m)))%Z) ∧
    StronglySorted (λ a b, (start a ≤ start b)%Z) (matches r).
Proof.
  destruct (execAll_wellPlaced email text) as (les & Hes & Hwe).
  destruct (execAll_wellPlaced phone text) as (lps & Hps & Hwp).
  destruct (execAll_wellPlaced ssn text) as (lss & Hss & Hws).
  unfold redactPII, PII_TYPES. cbn [redactTypes].
  rewrite (redactType_eq _ _ _ _ _ _ _ Hes). cbn zeta.
  rewrite (redactType_eq _ _ _ _ _ _ _ Hps). cbn zeta.
  rewrite (redactType_eq _ _ _ _ _ _ _ Hss). cbn zeta.
  set (Te := sortBy _ (map (toMatch hashValue email) les)).
  set (Tp := sortBy _ (map (toMatch hashValue phone) lps)).
  set (Ts := sortBy _ (map (toMatch hashValue ssn) lss)).
  set (a1 := foldl updateAdjustment 0%Z Te).
  set (a2 := foldl updateAdjustment a1 Tp).
  eexists.
  exists (λ t, match t with email => 0%Z | phone => a1 | ssn => a2 end).
  split; [reflexivity|]. split; [reflexivity|]. cbn [matches]. split.
  - intros m Hm. apply sortBy_elem_of in Hm.
    rewrite !elem_of_app in Hm. destruct Hm as [[[Hm|Hm]|Hm]|Hm].
    + by apply elem_of_nil in Hm.
    + destruct (adjusted_item_origin _ _ _ _ _ _ Hwe Hm)
        as (i & Hin & Ht & Hh & Hsub & Hst & Hen).
      exists i, les. rewrite Ht. done.
    + destruct (adjusted_item_origin _ _ _ _ _ _ Hwp Hm)
        as (i & Hin & Ht & Hh & Hsub & Hst & Hen).
      exists i, lps. rewrite Ht. done.
    + destruct (adjusted_item_origin _ _ _ _ _ _ Hws Hm)
        as (i & Hin & Ht & Hh & Hsub & Hst & Hen).
      exists i, lss. rewrite Ht. done.
  - apply (sortBy_sorted start). intros a b. done.
Qed.
End RedactionResultFacts.

(** The items of the specification's own scenario: the email is found at
    offsets 8 to 21; the item returned for it has [start] 8 and [end] 24, and
    the original text between 8 and 24 is the literal followed by three more
    code units. *)
Lemma redactPII_scenario_email_item :
  ∀ hashValue : jsstring → jsstring,
    ∃ r m, redactPII hashValue (str "Contact john@acme.com or 555-123-4567") = Some r ∧
           m ∈ matches r ∧
           value m = str "john@acme.com" ∧ start m = 8%Z ∧ end_ m = 24%Z ∧
           substring (str "Contact john@acme.com or 555-123-4567") (start m) (end_ m)
             = str "john@acme.com or" ∧
           substring (str "Contact john@acme.com or 555-123-4567") (start m) (end_ m)
             ≠ value m.
Proof.
  intros hashValue. vm_compute.
  eexists. eexists. split; [reflexivity|]. split; [left|].
  repeat split; try reflexivity. discriminate.
Qed.

(** In the text "Contact john@acme.com or 555-123-4567" the offsets of the
    returned email item do not cut the literal out of the original text. *)
Lemma redactPII_offsets_miss_the_literal :
  ¬ ∀ (hashValue : jsstring → jsstring) (r : RedactionResult) (m : RedactionMatch),
      redactPII hashValue (str "Contact john@acme.com or 555-123-4567") = Some r →
      m ∈ matches r →
      substring (str "Contact john@acme.com or 555-123-4567") (start m) (end_ m)
        = value m.
Proof.
  intros H.
  destruct (redactPII_scenario_email_item (λ _, []))
    as (r & m & Hr & Hin & _ & _ & _ & _ & Hne).
  apply Hne. by apply (H (λ _, []) r m).
Qed.

(** C1 (evaluation at the failing input).  The text holds a phone number at
    offset 0 and two emails at offsets 11 and 18; the redacted text that
    comes back is the right one.  The code moves each [start] by the
    adjustment of the categories done before ("Adjust positions for already
    applied redactions") and sets [end] to [start] plus the length of the
    label, and sorts on the result ("Sort matches by original position").
    The offsets that come back cut the literal neither out of the original
    text, as the claim asks, nor the label out of the redacted text, and the
    phone number, first in the original text, is last in the list. *)
Theorem redactPII_offsets_locate_neither_text :
  let text := str "5551234567 a@b.co c@d.co" in
  ∀ hashValue : jsstring → jsstring,
    ∃ r, redactPII hashValue text = Some r ∧
         redactedText r = str "[REDACTED_PHONE] [REDACTED_EMAIL] [REDACTED_EMAIL]" ∧
         execAll (PII_PATTERNS phone) text = Some [(0%nat, str "5551234567")] ∧
         execAll (PII_PATTERNS email) text =
           Some [(11%nat, str "a@b.co"); (18%nat, str "c@d.co")] ∧
         map (λ m, (type m, value m, start m, end_ m)) (matches r) =
           [(email, str "a@b.co", 11%Z, 27%Z); (email, str "c@d.co", 18%Z, 34%Z);
            (phone, str "5551234567", 20%Z, 36%Z)] ∧
         map (λ m, substring text (start m) (end_ m)) (matches r) =
           [str "a@b.co c@d.co"; str "c@d.co"; str "d.co"] ∧
         map (λ m, substring (redactedText r) (start m) (end_ m)) (matches r) =
           [str "HONE] [REDACTED_"; str "REDACTED_EMAIL] "; str "DACTED_EMAIL] [R"].
Proof.
  intros text hashValue. vm_compute.
  eexists. repeat split; reflexivity.
Qed.

(** The email of the text "Reach me at a@b.co today" is matched, and the
    item returned for it holds that very literal in its [value] field,
    which is not the hash. *)
Lemma redactPII_value_holds_the_literal :
  ∃ (i : nat) (literal : jsstring) (l : list (nat * jsstring)),
    execAll (PII_PATTERNS email) (str "Reach me at a@b.co today") = Some l ∧
    (i, literal) ∈ l ∧
    ∀ hashValue : jsstring → jsstring,
      ∃ r m, redactPII hashValue (str "Reach me at a@b.co today") = Some r ∧
             m ∈ matches r ∧
             value m = literal ∧ includes (value m) literal = true.
Proof.
  exists 12%nat, (str "a@b.co"). eexists.
  split; [vm_compute; reflexivity|]. split; [left|].
  intros hashValue. vm_compute.
  eexists. eexists. split; [reflexivity|]. split; [left|]. split; reflexivity.
Qed.

(** C2 (evaluation at the failing input).  The text holds an email and a
    phone number, and both are matched.  The email is replaced first, which
    makes the text ten code units longer; the phone number is then cut out
    at the offsets it has in the original text, which lie inside and just
    after the label of the email.  The redacted text that comes back holds
    the phone number whole, where the claim (and the tests of the
    repository, [not.toContain]) ask that no matched literal stays; the
    single-pass rebuild from the original offsets holds none.  Each item
    holds its literal in [value], beside the digest in [hash]. *)
Theorem redactPII_leaves_a_matched_literal :
  let text := str "a@b.co 5551234567 x" in
  ∀ hashValue : jsstring → jsstring,
    ∃ r, redactPII hashValue text = Some r ∧
         execAll (PII_PATTERNS phone) text = Some [(7%nat, str "5551234567")] ∧
         redactedText r = str "[REDACT[REDACTED_PHONE]5551234567 x" ∧
         includes (redactedText r) (str "5551234567") = true ∧
         rebuildAll text = Some (str "[REDACTED_EMAIL] [REDACTED_PHONE] x") ∧
         map (λ m, (type m, value m, hash m)) (matches r) =
           [(email, str "a@b.co", hashValue (str "a@b.co"));
            (phone, str "5551234567", hashValue (str "5551234567"))].
Proof.
  intros text hashValue. vm_compute.
  eexists. repeat split; reflexivity.
Qed.

(** C3 (evaluation at the failing input).  In the text of the
    specification's own scenario the email is replaced first, which makes
    the text three code units longer; the phone number is then cut out at
    the offsets it has in the original text.  The result loses [or 555-123-4]
    and keeps [567]; the single-pass rebuild from the original offsets is
    [Contact [REDACTED_EMAIL] or [REDACTED_PHONE]]. *)
Theorem redactPII_second_category_misplaced :
  let text := str "Contact john@acme.com or 555-123-4567" in
  ∀ hashValue : jsstring → jsstring,
    ∃ r, redactPII hashValue text = Some r ∧
         redactedText r = str "Contact [REDACTED_EMAIL] [REDACTED_PHONE]567" ∧
         rebuildAll text = Some (str "Contact [REDACTED_EMAIL] or [REDACTED_PHONE]") ∧
         Some (redactedText r) ≠ rebuildAll text.
Proof.
  intros text hashValue. vm_compute.
  eexists. split; [reflexivity|]. split; [reflexivity|]. split; [reflexivity|].
  discriminate.
Qed.

(** * Further properties of the code *)

(** ** File names and file types ([documentParser.ts]) *)

Module DocumentParserFacts.
Import DocumentParser.

Lemma is_prefix_app (w b c : jsstring) :
  is_prefix w b = true → is_prefix w (b ++ c) = true.
Proof.
  revert b. induction w as [|x w IH]; intros [|y b]; simpl; try done.
  intros [-> Hw]%andb_prop. by rewrite IH.
Qed.

Lemma includes_app_r (b c w : jsstring) :
  includes b w = true → includes (b ++ c) w = true.
Proof.
  induction b as [|y b IH].
  - simpl. rewrite orb_false_r. intros Hw.
    destruct w; [by destruct c|done].
  - cbn [includes app]. intros [Hp|Hi]%orb_prop.
    + pose proof (is_prefix_app _ (y :: b) c Hp) as Hp'. cbn [app] in Hp'.
      by rewrite Hp'.
    + rewrite (IH Hi). apply orb_true_r.
Qed.

Lemma includes_app_l (a b w : jsstring) :
  includes b w = true → includes (a ++ b) w = true.
Proof.
  intros Hb. induction a as [|x a IH]; [done|].
  cbn [includes app]. rewrite IH. apply orb_true_r.
Qed.

(** A string that holds [w] nowhere holds it in none of its parts. *)
Lemma includes_infix_false (a b c w : jsstring) :
  includes (a ++ b ++ c) w = false → includes b w = false.
Proof.
  intros H. destruct (includes b w) eqn:E; [|done].
  by rewrite (includes_app_l a _ w (includes_app_r b c w E)) in H.
Qed.

Lemma trimStart_suffix (s : jsstring) : ∃ a, s = a ++ trimStart s.
Proof.
  induction s as [|c s [a IH]]; [by exists []|].
  simpl. destruct (is_space c); [|by exists []].
  exists (c :: a). by rewrite IH at 1.
Qed.

Lemma trimEnd_prefix (s : jsstring) : ∃ c, s = trimEnd s ++ c.
Proof.
  induction s as [|x s [c IH]]; [by exists []|].
  simpl. destruct (trimEnd s) as [|y t].
  - destruct (is_space x).
    + exists (x :: s). done.
    + exists c. simpl in *. by rewrite IH at 1.
  - exists c. simpl in *. by rewrite IH at 1.
Qed.

Lemma trim_infix (s : jsstring) : ∃ a c, s = a ++ trim s ++ c.
Proof.
  destruct (trimStart_suffix s) as [a Ha].
  destruct (trimEnd_prefix (trimStart s)) as [c Hc].
  exists a, c. unfold trim. by rewrite <- Hc.
Qed.

Lemma trimEnd_cons (c : ascii) (s : jsstring) :
  trimEnd (c :: s) =
  match trimEnd s with
  | [] => if is_space c then [] else [c]
  | t => c :: t
  end.
Proof. done. Qed.

Lemma trimEnd_idemp (s : jsstring) : trimEnd (trimEnd s) = trimEnd s.
Proof.
  induction s as [|c s IH]; [done|].
  rewrite trimEnd_cons. destruct (trimEnd s) as [|d t] eqn:E.
  - destruct (is_space c) eqn:Ec; [done|].
    rewrite trimEnd_cons. simpl. by rewrite Ec.
  - by rewrite trimEnd_cons, IH.
Qed.

Lemma trimStart_trimEnd (s : jsstring) :
  trimStart (trimEnd (trimStart s)) = trimEnd (trimStart s).
Proof.
  induction s as [|c s IH]; [done|].
  cbn [trimStart]. destruct (is_space c) eqn:Ec; [exact IH|].
  rewrite trimEnd_cons. destruct (trimEnd s); rewrite ?Ec; simpl; by rewrite ?Ec.
Qed.

Lemma trim_idemp (s : jsstring) : trim (trim s) = trim s.
Proof.
  unfold trim at 1. unfold trim. by rewrite trimStart_trimEnd, trimEnd_idemp.
Qed.

(** Induction on a string two code units at a time. *)
Lemma pairs_ind (P : jsstring → Prop) :
  P [] → (∀ c, P [c]) →
  (∀ c d s, P s → P (d :: s) → P (c :: d :: s)) →
  ∀ s, P s.
Proof.
  intros H0 H1 H2 s.
  assert (P s ∧ ∀ c, P (c :: s)) as [? _]; [|done].
  induction s as [|d s [IHs IHc]]; [by split|].
  split; [apply IHc|]. intros c. by apply H2.
Qed.

Lemma removeDotDot_pair (c d : ascii) (s : jsstring) :
  removeDotDot (c :: d :: s) =
  if is_char "." c && is_char "." d then removeDotDot s
  else c :: removeDotDot (d :: s).
Proof. done. Qed.

Lemma removeDotDot_elem_of (x : ascii) (s : jsstring) :
  x ∈ removeDotDot s → x ∈ s.
Proof.
  induction s as [|c|c d s IH1 IH2] using pairs_ind; [done|done|].
  rewrite removeDotDot_pair.
  destruct (is_char "." c && is_char "." d).
  - intros Hx. by do 2 apply list_elem_of_further; apply IH1.
  - intros [->|Hx]%elem_of_cons; [left|]. by apply list_elem_of_further, IH2.
Qed.

Lemma removeDotDot_head (d : ascii) (s : jsstring) :
  is_char "." d = false → head (removeDotDot (d :: s)) = Some d.
Proof.
  intros Hd. destruct s as [|e s]; [done|].
  rewrite removeDotDot_pair. by rewrite Hd.
Qed.

Lemma includes_dotdot_cons (c : ascii) (s : jsstring) :
  includes (c :: s) (str "..") =
  (is_char "." c && match head s with Some d => is_char "." d | None => false end)
  || includes s (str "..").
Proof.
  change (includes (c :: s) (str ".."))
    with (is_prefix (str "..") (c :: s) || includes s (str "..")).
  f_equal. change (str "..") with ["."%char; "."%char].
  unfold is_char. destruct s as [|d s]; cbn [is_prefix head]; [done|].
  by rewrite andb_true_r.
Qed.

(** After the removal no two dots are side by side. *)
Lemma removeDotDot_no_dotdot (s : jsstring) :
  includes (removeDotDot s) (str "..") = false.
Proof.
  induction s as [|c|c d s IH1 IH2] using pairs_ind.
  - done.
  - change (removeDotDot [c]) with [c]. rewrite includes_dotdot_cons. cbn [head].
    by rewrite andb_false_r.
  - rewrite removeDotDot_pair.
    destruct (is_char "." c && is_char "." d) eqn:E; [exact IH1|].
    rewrite includes_dotdot_cons, IH2, orb_false_r.
    destruct (is_char "." c) eqn:Ec; [|done]. cbn [andb] in E.
    by rewrite (removeDotDot_head d s E), E.
Qed.

Lemma removeDotDot_id (s : jsstring) :
  includes s (str "..") = false → removeDotDot s = s.
Proof.
  induction s as [|c|c d s IH1 IH2] using pairs_ind; [done|done|].
  rewrite includes_dotdot_cons. cbn [head].
  intros [Hcd Hrest]%orb_false_elim.
  rewrite removeDotDot_pair, Hcd. by rewrite (IH2 Hrest).
Qed.

Lemma filter_all_true {A : Type} (f : A → bool) (l : list A) :
  (∀ x, x ∈ l → f x = true) → List.filter f l = l.
Proof.
  induction l as [|x l IH]; [done|]. intros H. simpl.
  rewrite (H x) by left. f_equal. apply IH. intros y Hy. apply H. by right.
Qed.

Lemma sanitizeFilename_elem_of (x : ascii) (filename : jsstring) :
  x ∈ sanitizeFilename filename →
  x ∈ filename ∧ isPathSeparator x = false ∧ isNul x = false.
Proof.
  unfold sanitizeFilename. intros Hx.
  destruct (trim_infix (removeDotDot
             (List.filter (λ c, negb (isNul c))
                (List.filter (λ c, negb (isPathSeparator c)) filename))))
    as (a & c & Heq).
  assert (Hin : x ∈ removeDotDot
             (List.filter (λ c, negb (isNul c))
                (List.filter (λ c, negb (isPathSeparator c)) filename))).
  { rewrite Heq, !elem_of_app. auto. }
  apply removeDotDot_elem_of, list_elem_of_In, filter_In in Hin as [Hin Hnul].
  apply filter_In in Hin as [Hin Hsep].
  apply list_elem_of_In in Hin.
  by destruct (isPathSeparator x), (isNul x).
Qed.

Lemma sanitizeFilename_no_dotdot (filename : jsstring) :
  includes (sanitizeFilename filename) (str "..") = false.
Proof.
  unfold sanitizeFilename.
  destruct (trim_infix (removeDotDot
             (List.filter (λ c, negb (isNul c))
                (List.filter (λ c, negb (isPathSeparator c)) filename))))
    as (a & c & Heq).
  apply (includes_infix_false a _ c). rewrite <- Heq.
  apply removeDotDot_no_dotdot.
Qed.

(** X1.  The name that [sanitizeFilename] returns holds no slash, no
    backslash, no NUL and no two dots side by side, whatever the name it is
    given. *)
Theorem sanitizeFilename_no_traversal :
  ∀ filename : jsstring,
    ("/"%char ∉ sanitizeFilename filename) ∧
    ("\"%char ∉ sanitizeFilename filename) ∧
    (Ascii.zero ∉ sanitizeFilename filename) ∧
    includes (sanitizeFilename filename) (str "..") = false.
Proof.
  intros filename. repeat split.
  - intros H. by destruct (sanitizeFilename_elem_of _ _ H) as (_ & ? & _).
  - intros H. by destruct (sanitizeFilename_elem_of _ _ H) as (_ & ? & _).
  - intros H. by destruct (sanitizeFilename_elem_of _ _ H) as (_ & _ & ?).
  - apply sanitizeFilename_no_dotdot.
Qed.

(** X2.  A sanitized name is left as it is by a second pass. *)
Theorem sanitizeFilename_idempotent :
  ∀ filename : jsstring,
    sanitizeFilename (sanitizeFilename filename) = sanitizeFilename filename.
Proof.
  intros filename.
  unfold sanitizeFilename at 1.
  rewrite (filter_all_true (λ c, negb (isPathSeparator c))).
  2:{ intros x Hx. by destruct (sanitizeFilename_elem_of _ _ Hx) as (_ & -> & _). }
  rewrite (filter_all_true (λ c, negb (isNul c))).
  2:{ intros x Hx. by destruct (sanitizeFilename_elem_of _ _ Hx) as (_ & _ & ->). }
  rewrite (removeDotDot_id _ (sanitizeFilename_no_dotdot filename)).
  unfold sanitizeFilename. apply trim_idemp.
Qed.

Lemma splitOn_no_sep (sep : ascii) (s : jsstring) :
  sep ∉ s → ∀ cur, splitOn sep s cur = [cur ++ s].
Proof.
  induction s as [|c s IH]; intros Hs cur; simpl.
  - by rewrite app_nil_r.
  - apply not_elem_of_cons in Hs as [Hc Hs].
    destruct (Ascii.eqb_spec sep c) as [->|_]; [done|].
    by rewrite (IH Hs), <- app_assoc.
Qed.

Lemma splitOn_last (sep : ascii) (ext : jsstring) :
  sep ∉ ext →
  ∀ stem cur, ∃ pre, splitOn sep (stem ++ sep :: ext) cur = pre ++ [ext] ∧ pre ≠ [].
Proof.
  intros Hext. induction stem as [|c stem IH]; intros cur; simpl.
  - rewrite Ascii.eqb_refl, (splitOn_no_sep _ _ Hext). by exists [cur].
  - destruct (Ascii.eqb sep c).
    + destruct (IH []) as (pre & -> & _). by exists (cur :: pre).
    + apply IH.
Qed.

(** X3.  The extension of a file name is what follows its last dot, in lower
    case; a name without a dot has the empty extension. *)
Theorem getFileExtension_after_last_dot :
  ∀ stem ext : jsstring,
    ("."%char ∉ ext) →
    getFileExtension (stem ++ "."%char :: ext) = toLowerCase ext ∧
    getFileExtension ext = [].
Proof.
  intros stem ext Hext. unfold getFileExtension. split.
  - destruct (splitOn_last _ _ Hext stem []) as (pre & -> & Hpre).
    rewrite last_snoc, length_app. simpl.
    destruct pre as [|p pre]; [done|]. simpl.
    by destruct (length pre + 1)%nat eqn:E; [lia|].
  - by rewrite (splitOn_no_sep _ _ Hext).
Qed.

Lemma getFileExtension_after_last_dot_witness :
  ("."%char ∉ str "TXT") ∧
  getFileExtension (str "a.b" ++ "."%char :: str "TXT") = toLowerCase (str "TXT") ∧
  getFileExtension (str "TXT") = [].
Proof.
  assert (H : "."%char ∉ str "TXT").
  { intros Hin. vm_compute in Hin.
    repeat (apply elem_of_cons in Hin as [Hin|Hin]; [discriminate|]).
    by apply elem_of_nil in Hin. }
  split; [exact H|].
  exact (getFileExtension_after_last_dot (str "a.b") (str "TXT") H).
Defined.

(** X4.  [parseDocument] refuses a MIME type as unsupported exactly when
    [validateFileType] refuses it: every type that passes the validation
    reaches a parser, whatever the parsers then do. *)
Theorem parseDocument_accepts_validated_types :
  ∀ (env : Parsers) (buffer : Buffer) (mimeType : string),
    (validateFileType mimeType = Ok tt ∧
     parseDocument env buffer mimeType ≠
       Throw (AppError400 ("Unsupported file type: " +:+ mimeType))) ∨
    (validateFileType mimeType =
       Throw (AppError400 ("File type not supported: " +:+ mimeType)) ∧
     parseDocument env buffer mimeType =
       Throw (AppError400 ("Unsupported file type: " +:+ mimeType))).
Proof.
  intros env buffer mimeType.
  unfold validateFileType, parseDocument, allowedTypes.
  destruct (decide (mimeType = "application/pdf")) as [->|H1].
  { left. split; [done|].
    cbn. unfold parsePDF. destruct (pdf env buffer) as [msg|[[t n] i]]; discriminate. }
  destruct (decide (mimeType =
    "application/vnd.openxmlformats-officedocument.wordprocessingml.document")) as [->|H2].
  { left. split; [done|].
    cbn. unfold parseDOCX. destruct (extractRawText env buffer) as [msg|[t m]]; discriminate. }
  destruct (decide (mimeType = "application/msword")) as [->|H3].
  { left. split; [done|].
    cbn. unfold parseDOCX. destruct (extractRawText env buffer) as [msg|[t m]]; discriminate. }
  destruct (decide (mimeType = "text/plain")) as [->|H4].
  { left. split; [done|]. cbn. discriminate. }
  right.
  rewrite (bool_decide_eq_false_2 (mimeType ∈ _)).
  2:{ rewrite !elem_of_cons, elem_of_nil. tauto. }
  rewrite !bool_decide_eq_false_2 by done. done.
Qed.

End DocumentParserFacts.

(** ** Statistics and verification ([redaction.ts]) *)

Module RedactionToolsFacts.
Import RedactionTools.

(** For a pattern that cannot match the empty string, [text.match] collects
    the literals that the loop over [exec] finds. *)
Lemma matchLoop_of_execLoop (r : regex) (text : jsstring) :
  nullable r = false →
  ∀ fuel lastIndex l,
    execLoop fuel r text lastIndex = Some l →
    ∀ fuel', (fuel ≤ fuel')%nat → matchLoop fuel' r text lastIndex = Some (map snd l).
Proof.
  intros Hnull. induction fuel as [|fuel IH]; intros lastIndex l Hl fuel' Hle; [done|].
  destruct fuel' as [|fuel']; [lia|].
  simpl in *. destruct (exec r text lastIndex) as [[[i v]|] li] eqn:E.
  - destruct (execLoop fuel r text li) as [l0|] eqn:E0; [|done].
    injection Hl as <-.
    destruct (exec_sound _ _ _ _ _ _ E) as (_ & _ & _ & _ & Hv).
    specialize (Hv Hnull).
    destruct v as [|c v]; [done|]. simpl.
    rewrite (IH _ _ E0 fuel') by lia. done.
  - by injection Hl as <-.
Qed.

Lemma matchGlobal_PII (t : PIIType) (text : jsstring) :
  ∃ l, execAll (PII_PATTERNS t) text = Some l ∧ wellPlaced text 0 l ∧
       matchGlobal (PII_PATTERNS t) text = Some (map snd l).
Proof.
  destruct (execAll_wellPlaced t text) as (l & Hl & Hw).
  exists l. split; [done|]. split; [done|].
  unfold matchGlobal. unfold execAll in Hl.
  apply matchLoop_of_execLoop with (fuel := S (length text));
    [by destruct t|exact Hl|lia].
Qed.

(** Nothing is found by [execAll] exactly when the first [exec] fails. *)
Lemma execAll_nil_iff (r : regex) (text : jsstring) :
  execAll r text = Some [] ↔ (exec r text 0).1 = None.
Proof.
  unfold execAll. simpl. destruct (exec r text 0) as [[m|] li]; simpl.
  - split; [|done]. by destruct (execLoop _ _ _ _).
  - done.
Qed.

Lemma test_at_zero (r : regex) (text : jsstring) :
  (test r text 0).1 = negb (bool_decide ((exec r text 0).1 = None)).
Proof.
  unfold test. by destruct (exec r text 0) as [[m|] li].
Qed.

Lemma exec_none_resets (r : regex) (text : jsstring) (lastIndex li : nat) :
  exec r text lastIndex = (None, li) → li = 0%nat.
Proof.
  unfold exec. destruct (length text <? lastIndex)%nat; [by intros [= <-]|].
  destruct (scan r _ _ _) as [[i v]|]; [done|by intros [= <-]].
Qed.

Lemma test_false_resets (r : regex) (text : jsstring) (lastIndex li : nat) :
  test r text lastIndex = (false, li) → li = 0%nat.
Proof.
  unfold test. destruct (exec r text lastIndex) as [[m|] li0] eqn:E.
  - by intros [=].
  - intros [= <-]. by apply exec_none_resets in E.
Qed.

Lemma containsPII_loop_keeps_zero (text : jsstring) :
  ∀ ts st st',
    containsPII_loop ts st text = (false, st') →
    ∀ t, st t = 0%nat → st' t = 0%nat.
Proof.
  induction ts as [|t0 ts IH]; intros st st' H t Ht; simpl in H.
  - by injection H as <-.
  - destruct (test (PII_PATTERNS t0) text (st t0)) as [found li] eqn:E.
    destruct found; [done|].
    apply test_false_resets in E as ->.
    apply (IH _ _ H). unfold setLastIndex. by case_decide.
Qed.

Lemma containsPII_loop_false_resets (text : jsstring) :
  ∀ ts st st',
    containsPII_loop ts st text = (false, st') →
    ∀ t, t ∈ ts → st' t = 0%nat.
Proof.
  induction ts as [|t0 ts IH]; intros st st' H t Hin; [by apply elem_of_nil in Hin|].
  simpl in H.
  destruct (test (PII_PATTERNS t0) text (st t0)) as [found li] eqn:E.
  destruct found; [done|].
  apply test_false_resets in E as ->.
  apply elem_of_cons in Hin as [->|Hin]; [|by apply (IH _ _ H)].
  apply (containsPII_loop_keeps_zero _ _ _ _ H).
  unfold setLastIndex. by case_decide.
Qed.

(** X5.  When [containsPII] answers false, it leaves the [lastIndex] of
    every shared pattern at 0, whatever the state it started from. *)
Theorem containsPII_false_resets_patterns :
  ∀ (st st' : PatternState) (text : jsstring),
    containsPII st text = (false, st') → ∀ t : PIIType, st' t = 0%nat.
Proof.
  intros st st' text H t.
  apply (containsPII_loop_false_resets _ _ _ _ H).
  unfold PII_TYPES. destruct t; set_solver.
Qed.

Lemma containsPII_false_resets_patterns_witness :
  ∃ st', containsPII (setLastIndex initialPatterns email 23)
           (str "Email: test@example.com") = (false, st') ∧
         ∀ t : PIIType, st' t = 0%nat.
Proof.
  destruct (containsPII (setLastIndex initialPatterns email 23)
              (str "Email: test@example.com")) as [b st'] eqn:H.
  assert (Hb : b = false).
  { apply (f_equal fst) in H. vm_compute in H. by symmetry. }
  subst b. exists st'. split; [reflexivity|].
  exact (containsPII_false_resets_patterns _ _ _ H).
Defined.

(** A match found when the search starts at a later index is also there
    for a search from the start. *)
Lemma scan_step (r : regex) (text : jsstring) (j : nat) :
  (j < length text)%nat →
  is_Some (scan r (last (take (S j) text)) (drop (S j) text) (S j)) →
  is_Some (scan r (last (take j text)) (drop j text) j).
Proof.
  intros Hj Hnext.
  destruct (lookup_lt_is_Some_2 text j Hj) as [c Hc].
  rewrite (take_S_r _ _ _ Hc), last_snoc in Hnext.
  rewrite (drop_S _ _ _ Hc), scan_unfold.
  by destruct (rmatch r _ _ accept).
Qed.

Lemma scan_from_zero (r : regex) (text : jsstring) :
  ∀ k, (k ≤ length text)%nat →
       is_Some (scan r (last (take k text)) (drop k text) k) →
       is_Some (scan r None text 0).
Proof.
  induction k as [|k IH]; intros Hk H; [done|].
  apply IH; [lia|]. apply scan_step; [lia|done].
Qed.

Lemma exec_from_zero (r : regex) (text : jsstring) (k : nat) :
  is_Some (exec r text k).1 → is_Some (exec r text 0).1.
Proof.
  unfold exec. destruct (Nat.ltb_spec (length text) k) as [|Hk].
  { simpl. by intros [? ?]. }
  destruct (scan r (last (take k text)) (drop k text) k) as [[i v]|] eqn:E.
  2:{ simpl. by intros [? ?]. }
  intros _.
  destruct (scan_from_zero r text k Hk) as [[i0 v0] E0]; [by rewrite E|].
  simpl. rewrite drop_0. simpl in E0. rewrite E0. by eexists.
Qed.

Lemma containsPII_loop_true (text : jsstring) :
  ∀ ts st st',
    containsPII_loop ts st text = (true, st') →
    ∃ t, t ∈ ts ∧ is_Some (exec (PII_PATTERNS t) text 0).1.
Proof.
  induction ts as [|t0 ts IH]; intros st st' H; simpl in H; [done|].
  destruct (test (PII_PATTERNS t0) text (st t0)) as [found li] eqn:E.
  destruct found.
  - exists t0. split; [left|].
    apply (exec_from_zero _ _ (st t0)).
    unfold test in E. destruct (exec (PII_PATTERNS t0) text (st t0)) as [[m|] li0].
    + by eexists.
    + by injection E.
  - destruct (IH _ _ H) as (t & Hin & Ht). exists t. split; [by right|done].
Qed.

Lemma containsPII_loop_fresh (text : jsstring) :
  ∀ ts st,
    (∀ t, t ∈ ts → st t = 0%nat) →
    (∃ t, t ∈ ts ∧ is_Some (exec (PII_PATTERNS t) text 0).1) →
    (containsPII_loop ts st text).1 = true.
Proof.
  induction ts as [|t0 ts IH]; intros st Hst (t & Hin & Ht).
  { by apply elem_of_nil in Hin. }
  simpl. rewrite (Hst t0) by left.
  destruct (test (PII_PATTERNS t0) text 0) as [found li] eqn:E.
  destruct found; [done|].
  apply IH.
  - intros t' Hin'. unfold setLastIndex. case_decide; [|apply Hst; by right].
    by apply test_false_resets in E.
  - exists t. split; [|done].
    apply elem_of_cons in Hin as [->|Hin]; [|done].
    unfold test in E. destruct Ht as [m Hm].
    destruct (exec (PII_PATTERNS t0) text 0) as [[m'|] li0]; [by injection E|done].
Qed.

Lemma containsPII_true_has_match (st st' : PatternState) (text : jsstring) :
  containsPII st text = (true, st') →
  (containsPII initialPatterns text).1 = true ∧
  ∃ (t : PIIType) (m : nat * jsstring) (l : list (nat * jsstring)),
    execAll (PII_PATTERNS t) text = Some (m :: l).
Proof.
  intros H.
  destruct (containsPII_loop_true _ _ _ _ H) as (t & Hin & Ht).
  split.
  - apply containsPII_loop_fresh; [done|]. by exists t.
  - exists t. destruct (execAll_wellPlaced t text) as (l & Hl & _).
    destruct l as [|m l]; [|by exists m, l].
    apply execAll_nil_iff in Hl. rewrite Hl in Ht. by destruct Ht.
Qed.

(** X6.  A true answer of [containsPII] is never wrong, whatever the state
    of the shared patterns: some category then has a match in the text, and
    a call with fresh patterns answers true as well. *)
Theorem containsPII_true_is_sound :
  ∀ (st st' : PatternState) (text : jsstring),
    containsPII st text = (true, st') →
    (containsPII initialPatterns text).1 = true ∧
    ∃ (t : PIIType) (m : nat * jsstring) (l : list (nat * jsstring)),
      execAll (PII_PATTERNS t) text = Some (m :: l).
Proof. intros st st' text H. by apply (containsPII_true_has_match st st'). Qed.

Lemma containsPII_true_is_sound_witness :
  ∃ st', containsPII initialPatterns (str "Phone: 555-123-4567") = (true, st') ∧
         ((containsPII initialPatterns (str "Phone: 555-123-4567")).1 = true ∧
          ∃ (t : PIIType) (m : nat * jsstring) (l : list (nat * jsstring)),
            execAll (PII_PATTERNS t) (str "Phone: 555-123-4567") = Some (m :: l)).
Proof.
  destruct (containsPII initialPatterns (str "Phone: 555-123-4567")) as [b st'] eqn:H.
  assert (Hb : b = true).
  { apply (f_equal fst) in H. vm_compute in H. by symmetry. }
  subst b. exists st'. split; [reflexivity|].
  pose proof (containsPII_true_is_sound _ _ _ H) as [H1 H2].
  rewrite H in H1. split; [exact H1|exact H2].
Defined.

Lemma containsPII_fresh_false (text : jsstring) :
  (containsPII initialPatterns text).1 = false →
  ∀ t, execAll (PII_PATTERNS t) text = Some [].
Proof.
  intros H t. apply execAll_nil_iff. unfold containsPII in H.
  destruct (exec (PII_PATTERNS t) text 0).1 as [m|] eqn:E; [|done].
  rewrite containsPII_loop_fresh in H; [done|done|].
  exists t. split; [unfold PII_TYPES; destruct t; set_solver|]. rewrite E. by eexists.
Qed.


(** X8.  A text in which [containsPII], called with fresh patterns, finds
    nothing comes back from [redactPII] as it is, with no match and the
    count 0. *)
Theorem redactPII_leaves_clean_text :
  ∀ (hashValue : jsstring → jsstring) (text : jsstring),
    (containsPII initialPatterns text).1 = false →
    redactPII hashValue text =
      Some {| redactedText := text; matches := []; redactionCount := 0 |}.
Proof.
  intros hashValue text H.
  pose proof (containsPII_fresh_false _ H) as Hnone.
  unfold redactPII, PII_TYPES. cbn [redactTypes].
  by rewrite !redactType_none by apply Hnone.
Qed.

Lemma redactPII_leaves_clean_text_witness :
  (containsPII initialPatterns (str "This is clean text")).1 = false ∧
  redactPII (λ v, v) (str "This is clean text") =
    Some {| redactedText := str "This is clean text"; matches := [];
            redactionCount := 0 |}.
Proof.
  assert (H : (containsPII initialPatterns (str "This is clean text")).1 = false)
    by (vm_compute; reflexivity).
  split; [exact H|].
  exact (redactPII_leaves_clean_text (λ v, v) _ H).
Defined.

Section Counting.
Variable hashValue : jsstring → jsstring.

Lemma filter_type_same (t : PIIType) (a : Z) (l : list (nat * jsstring)) :
  filter (λ m, type m = t) (map (adjustMatch a) (map (toMatch hashValue t) l)) =
  map (adjustMatch a) (map (toMatch hashValue t) l).
Proof.
  induction l as [|m l IH]; [done|].
  cbn [map]. rewrite filter_cons_True by done. by rewrite IH.
Qed.

Lemma filter_type_other (t t' : PIIType) (a : Z) (l : list (nat * jsstring)) :
  t' ≠ t →
  filter (λ m, type m = t) (map (adjustMatch a) (map (toMatch hashValue t') l)) = [].
Proof.
  intros Hne. induction l as [|m l IH]; [done|].
  cbn [map]. by rewrite filter_cons_False.
Qed.

(** The match list of [redactPII], up to its order: the matches of the three
    patterns in the original text, each with its adjustment. *)
Lemma redactPII_shape (text : jsstring) (les lps lss : list (nat * jsstring)) :
  execAll (PII_PATTERNS email) text = Some les →
  execAll (PII_PATTERNS phone) text = Some lps →
  execAll (PII_PATTERNS ssn) text = Some lss →
  ∃ r a1 a2,
    redactPII hashValue text = Some r ∧
    matches r ≡ₚ
      map (adjustMatch 0) (map (toMatch hashValue email) les) ++
      map (adjustMatch a1) (map (toMatch hashValue phone) lps) ++
      map (adjustMatch a2) (map (toMatch hashValue ssn) lss) ∧
    redactionCount r = Z.of_nat (length (matches r)).
Proof.
  intros Hes Hps Hss.
  unfold redactPII, PII_TYPES. cbn [redactTypes].
  rewrite (redactType_eq _ _ _ _ _ _ _ Hes). cbn zeta.
  rewrite (redactType_eq _ _ _ _ _ _ _ Hps). cbn zeta.
  rewrite (redactType_eq _ _ _ _ _ _ _ Hss). cbn zeta.
  eexists. eexists. eexists. split; [reflexivity|]. cbn [matches redactionCount].
  split; [|done].
  rewrite sortBy_perm. cbn [app]. rewrite <- app_assoc.
  repeat apply Permutation_app; apply Permutation_map, sortBy_perm.
Qed.

Lemma count_by_type (text : jsstring) (les lps lss : list (nat * jsstring))
    (r : RedactionResult) (a1 a2 : Z) :
  matches r ≡ₚ
    map (adjustMatch 0) (map (toMatch hashValue email) les) ++
    map (adjustMatch a1) (map (toMatch hashValue phone) lps) ++
    map (adjustMatch a2) (map (toMatch hashValue ssn) lss) →
  length (filter (λ m, type m = email) (matches r)) = length les ∧
  length (filter (λ m, type m = phone) (matches r)) = length lps ∧
  length (filter (λ m, type m = ssn) (matches r)) = length lss.
Proof.
  intros Hperm. repeat split; rewrite Hperm, !filter_app, !length_app.
  - rewrite filter_type_same, !filter_type_other by done.
    rewrite !length_map. simpl. lia.
  - rewrite filter_type_same, !filter_type_other by done.
    rewrite !length_map. simpl. lia.
  - rewrite filter_type_same, !filter_type_other by done.
    rewrite !length_map. simpl. lia.
Qed.
End Counting.

(** X9.  [getPIIStatistics] returns for every text, and counts for each
    category as many matches as [redactPII] returns for it; the three counts
    add up to [redactionCount]. *)
Theorem getPIIStatistics_counts_redactions :
  ∀ (hashValue : jsstring → jsstring) (text : jsstring),
    ∃ r stats,
      redactPII hashValue text = Some r ∧
      getPIIStatistics text = Some stats ∧
      (∀ t : PIIType,
         stats !! typeName t =
           Some (Z.of_nat (length (filter (λ m, type m = t) (matches r))))) ∧
      ∃ e p s : Z,
        stats !! "email" = Some e ∧ stats !! "phone" = Some p ∧
        stats !! "ssn" = Some s ∧ redactionCount r = (e + p + s)%Z.
Proof.
  intros hashValue text.
  destruct (matchGlobal_PII email text) as (les & Hes & _ & Hme).
  destruct (matchGlobal_PII phone text) as (lps & Hps & _ & Hmp).
  destruct (matchGlobal_PII ssn text) as (lss & Hss & _ & Hms).
  destruct (redactPII_shape hashValue text _ _ _ Hes Hps Hss)
    as (r & a1 & a2 & Hr & Hperm & Hcount).
  destruct (count_by_type hashValue text _ _ _ _ _ _ Hperm) as (He & Hp & Hs).
  exists r. unfold getPIIStatistics, PII_TYPES. cbn [foldl].
  unfold countType at 3. rewrite Hme.
  unfold countType at 2. rewrite Hmp.
  unfold countType at 1. rewrite Hms.
  rewrite !length_map.
  eexists. split; [done|]. split; [reflexivity|]. split.
  - intros t. destruct t; cbn [typeName].
    + rewrite !lookup_insert_ne, lookup_insert_eq by done. by rewrite He.
    + rewrite lookup_insert_ne, lookup_insert_eq by done. by rewrite Hp.
    + rewrite lookup_insert_eq. by rewrite Hs.
  - exists (Z.of_nat (length les)), (Z.of_nat (length lps)), (Z.of_nat (length lss)).
    rewrite !lookup_insert_ne, lookup_insert_eq by done.
    rewrite lookup_insert_ne, lookup_insert_eq by done.
    rewrite lookup_insert_eq.
    repeat split. rewrite Hcount, Hperm, !length_app, !length_map. lia.
Qed.

End RedactionToolsFacts.

(** ** Retrieval ([SimpleVectorStore], [queryRules], [getRuleById]) *)

Module RuleStoreFacts.
Import RuleStore.

(** The documents behind the result of a query, in the order of the
    result. *)
Lemma query_documents (store : list VectorDocument) (queryText : jsstring) (n : Z) :
  ∃ top : list (VectorDocument * Z),
    (∀ item, item ∈ top → item.1 ∈ store) ∧
    ids (query store queryText n).1 = map id (map fst top) ∧
    documents (query store queryText n).1 = map content (map fst top) ∧
    metadatas (query store queryText n).1 = map metadata (map fst top) ∧
    distances (query store queryText n).1 = map (λ item, distance item.2) top.
Proof.
  unfold query. cbn [fst ids documents metadatas distances].
  set (top := slice0 _ n). exists top. split.
  - intros item Hin.
    assert (Hs : item ∈ sortBy (λ a b, (b.2 - a.2)%Z)
                   (filter (λ item, (0 < item.2)%Z)
                      (map (scoreDocument (toLowerCase queryText)) store))).
    { unfold top, slice0 in Hin.
      destruct (n <? 0)%Z; by apply subseteq_take in Hin. }
    apply sortBy_elem_of, list_elem_of_filter in Hs as [_ Hs].
    apply list_elem_of_fmap in Hs as (doc & -> & Hdoc). done.
  - by rewrite !map_map.
Qed.

Lemma rulesDataOf_map (docs : list VectorDocument) :
  rulesDataOf (map id docs) (map content docs) (map metadata docs) =
  map (λ doc, {| rd_id := id doc; rd_content := content doc;
                 rd_metadata := metadata doc |}) docs.
Proof. induction docs as [|d docs IH]; [done|]. simpl. by rewrite IH. Qed.

(** X10.  The arrays of a query result are aligned: they have one length,
    and at each index they hold the identifier, the content and the metadata
    of one and the same document of the store.  The [rulesData] that the
    analysis route builds from them has one entry per returned identifier,
    with that document's content and metadata. *)
Theorem query_result_aligned :
  ∀ (store : list VectorDocument) (queryText : jsstring) (nResults : Z),
    let r := (query store queryText nResults).1 in
    ∃ docs : list VectorDocument,
      (∀ doc, doc ∈ docs → doc ∈ store) ∧
      ids r = map id docs ∧ documents r = map content docs ∧
      metadatas r = map metadata docs ∧
      length (distances r) = length docs ∧
      rulesDataOf (ids r) (documents r) (metadatas r) =
        map (λ doc, {| rd_id := id doc; rd_content := content doc;
                       rd_metadata := metadata doc |}) docs.
Proof.
  intros store queryText nResults r.
  destruct (query_documents store queryText nResults)
    as (top & Hin & Hids & Hdocs & Hmetas & Hdist).
  exists (map fst top). subst r. rewrite Hids, Hdocs, Hmetas, Hdist.
  split.
  - intros doc (item & -> & Hitem)%list_elem_of_fmap. by apply Hin.
  - repeat split; [by rewrite !length_map|apply rulesDataOf_map].
Qed.

Lemma find_by_id (l : list VectorDocument) (doc : VectorDocument) :
  NoDup (map id l) → doc ∈ l →
  find (λ d, bool_decide (id d = id doc)) l = Some doc.
Proof.
  induction l as [|d l IH]; intros Hnd Hin; [by apply elem_of_nil in Hin|].
  cbn [map] in Hnd. apply NoDup_cons in Hnd as [Hd Hnd].
  cbn [find]. apply elem_of_cons in Hin as [->|Hin].
  - by rewrite bool_decide_eq_true_2.
  - rewrite bool_decide_eq_false_2; [by apply IH|].
    intros Heq. apply Hd. rewrite Heq. apply list_elem_of_fmap. by exists doc.
Qed.

Lemma GSA_RULES_ids_NoDup : NoDup (map id GSA_RULES).
Proof. apply (bool_decide_unpack _). by vm_compute. Qed.

(** X11.  Once [initializeVectorStore] has run, [queryRules] returns without
    throwing and leaves the state as it is, and every identifier it returns
    can be looked up: [getRuleById] finds for it the rule whose content and
    metadata the query returned at the same index. *)
Theorem queried_rules_can_be_looked_up :
  ∀ (st : State) (queryText : jsstring) (nResults : Z),
    let st1 := (initializeVectorStore st).2 in
    ∃ r, queryRules queryText nResults st1 = (Ok r, st1) ∧
         ∀ (k : nat) (ruleId : string),
           ids r !! k = Some ruleId →
           ∃ doc, getRuleById ruleId st1 = (Ok (Some doc), st1) ∧
                  id doc = ruleId ∧
                  documents r !! k = Some (content doc) ∧
                  metadatas r !! k = Some (metadata doc).
Proof.
  intros st queryText nResults st1.
  exists (query GSA_RULES queryText nResults).1. split; [done|].
  intros k ruleId Hk.
  destruct (query_documents GSA_RULES queryText nResults)
    as (top & Hin & Hids & Hdocs & Hmetas & _).
  rewrite Hids in Hk. rewrite Hdocs, Hmetas.
  rewrite !list_lookup_fmap in Hk.
  destruct (top !! k) as [item|] eqn:Hitem; [|done].
  simpl in Hk. injection Hk as <-.
  exists item.1. rewrite !list_lookup_fmap, Hitem. split; [|done].
  assert (Hc : collection st1 = Some GSA_RULES) by done.
  unfold getRuleById. rewrite Hc.
  rewrite (find_by_id GSA_RULES item.1 GSA_RULES_ids_NoDup); [done|].
  apply Hin. apply list_elem_of_lookup. by exists k.
Qed.

Lemma lower_char_space (c : ascii) : is_space c = true → lower_char c = c.
Proof. destruct c as [[] [] [] [] [] [] [] []]; by vm_compute. Qed.

Lemma toLowerCase_blank (q : jsstring) :
  Forall (λ c, is_space c = true) q → toLowerCase q = q.
Proof.
  induction 1 as [|c q Hc _ IH]; [done|].
  unfold toLowerCase in *. simpl. by rewrite lower_char_space, IH.
Qed.

(** A string of white space splits into one or two empty words. *)
Lemma splitLoop_blank (q : jsstring) :
  Forall (λ c, is_space c = true) q →
  splitLoop q [] true = [[]] ∧
  (splitLoop q [] false = [[]] ∨ splitLoop q [] false = [[]; []]).
Proof.
  induction 1 as [|c q Hc _ [IH1 IH2]]; [by split; [|left]|].
  simpl. rewrite Hc, IH1. by split; [|right].
Qed.

Lemma includes_empty (s : jsstring) : includes s [] = true.
Proof. by destruct s. Qed.

Lemma score_blank (doc : VectorDocument) (q : jsstring) :
  Forall (λ c, is_space c = true) q →
  ∃ score, (0 < score)%Z ∧ ∀ d, scoreDocument q d = (d, score).
Proof.
  intros Hq. unfold scoreDocument, splitWhitespace.
  destruct (splitLoop_blank q Hq) as [_ [->| ->]].
  - exists 5%Z. split; [lia|]. intros d. simpl. unfold scoreWord.
    by rewrite !includes_empty.
  - exists 10%Z. split; [lia|]. intros d. simpl. unfold scoreWord.
    by rewrite !includes_empty.
Qed.

(** The stable sort leaves a list of equal scores as it is. *)
Lemma sortBy_equal_scores {A : Type} (l : list (A * Z)) (score : Z) :
  Forall (λ item, item.2 = score) l →
  sortBy (λ a b, (b.2 - a.2)%Z) l = l.
Proof.
  induction 1 as [|x l Hx Hl IH]; [done|].
  simpl. rewrite IH. destruct Hl as [|y l Hy _]; [done|].
  simpl. rewrite Hx, Hy, Z.sub_diag. done.
Qed.

Lemma filter_all_positive {A : Type} (l : list (A * Z)) :
  Forall (λ item, (0 < item.2)%Z) l → filter (λ item, (0 < item.2)%Z) l = l.
Proof.
  induction 1 as [|x l Hx _ IH]; [done|].
  by rewrite filter_cons_True, IH.
Qed.

(** X12.  A query of white space only (the empty query included) scores
    every document alike, so the result is the first [nResults] documents of
    the store in the order of the store. *)
Theorem blank_query_returns_first_rules :
  ∀ (store : list VectorDocument) (queryText : jsstring) (nResults : Z),
    Forall (λ c, is_space c = true) queryText →
    (0 ≤ nResults)%Z →
    ids (query store queryText nResults).1 = map id (take (Z.to_nat nResults) store).
Proof.
  intros store queryText nResults Hq Hn.
  unfold query. cbn [fst ids]. rewrite (toLowerCase_blank _ Hq).
  destruct store as [|doc0 store0] eqn:Hstore.
  { unfold slice0. destruct (nResults <? 0)%Z; simpl; by rewrite !take_nil. }
  rewrite <- Hstore. clear Hstore.
  destruct (score_blank doc0 queryText Hq) as (score & Hpos & Hscore).
  assert (Hall : Forall (λ item : VectorDocument * Z, item.2 = score)
                   (map (scoreDocument queryText) store)).
  { apply Forall_forall. intros item (d & -> & _)%list_elem_of_fmap.
    by rewrite Hscore. }
  rewrite filter_all_positive.
  - rewrite (sortBy_equal_scores _ score Hall), slice0_nonneg by done.
    rewrite <- !fmap_take. clear Hall. generalize (take (Z.to_nat nResults) store).
    intros l. induction l as [|d l IH]; [done|].
    cbn [map fmap list_fmap]. rewrite Hscore. cbn [fst]. by f_equal.
  - eapply Forall_impl; [exact Hall|]. simpl. intros item ->. lia.
Qed.

Lemma blank_query_returns_first_rules_witness :
  Forall (λ c, is_space c = true) (str "  ") ∧
  ids (query GSA_RULES (str "  ") 2).1 = map id (take 2 GSA_RULES).
Proof.
  assert (H : Forall (λ c, is_space c = true) (str "  "))
    by (repeat constructor).
  split; [exact H|].
  exact (blank_query_returns_first_rules GSA_RULES (str "  ") 2 H ltac:(lia)).
Defined.

Lemma slice0_is_take {A : Type} (l : list A) (n : Z) :
  ∃ k, slice0 l n = take k l.
Proof. unfold slice0. destruct (n <? 0)%Z; eauto. Qed.

Lemma StronglySorted_take {A : Type} (R : relation A) (k : nat) (l : list A) :
  StronglySorted R l → StronglySorted R (take k l).
Proof.
  intros H. rewrite <- (take_drop k l) in H.
  by apply StronglySorted_app_1_l in H.
Qed.

Lemma StronglySorted_map {A B : Type} (R : relation A) (R' : relation B)
    (f : A → B) (l : list A) :
  (∀ a b, R a b → R' (f a) (f b)) →
  StronglySorted R l → StronglySorted R' (map f l).
Proof.
  intros Hf. induction 1 as [|x l _ IH Hx]; simpl; constructor; [done|].
  apply Forall_forall. intros y (z & -> & Hz)%list_elem_of_fmap.
  apply Hf. by eapply Forall_forall in Hx.
Qed.

Lemma distance_antitone (s1 s2 : Z) :
  (s2 ≤ s1)%Z → (distance s1 <= distance s2)%Q.
Proof. intros H. unfold distance, Qle. simpl. lia. Qed.

Lemma distance_below_one (s : Z) : (0 < s)%Z → (distance s < 1)%Q.
Proof. intros H. unfold distance, Qlt. simpl. lia. Qed.

(** X13.  The distances of a query result go up along the result, the best
    match first, and each of them is below 1: a document that holds no word
    of the query is never returned. *)
Theorem query_distances_ascending :
  ∀ (store : list VectorDocument) (queryText : jsstring) (nResults : Z),
    StronglySorted Qle (distances (query store queryText nResults).1) ∧
    Forall (λ d, (d < 1)%Q) (distances (query store queryText nResults).1).
Proof.
  intros store queryText nResults. unfold query. cbn [fst distances].
  set (kept := filter (λ item : VectorDocument * Z, (0 < item.2)%Z)
                 (map (scoreDocument (toLowerCase queryText)) store)).
  destruct (slice0_is_take (sortBy (λ a b, (b.2 - a.2)%Z) kept) nResults)
    as [k ->].
  split.
  - apply (StronglySorted_map (λ a b : VectorDocument * Z, (b.2 ≤ a.2)%Z)).
    { intros a b. apply distance_antitone. }
    apply StronglySorted_take.
    eapply StronglySorted_weaken;
      [|apply (sortBy_sorted (λ a : VectorDocument * Z, (- a.2)%Z))].
    + simpl. intros a b. lia.
    + intros a b. lia.
  - apply Forall_forall. intros d (item & -> & Hitem)%list_elem_of_fmap.
    apply distance_below_one.
    apply subseteq_take, sortBy_elem_of in Hitem.
    by apply list_elem_of_filter in Hitem as [? _].
Qed.

End RuleStoreFacts.

(** ** The ingest route *)

Module IngestFacts.
Import DocumentParser ErrorHandler Ingest IngestInputs.

Lemma parseDocument_throws_400 (env : Parsers) (b : Buffer) (mimeType : string) (e : Error) :
  parseDocument env b mimeType = Throw e → statusCode e = Some 400%Z.
Proof.
  unfold parseDocument, parsePDF, parseDOCX, parseTXT.
  repeat case_match; intros [= <-]; done.
Qed.

Lemma validateDocumentSize_accepts (n : Z) :
  (n ≤ 10 * 1024 * 1024)%Z → validateDocumentSize n 10 = Ok tt.
Proof.
  intros H. unfold validateDocumentSize.
  destruct (Z.ltb_spec (10 * 1024 * 1024) n); [lia|done].
Qed.

(** [redactPII] returns for every text; it finds something exactly when
    [containsPII], called with fresh patterns, does. *)
Lemma redactPII_returns (hashValue : jsstring → jsstring) (text : jsstring) :
  ∃ r, redactPII hashValue text = Some r ∧
       ((containsPII initialPatterns text).1 = true → matches r ≠ []) ∧
       ((containsPII initialPatterns text).1 = false →
        r = {| redactedText := text; matches := []; redactionCount := 0 |}).
Proof.
  destruct (RedactionToolsFacts.matchGlobal_PII email text) as (les & Hes & _ & _).
  destruct (RedactionToolsFacts.matchGlobal_PII phone text) as (lps & Hps & _ & _).
  destruct (RedactionToolsFacts.matchGlobal_PII ssn text) as (lss & Hss & _ & _).
  destruct (RedactionToolsFacts.redactPII_shape hashValue text _ _ _ Hes Hps Hss)
    as (r & a1 & a2 & Hr & Hperm & _).
  exists r. split; [done|]. split.
  - intros Htrue Hnil.
    destruct (containsPII initialPatterns text) as [b st'] eqn:E.
    simpl in Htrue. subst b.
    destruct (RedactionToolsFacts.containsPII_true_has_match _ _ _ E)
      as (_ & t & m & l & Hl).
    rewrite Hnil in Hperm. symmetry in Hperm. apply Permutation_nil_r in Hperm.
    apply (f_equal length) in Hperm. rewrite !length_app, !length_map in Hperm.
    destruct t; [rewrite Hes in Hl|rewrite Hps in Hl|rewrite Hss in Hl];
      injection Hl as ->; simpl in Hperm; lia.
  - intros Hfalse.
    pose proof (RedactionToolsFacts.containsPII_fresh_false _ Hfalse) as Hnone.
    revert Hr. unfold redactPII, PII_TYPES. cbn [redactTypes].
    rewrite !redactType_none by apply Hnone. by intros [= <-].
Qed.

Lemma bulkCreate_foreign_key (docId : string) (ms : list RedactionMatch) (db : Db) :
  ms ≠ [] → docId ∉ map id (documents db) →
  bulkCreate (map (toRow docId) ms) db =
    (Throw (SqliteError "FOREIGN KEY constraint failed"), db).
Proof.
  intros Hms Hid. destruct ms as [|m ms]; [done|].
  unfold bulkCreate. cbn [map insertRedactions toRow document_id].
  by rewrite bool_decide_eq_false_2.
Qed.

Lemma insertRedactions_documents (items : list RedactionRow) (db : Db) :
  documents (insertRedactions items db).2 = documents db.
Proof.
  revert db. induction items as [|r items IH]; intros db; [done|].
  simpl. case_bool_decide; [|done]. by rewrite IH.
Qed.

Lemma bulkCreate_documents (items : list RedactionRow) (db : Db) :
  documents (bulkCreate items db).2 = documents db.
Proof.
  unfold bulkCreate. pose proof (insertRedactions_documents items db) as H.
  by destruct (insertRedactions items db) as [[[]|e] db'].
Qed.

(** The run of the handler on a file that passes the checks and is parsed:
    the document row is stored, then the redaction rows if there are any. *)
Lemma ingest_after_parse (env : Env) (u : Uuids) (f : File)
    (bodyMetadata : option jsstring) (db : Db) (parsed : ParsedDocument)
    (r : RedactionResult) :
  (size f ≤ 10 * 1024 * 1024)%Z →
  parseDocument (parsers env) (buffer f) (mimetype f) = Ok parsed →
  redactPII (sha256 env) (text parsed) = Some r →
  rowId u ∉ map id (documents db) →
  ingest env u (Some f) bodyMetadata db =
    let row := {| id := rowId u; request_id := requestId u;
                  filename := sanitizeFilename (originalname f);
                  file_type := mimetype f; file_size := size f;
                  original_hash := sha256 env (text parsed);
                  redacted_content := redactedText r;
                  metadata := metadataOf env bodyMetadata parsed |} in
    let db1 := {| documents := documents db ++ [row]; redactions := redactions db |} in
    match (if (0 <? length (matches r))%nat
           then bulkCreate (map (toRow (documentId u)) (matches r)) db1
           else (Ok tt, db1)) with
    | (Ok _, db2) =>
        Some (RespondIngested
                (summarize env u f (sanitizeFilename (originalname f)) parsed r), db2)
    | (Throw e, db2) => Some (NextError e, db2)
    end.
Proof.
  intros Hsize Hparse Hr Hfresh.
  unfold ingest, ingestBody.
  rewrite (validateDocumentSize_accepts _ Hsize), Hparse, Hr.
  unfold create. rewrite bool_decide_eq_false_2 by done.
  cbn zeta.
  by destruct (if (0 <? length (matches r))%nat then _ else _) as [[[]|e] db2].
Qed.

(** A file that the middleware hands to the handler has an allowed type
    and at most 10 MB; for such a file the route is the handler. *)
Lemma uploadSingle_received (sent : option File) (f : File) :
  uploadSingle sent = Ok (Some f) ↔
  sent = Some f ∧ validateFileType (mimetype f) = Ok tt ∧ (size f ≤ 10 * 1024 * 1024)%Z.
Proof.
  unfold uploadSingle. destruct sent as [g|]; [|split; [done|by intros [? _]]].
  destruct (validateFileType (mimetype g)) as [[]|e] eqn:Ht.
  - destruct (Z.ltb_spec (10 * 1024 * 1024) (size g)).
    + split; [done|]. intros ([= ->] & _ & ?). lia.
    + split; [by intros [= ->]|by intros ([= ->] & _)].
  - split; [done|]. intros ([= ->] & Ht' & _). by rewrite Ht in Ht'.
Qed.

(** X14.  The ingest route answers without storing anything in four cases.
    A request without a file gets the status 400 from the handler; a file
    whose type is not allowed gets the 400 of the file filter; a file of an
    allowed type that the parser rejects gets the 400 of the parser.  A file
    of an allowed type above 10 MB is stopped by the upload middleware,
    whose error is no [AppError]: the answer is the status 500 with the
    message of unexpected errors, and the size check of the handler is never
    reached. *)
Theorem ingest_rejects_without_storing :
  ∀ (env : Env) (u : Uuids) (sent : option File) (bodyMetadata : option jsstring)
    (db : Db),
    (sent = None →
     ingestRoute env u sent bodyMetadata db =
       Some (NextError (AppError400 "No document provided"), db)) ∧
    (∀ f, sent = Some f → mimetype f ∉ allowedTypes →
       ingestRoute env u sent bodyMetadata db =
         Some (NextError (AppError400 ("File type not supported: " +:+ mimetype f)), db)) ∧
    (∀ f, sent = Some f → mimetype f ∈ allowedTypes →
       (10 * 1024 * 1024 < size f)%Z →
       ∃ e, ingestRoute env u sent bodyMetadata db = Some (NextError e, db) ∧
            statusOf (NextError e) = 500%Z ∧
            body_message (errorHandler e) = "An unexpected error occurred") ∧
    (∀ f e, sent = Some f → mimetype f ∈ allowedTypes →
       (size f ≤ 10 * 1024 * 1024)%Z →
       parseDocument (parsers env) (buffer f) (mimetype f) = Throw e →
       ingestRoute env u sent bodyMetadata db = Some (NextError e, db) ∧
       statusOf (NextError e) = 400%Z ∧
       body_message (errorHandler e) = message e).
Proof.
  intros env u sent bodyMetadata db.
  split; [by intros ->|]. split; [|split].
  - intros f -> Hty. unfold ingestRoute, uploadSingle, validateFileType.
    by rewrite bool_decide_eq_false_2.
  - intros f -> Hty Hbig. unfold ingestRoute, uploadSingle, validateFileType.
    rewrite bool_decide_eq_true_2 by done.
    rewrite (proj2 (Z.ltb_lt _ _) Hbig). by eexists.
  - intros f e -> Hty Hsize Hparse. split; [|split].
    + unfold ingestRoute, uploadSingle, validateFileType.
      rewrite bool_decide_eq_true_2 by done.
      destruct (Z.ltb_spec (10 * 1024 * 1024) (size f)); [lia|].
      unfold ingest, ingestBody.
      by rewrite (validateDocumentSize_accepts _ Hsize), Hparse.
    + unfold statusOf, errorHandler.
      by rewrite (parseDocument_throws_400 _ _ _ _ Hparse).
    + unfold errorHandler.
      by rewrite (parseDocument_throws_400 _ _ _ _ Hparse).
Qed.

(** The request of the repository's test 'should reject oversized files'. *)
Lemma ingest_rejects_without_storing_witness :
  ∃ e, ingestRoute host run1 (Some largeFile) None emptyDb = Some (NextError e, emptyDb) ∧
       statusOf (NextError e) = 500%Z ∧
       body_message (errorHandler e) = "An unexpected error occurred".
Proof.
  destruct (ingest_rejects_without_storing host run1 (Some largeFile) None emptyDb)
    as (_ & _ & Hbig & _).
  apply (Hbig largeFile eq_refl).
  - unfold largeFile, allowedTypes. cbn [mimetype]. set_solver.
  - unfold largeFile. cbn [size]. reflexivity.
Defined.

(** The document row is stored whatever the redaction rows do. *)
Lemma ingest_stores_row (env : Env) (u : Uuids) (f : File)
    (bodyMetadata : option jsstring) (db : Db) (parsed : ParsedDocument) :
  (size f ≤ 10 * 1024 * 1024)%Z →
  parseDocument (parsers env) (buffer f) (mimetype f) = Ok parsed →
  rowId u ∉ map id (documents db) →
  ∃ r response db',
    redactPII (sha256 env) (text parsed) = Some r ∧
    ingest env u (Some f) bodyMetadata db = Some (response, db') ∧
    documents db' =
      documents db ++
      [ {| id := rowId u; request_id := requestId u;
           filename := sanitizeFilename (originalname f);
           file_type := mimetype f; file_size := size f;
           original_hash := sha256 env (text parsed);
           redacted_content := redactedText r;
           metadata := metadataOf env bodyMetadata parsed |} ].
Proof.
  intros Hsize Hparse Hfresh.
  destruct (redactPII_returns (sha256 env) (text parsed)) as (r & Hr & _ & _).
  exists r. rewrite (ingest_after_parse _ _ _ _ _ _ _ Hsize Hparse Hr Hfresh).
  cbn zeta.
  set (row := {| id := rowId u; request_id := requestId u;
                 redacted_content := redactedText r |}).
  set (db1 := {| documents := documents db ++ [row]; redactions := redactions db |}).
  assert (Hdocs : ∀ res : outcome unit * Db, documents res.2 = documents db1 →
            ∃ response db',
              match res with
              | (Ok _, db2) =>
                  Some (RespondIngested
                          (summarize env u f (sanitizeFilename (originalname f)) parsed r),
                        db2)
              | (Throw e, db2) => Some (NextError e, db2)
              end = Some (response, db') ∧ documents db' = documents db ++ [row]).
  { intros [[[]|e] db2] Hd; eexists; eexists; (split; [reflexivity|exact Hd]). }
  destruct (Hdocs (if (0 <? length (matches r))%nat
                   then bulkCreate (map (toRow (documentId u)) (matches r)) db1
                   else (Ok tt, db1))) as (response & db' & Hrun & Hd).
  { destruct (0 <? length (matches r))%nat; [apply bulkCreate_documents|done]. }
  by exists response, db'.
Qed.

(** X15.  When the file passes the checks and is parsed, the run stores one
    document row, whatever happens afterwards.  The row holds the text that
    [redactPII] returns, the hash of the text as parsed, and a file name
    without path separator, NUL or [..]. *)
Theorem ingest_stores_redacted_document :
  ∀ (env : Env) (u : Uuids) (f : File) (bodyMetadata : option jsstring) (db : Db)
    (parsed : ParsedDocument),
    (size f ≤ 10 * 1024 * 1024)%Z →
    parseDocument (parsers env) (buffer f) (mimetype f) = Ok parsed →
    rowId u ∉ map id (documents db) →
    ∃ r response db' row,
      redactPII (sha256 env) (text parsed) = Some r ∧
      ingest env u (Some f) bodyMetadata db = Some (response, db') ∧
      documents db' = documents db ++ [row] ∧
      id row = rowId u ∧ request_id row = requestId u ∧
      redacted_content row = redactedText r ∧
      original_hash row = sha256 env (text parsed) ∧
      ("/"%char ∉ filename row) ∧ ("\"%char ∉ filename row) ∧
      (Ascii.zero ∉ filename row) ∧ includes (filename row) (str "..") = false.
Proof.
  intros env u f bodyMetadata db parsed Hsize Hparse Hfresh.
  destruct (ingest_stores_row env u f bodyMetadata db parsed Hsize Hparse Hfresh)
    as (r & response & db' & Hr & Hrun & Hd).
  exists r, response, db'. eexists. split; [done|]. split; [exact Hrun|].
  split; [exact Hd|]. repeat split; cbn [filename].
  - intros Hin%DocumentParserFacts.sanitizeFilename_elem_of.
    by destruct Hin as (_ & Hsep & _).
  - intros Hin%DocumentParserFacts.sanitizeFilename_elem_of.
    by destruct Hin as (_ & Hsep & _).
  - intros Hin%DocumentParserFacts.sanitizeFilename_elem_of.
    by destruct Hin as (_ & _ & Hnul).
  - apply DocumentParserFacts.sanitizeFilename_no_dotdot.
Qed.

Lemma ingest_stores_redacted_document_witness :
  ∃ r response db' row,
    redactPII (sha256 host) (str "Contact john@example.com") = Some r ∧
    ingest host run1
      (Some (textFile (str "../../etc/passwd") (str "Contact john@example.com")))
      None emptyDb = Some (response, db') ∧
    documents db' = documents emptyDb ++ [row] ∧
    id row = rowId run1 ∧ request_id row = requestId run1 ∧
    redacted_content row = redactedText r ∧
    original_hash row = sha256 host (str "Contact john@example.com") ∧
    ("/"%char ∉ filename row) ∧ ("\"%char ∉ filename row) ∧
    (Ascii.zero ∉ filename row) ∧ includes (filename row) (str "..") = false.
Proof.
  apply (ingest_stores_redacted_document host run1
           (textFile (str "../../etc/passwd") (str "Contact john@example.com"))
           None emptyDb
           {| text := str "Contact john@example.com"; pageCount := None;
              DocumentParser.metadata :=
                Some (AiService.JObj {[ "encoding" := AiService.JStr (str "utf-8") ]}) |}).
  - vm_compute. discriminate.
  - reflexivity.
  - cbn. apply not_elem_of_nil.
Defined.

Lemma ids_after_create (db : Db) (row : DocumentRow) (docId : string) :
  docId ∉ map id (documents db) → docId ≠ id row →
  docId ∉ map id (documents db ++ [row]).
Proof.
  intros Hdb Hrow. rewrite map_app. cbn [map].
  rewrite elem_of_app, list_elem_of_singleton. tauto.
Qed.

(** X16.  When the text of the file holds PII, the run ends in an error: the
    redaction rows carry the [documentId] drawn in the handler, the document
    row has the id drawn in [DocumentRepository.create], and the foreign key
    of [redactions] refuses the first of them.  The document row stays in
    the table, no redaction row is stored, and the answer is the status 500
    with the message of unexpected errors. *)
Theorem ingest_with_pii_fails_on_foreign_key :
  ∀ (env : Env) (u : Uuids) (f : File) (bodyMetadata : option jsstring) (db : Db)
    (parsed : ParsedDocument),
    (size f ≤ 10 * 1024 * 1024)%Z →
    parseDocument (parsers env) (buffer f) (mimetype f) = Ok parsed →
    rowId u ∉ map id (documents db) →
    documentId u ∉ map id (documents db) →
    documentId u ≠ rowId u →
    (containsPII initialPatterns (text parsed)).1 = true →
    ∃ e row,
      ingest env u (Some f) bodyMetadata db =
        Some (NextError e,
              {| documents := documents db ++ [row]; redactions := redactions db |}) ∧
      id row = rowId u ∧ request_id row = requestId u ∧
      statusOf (NextError e) = 500%Z ∧
      body_message (errorHandler e) = "An unexpected error occurred".
Proof.
  intros env u f bodyMetadata db parsed Hsize Hparse Hfresh Hdoc Hne Hpii.
  destruct (redactPII_returns (sha256 env) (text parsed)) as (r & Hr & Hsome & _).
  specialize (Hsome Hpii).
  rewrite (ingest_after_parse _ _ _ _ _ _ _ Hsize Hparse Hr Hfresh).
  cbn zeta.
  assert (Hlen : (0 <? length (matches r))%nat = true).
  { apply Nat.ltb_lt. destruct (matches r); [done|simpl; lia]. }
  rewrite Hlen, bulkCreate_foreign_key; [|done|].
  - eexists. eexists. split; [reflexivity|]. done.
  - cbn [documents]. by apply ids_after_create.
Qed.

Lemma ingest_with_pii_fails_on_foreign_key_witness :
  ∃ e row,
    ingest host run1
      (Some (textFile (str "profile.txt") (str "Contact john@example.com")))
      None emptyDb =
      Some (NextError e,
            {| documents := documents emptyDb ++ [row];
               redactions := redactions emptyDb |}) ∧
    id row = rowId run1 ∧ request_id row = requestId run1 ∧
    statusOf (NextError e) = 500%Z ∧
    body_message (errorHandler e) = "An unexpected error occurred".
Proof.
  apply (ingest_with_pii_fails_on_foreign_key host run1
           (textFile (str "profile.txt") (str "Contact john@example.com"))
           None emptyDb
           {| text := str "Contact john@example.com"; pageCount := None;
              DocumentParser.metadata :=
                Some (AiService.JObj {[ "encoding" := AiService.JStr (str "utf-8") ]}) |}).
  - vm_compute. discriminate.
  - reflexivity.
  - cbn. apply not_elem_of_nil.
  - cbn. apply not_elem_of_nil.
  - discriminate.
  - vm_compute. reflexivity.
Defined.

(** X17.  A run that answers with the summary has redacted nothing: the
    count of the summary is 0, no redaction row is stored, and the stored
    text is the text as parsed, in which [containsPII] finds nothing.  The
    [documentId] of the summary is the id of no row of [documents]. *)
Theorem ingest_success_means_nothing_redacted :
  ∀ (env : Env) (u : Uuids) (file : option File) (bodyMetadata : option jsstring)
    (db db' : Db) (data : Summary),
    ingest env u file bodyMetadata db = Some (RespondIngested data, db') →
    documentId u ∉ map id (documents db) →
    documentId u ≠ rowId u →
    s_redactionCount data = 0%Z ∧
    redactions db' = redactions db ∧
    (s_documentId data ∉ map id (documents db')) ∧
    ∃ f parsed row,
      file = Some f ∧
      parseDocument (parsers env) (buffer f) (mimetype f) = Ok parsed ∧
      (containsPII initialPatterns (text parsed)).1 = false ∧
      documents db' = documents db ++ [row] ∧
      request_id row = s_requestId data ∧
      redacted_content row = text parsed.
Proof.
  intros env u file bodyMetadata db db' data Hrun Hdoc Hne.
  destruct file as [f|]; [|done].
  destruct (Z.ltb_spec (10 * 1024 * 1024) (size f)) as [Hbig|Hsize].
  { unfold ingest, ingestBody, validateDocumentSize in Hrun.
    by rewrite (proj2 (Z.ltb_lt _ _) Hbig) in Hrun. }
  destruct (parseDocument (parsers env) (buffer f) (mimetype f)) as [parsed|e] eqn:Hparse.
  2:{ unfold ingest, ingestBody in Hrun.
      by rewrite (validateDocumentSize_accepts _ Hsize), Hparse in Hrun. }
  destruct (redactPII_returns (sha256 env) (text parsed)) as (r & Hr & Hsome & Hclean).
  destruct (decide (rowId u ∈ map id (documents db))) as [Hold|Hfresh].
  { unfold ingest, ingestBody, create in Hrun.
    by rewrite (validateDocumentSize_accepts _ Hsize), Hparse, Hr,
         bool_decide_eq_true_2 in Hrun. }
  rewrite (ingest_after_parse _ _ _ _ _ _ _ Hsize Hparse Hr Hfresh) in Hrun.
  cbn zeta in Hrun.
  destruct (containsPII initialPatterns (text parsed)).1 eqn:Hpii.
  { specialize (Hsome eq_refl).
    assert (Hlen : (0 <? length (matches r))%nat = true).
    { apply Nat.ltb_lt. destruct (matches r); [done|simpl; lia]. }
    rewrite Hlen, bulkCreate_foreign_key in Hrun; [done|done|].
    cbn [documents]. by apply ids_after_create. }
  specialize (Hclean eq_refl). subst r.
  cbn [matches length Nat.ltb Nat.leb redactedText] in Hrun.
  injection Hrun as <- <-.
  split; [done|]. split; [done|]. split.
  - cbn [s_documentId summarize documents]. by apply ids_after_create.
  - eexists f, parsed, _. split; [done|]. split; [done|]. split; [done|].
    split; [reflexivity|]. done.
Qed.

Lemma ingest_success_means_nothing_redacted_witness :
  ∃ data db',
    ingest host run1 (Some (textFile (str "notes.txt") (str "This is clean text")))
      None emptyDb = Some (RespondIngested data, db') ∧
    s_redactionCount data = 0%Z ∧
    redactions db' = redactions emptyDb ∧
    (s_documentId data ∉ map id (documents db')).
Proof.
  destruct (ingest host run1 (Some (textFile (str "notes.txt") (str "This is clean text")))
              None emptyDb) as [[[data|e] db']|] eqn:Hrun;
    [|by vm_compute in Hrun..].
  exists data, db'. split; [reflexivity|].
  destruct (ingest_success_means_nothing_redacted _ _ _ _ _ _ _ Hrun)
    as (Hcount & Hred & Hid & _).
  - cbn. apply not_elem_of_nil.
  - discriminate.
  - done.
Defined.

End IngestFacts.

(** ** The evaluator and the extractor *)

Module AiServiceFacts.

(** What each block of [generateChecklist] cites. *)
Lemma checkUEI_cites (fields : gmap string json) (documentType : string) :
  map ruleId (checkUEI fields documentType) =
    if bool_decide (documentType = "company_profile") then ["R1"] else [].
Proof. unfold checkUEI. by repeat case_match. Qed.

Lemma checkNAICS_cites (fields : gmap string json) (documentType : string) :
  map ruleId (checkNAICS fields documentType) = [] ∨
  documentType = "company_profile" ∧
  map ruleId (checkNAICS fields documentType) = ["R2"].
Proof.
  unfold checkNAICS.
  destruct (bool_decide_reflect (documentType = "company_profile")); [|by left].
  cbn [andb]. repeat case_match; auto.
Qed.

Lemma checkContractValue_cites (fields : gmap string json) (documentType : string) :
  map ruleId (checkContractValue fields documentType) = [] ∨
  documentType = "past_performance" ∧
  map ruleId (checkContractValue fields documentType) = ["R3"].
Proof.
  unfold checkContractValue.
  destruct (bool_decide_reflect (documentType = "past_performance")); [|by left].
  cbn [andb]. repeat case_match; auto.
Qed.

Lemma checkLabor_cites (fields : gmap string json) (documentType : string) :
  map ruleId (checkLabor fields documentType) =
    if bool_decide (documentType = "pricing_sheet") then ["R4"] else [].
Proof. unfold checkLabor. by repeat case_match. Qed.

(** X18.  The rules a checklist cites are fixed by the document type: R1,
    with R2 after it or not, for a company profile; R3 or nothing for a past
    performance; R4 for a pricing sheet; and any other type gets the empty
    checklist, whatever the fields are. *)
Theorem generateChecklist_rules_by_type :
  ∀ (fields : gmap string json) (documentType : string) (rules : list RuleData),
    let cited := map ruleId (generateChecklist fields documentType rules) in
    (documentType = "company_profile" → cited = ["R1"] ∨ cited = ["R1"; "R2"]) ∧
    (documentType = "past_performance" → cited = [] ∨ cited = ["R3"]) ∧
    (documentType = "pricing_sheet" → cited = ["R4"]) ∧
    (documentType ∉ ["company_profile"; "past_performance"; "pricing_sheet"] →
     cited = []).
Proof.
  intros fields documentType rules cited. subst cited.
  unfold generateChecklist. rewrite !map_app, checkUEI_cites, checkLabor_cites.
  destruct (checkNAICS_cites fields documentType) as [->|[Hn ->]];
    destruct (checkContractValue_cites fields documentType) as [->|[Hc ->]];
    repeat split; intros H; subst; try discriminate;
    repeat case_bool_decide; subst; try discriminate; cbn [app]; auto;
    exfalso; set_solver.
Qed.

Lemma generateChecklist_rules_by_type_witness :
  map ruleId (generateChecklist fieldsWithoutNAICS "company_profile" []) = ["R1"] ∨
  map ruleId (generateChecklist fieldsWithoutNAICS "company_profile" []) = ["R1"; "R2"].
Proof.
  exact (proj1 (generateChecklist_rules_by_type fieldsWithoutNAICS "company_profile" [])
           eq_refl).
Defined.

(** *** The text of an integer and its value *)

Lemma pretty_N_char_digit (x : N) :
  (x < 10)%N →
  is_digit (pretty_N_char x) = true ∧ digitValue (pretty_N_char x) = Z.of_N x.
Proof.
  intros Hx. destruct x as [|p]; [by vm_compute|].
  do 4 (try destruct p as [p|p|]); try (by vm_compute); lia.
Qed.

Lemma foldl_digits (acc : Z) (ds : jsstring) :
  foldl (λ a c, (a * 10 + digitValue c)%Z) acc ds =
    (acc * 10 ^ Z.of_nat (length ds) + digitsValue ds)%Z.
Proof.
  unfold digitsValue. revert acc. induction ds as [|c ds IH]; intros acc.
  { simpl. lia. }
  cbn [foldl length]. rewrite IH, (IH (0 * 10 + digitValue c)%Z).
  rewrite Nat2Z.inj_succ, Z.pow_succ_r by lia. ring.
Qed.

Lemma pretty_N_go_digits (x : N) :
  ∀ s : string,
    Forall (λ c, is_digit c = true) (str s) →
    Forall (λ c, is_digit c = true) (str (pretty_N_go x s)) ∧
    digitsValue (str (pretty_N_go x s)) =
      (Z.of_N x * 10 ^ Z.of_nat (length (str s)) + digitsValue (str s))%Z.
Proof.
  induction (N.lt_wf_0 x) as [x _ IH]. intros s Hs.
  assert (x = 0 ∨ 0 < x)%N as [->|Hpos] by lia.
  { rewrite pretty_N_go_0. split; [done|]. lia. }
  rewrite pretty_N_go_step by done.
  destruct (pretty_N_char_digit (x `mod` 10)) as [Hd Hv].
  { by apply N.mod_lt. }
  destruct (IH (x `div` 10)%N) with (s := String (pretty_N_char (x `mod` 10)) s)
    as [Hall Hval].
  { by apply N.div_lt. }
  { cbn. by constructor. }
  split; [exact Hall|]. rewrite Hval.
  change (str (String (pretty_N_char (x `mod` 10)) s))
    with (pretty_N_char (x `mod` 10) :: str s).
  unfold digitsValue at 1. cbn [foldl length]. rewrite foldl_digits, Hv.
  rewrite Nat2Z.inj_succ, Z.pow_succ_r by lia.
  pose proof (N.div_mod x 10 ltac:(done)) as Hdm.
  assert (Z.of_N x = 10 * Z.of_N (x `div` 10) + Z.of_N (x `mod` 10))%Z as -> by lia.
  ring.
Qed.

(** The decimal text of a natural number: digits only, not empty, and its
    value is the number. *)
Lemma pretty_N_digits (n : N) :
  Forall (λ c, is_digit c = true) (str (pretty n)) ∧
  digitsValue (str (pretty n)) = Z.of_N n ∧
  str (pretty n) ≠ [].
Proof.
  unfold pretty, pretty_N. case_decide as Hn.
  { subst n. split; [by repeat constructor|]. by split. }
  destruct (pretty_N_go_digits n "") as [Hall Hval]; [done|].
  change (str "") with (@nil ascii) in Hval.
  unfold digitsValue at 2 in Hval. cbn [length foldl Z.of_nat] in Hval.
  rewrite Z.pow_0_r in Hval.
  split; [exact Hall|]. split; [lia|].
  intros Hnil. rewrite Hnil in Hval. unfold digitsValue in Hval. cbn [foldl] in Hval. lia.
Qed.

Lemma filter_digits_id (ds : jsstring) :
  Forall (λ c, is_digit c = true) ds →
  List.filter (λ c, is_digit c || is_char "." c) ds = ds.
Proof.
  induction 1 as [|c ds Hc _ IH]; [done|]. cbn [List.filter]. by rewrite Hc, IH.
Qed.

Lemma takeDigits_all (ds : jsstring) :
  Forall (λ c, is_digit c = true) ds → takeDigits ds = (ds, []).
Proof.
  induction 1 as [|c ds Hc _ IH]; [done|]. cbn [takeDigits]. by rewrite Hc, IH.
Qed.

(** What [String(z).replace(/[^0-9.]/g, '')] leaves of an integer: the
    digits of its absolute value. *)
Lemma stripped_integer (z : Z) :
  List.filter (λ c, is_digit c || is_char "." c) (str (pretty z)) =
    str (pretty (Z.abs_N z)).
Proof.
  destruct z as [|p|p].
  - done.
  - apply filter_digits_id, pretty_N_digits.
  - change (pretty (Z.neg p)) with ("-" +:+ pretty (N.pos p)).
    change (str ("-" +:+ pretty (N.pos p))) with ("-"%char :: str (pretty (N.pos p))).
    cbn [List.filter]. change (is_digit "-" || is_char "." "-") with false.
    cbn iota. apply filter_digits_id, pretty_N_digits.
Qed.

Lemma parseFloat_integer (n : N) :
  parseFloat (str (pretty n)) = Some (inject_Z (Z.of_N n)).
Proof.
  destruct (pretty_N_digits n) as (Hall & Hval & Hne).
  unfold parseFloat. rewrite (takeDigits_all _ Hall).
  destruct (str (pretty n)) as [|c ds] eqn:E; [done|].
  rewrite Hval. cbn [length Z.of_nat Z.pow Z.to_pos digitsValue foldl].
  unfold inject_Z. f_equal. f_equal. lia.
Qed.

(** X19.  For a past performance whose [contract_value] is an integer, the
    checklist is the one R3 item, and the sign of the value plays no part:
    the item is compliant exactly when the absolute value is at least
    25000. *)
Theorem contract_value_sign_is_dropped :
  ∀ (fields : gmap string json) (z : Z) (rules : list RuleData),
    fields !! "contract_value" = Some (JNum z) →
    (Z.abs z ≤ 2 ^ 53)%Z →
    ∃ it, generateChecklist fields "past_performance" rules = [it] ∧
          ruleId it = "R3" ∧
          (status it = compliant ↔ (25000 ≤ Z.abs z)%Z) ∧
          (status it = non_compliant ↔ (Z.abs z < 25000)%Z).
Proof.
  intros fields z rules Hz _.
  assert (HU : checkUEI fields "past_performance" = []) by reflexivity.
  assert (HN : checkNAICS fields "past_performance" = []) by reflexivity.
  assert (HL : checkLabor fields "past_performance" = []) by reflexivity.
  unfold generateChecklist. rewrite HU, HN, HL. cbn [app]. rewrite app_nil_r.
  unfold checkContractValue.
  rewrite Hz. cbn [toString_field toString].
  rewrite stripped_integer, parseFloat_integer.
  rewrite (bool_decide_eq_true_2 ("past_performance" = "past_performance")) by done.
  rewrite (bool_decide_eq_true_2 (is_Some (Some (JNum z)))) by (by eexists).
  cbn [andb].
  assert (Hq : atLeast25000 (Some (inject_Z (Z.of_N (Z.abs_N z)))) = true ↔
               (25000 ≤ Z.abs z)%Z).
  { unfold atLeast25000. rewrite Qle_bool_iff.
    unfold Qle, Qminus, Qplus, Qopp, inject_Z. cbn [Qnum Qden].
    change (2 ^ 39)%positive with 549755813888%positive. lia. }
  destruct (atLeast25000 _); eexists; (split; [reflexivity|]);
    (split; [reflexivity|]); cbn [status item].
  - split; split; try done.
    + intros _. by apply Hq.
    + intros H. destruct Hq as [Hq _]. specialize (Hq eq_refl). lia.
  - split; split; try done.
    + intros H. by apply Hq in H.
    + intros _. destruct (Z.le_gt_cases 25000 (Z.abs z)) as [Hle|Hlt]; [|done].
      by apply Hq in Hle.
Qed.

Lemma contract_value_sign_is_dropped_witness :
  ∃ it, generateChecklist {[ "contract_value" := JNum (-30000) ]} "past_performance" []
          = [it] ∧
        ruleId it = "R3" ∧
        (status it = compliant ↔ (25000 ≤ Z.abs (-30000))%Z) ∧
        (status it = non_compliant ↔ (Z.abs (-30000) < 25000)%Z).
Proof.
  apply (contract_value_sign_is_dropped {[ "contract_value" := JNum (-30000) ]}
           (-30000) []).
  - reflexivity.
  - vm_compute. discriminate.
Defined.

Lemma filter_length_bound {A : Type} (f : A → bool) (l : list A) :
  (length (List.filter f l) ≤ length l)%nat.
Proof. induction l as [|x l IH]; simpl; [lia|]. destruct (f x); simpl; lia. Qed.

Lemma filter_length_perm {A : Type} (f : A → bool) (l l' : list A) :
  l ≡ₚ l' → length (List.filter f l) = length (List.filter f l').
Proof.
  induction 1 as [|x l l' _ IH|x y l|l l' l'' _ IH1 _ IH2]; simpl.
  - done.
  - destruct (f x); simpl; lia.
  - destruct (f x), (f y); simpl; lia.
  - lia.
Qed.

(** The members of a map that pass a test are as many as the entries of its
    list that pass it. *)
Lemma size_filter_count (p : string * json → bool) (m : gmap string json) :
  size (filter (λ kv, p kv = true) m) = length (List.filter p (map_to_list m)).
Proof.
  induction m as [|k v m Hk _ IH] using map_first_key_ind.
  { by rewrite map_filter_empty, map_size_empty, map_to_list_empty. }
  rewrite (filter_length_perm p _ _ (map_to_list_insert m k v Hk)).
  cbn [List.filter]. destruct (p (k, v)) eqn:Hp.
  - rewrite map_filter_insert_True by done.
    rewrite map_size_insert_None by (by apply map_lookup_filter_None_2; left).
    cbn [length]. by rewrite IH.
  - rewrite map_filter_insert_False by (by rewrite Hp).
    by rewrite (delete_id m k Hk).
Qed.

Lemma isExtracted_iff (v : json) : isExtracted v = true ↔ v ≠ JNull ∧ v ≠ JStr [].
Proof.
  destruct v as [|b|z|s|l|m]; try (split; [done|by intros [? ?]]).
  destruct s as [|c s]; split; try done; by intros [? ?].
Qed.

(** X20.  For one of the three known document types and a reply that was
    parsed, [extractFields] hands the reply over as the fields, and
    [extractedCount] is the number of the members of the reply that are
    neither [null] nor the empty string: the size of the part of the reply
    that holds exactly these members.  The confidence is that count over the
    number of fields asked for.  It lies between 0 and 1 when the reply has
    no more members than were asked for; nothing in the code bounds it
    otherwise.  For any other type, and when the call fails, the result is
    the empty one. *)
Theorem extractFields_confidence_bounds :
  ∀ (documentType : string) (reply : option (gmap string json)),
    (∀ parsed n,
       fieldsToExtract documentType = Some n → reply = Some parsed →
       let r := extractFields documentType reply in
       fields r = parsed ∧
       (∃ kept : gmap string json,
          (∀ k v, kept !! k = Some v ↔
                  parsed !! k = Some v ∧ v ≠ JNull ∧ v ≠ JStr []) ∧
          extractedCount r = Z.of_nat (size kept)) ∧
       (0 ≤ extractedCount r ≤ Z.of_nat (size parsed))%Z ∧
       fe_confidence r = (inject_Z (extractedCount r) / inject_Z n)%Q ∧
       (0 <= fe_confidence r)%Q ∧
       ((Z.of_nat (size parsed) ≤ n)%Z → (fe_confidence r <= 1)%Q)) ∧
    (fieldsToExtract documentType = None ∨ reply = None →
     extractFields documentType reply = noFields).
Proof.
  intros documentType reply. split.
  - intros parsed n Hn -> r. subst r. unfold extractFields. rewrite Hn.
    cbn [fields extractedCount fe_confidence].
    pose proof (filter_length_bound (λ kv : string * json, isExtracted kv.2)
                  (map_to_list parsed)) as Hle.
    rewrite length_map_to_list in Hle.
    pose proof (size_filter_count (λ kv, isExtracted kv.2) parsed) as Hkept.
    set (count := length (List.filter _ _)) in *.
    assert (Hpos : (0 < n)%Z).
    { unfold fieldsToExtract in Hn. repeat case_bool_decide; simplify_eq; lia. }
    assert (Hnq : (0 < inject_Z n)%Q) by (unfold Qlt, inject_Z; simpl; lia).
    split; [done|]. split.
    { exists (filter (λ kv : string * json, isExtracted kv.2 = true) parsed).
      split; [|by rewrite Hkept].
      intros k v. rewrite map_lookup_filter_Some. cbn [snd].
      by rewrite isExtracted_iff. }
    split; [lia|]. split; [done|]. split.
    + apply Qle_shift_div_l; [done|]. unfold Qle, inject_Z. simpl. lia.
    + intros Hsize. apply Qle_shift_div_r; [done|].
      unfold Qle, inject_Z. simpl. lia.
  - intros [Hnone| ->]; unfold extractFields.
    + by rewrite Hnone.
    + by destruct (fieldsToExtract documentType).
Qed.

(** A reply with more members than were asked for gives a confidence above
    1: six members for the five fields of a company profile. *)
Lemma extractFields_confidence_above_one :
  let parsed : gmap string json :=
    <["UEI" := JStr (str "A1B2C3D4E5F6")]>
      (<["DUNS" := JStr (str "123456789")]>
         (<["company_name" := JStr (str "Test Company")]>
            (<["NAICS_codes" := JArr [JStr (str "541512")]]>
               (<["cage_code" := JStr (str "1A2B3")]>
                  (<["notes" := JStr (str "none")]> ∅))))) in
  fe_confidence (extractFields "company_profile" (Some parsed)) = (6 # 5)%Q.
Proof. vm_compute. reflexivity. Qed.

End AiServiceFacts.

(** ** The analysis route and the error handler *)

Module AnalyzeFacts.
Import ErrorHandler.

(** What the store is after a query: what it was. *)
Lemma query_store (store : list VectorDocument) (queryText : jsstring) (n : Z) :
  (query store queryText n).2 = store.
Proof. done. Qed.

(** X21.  The handler, from the lookup of the documents on, hands two kinds
    of error to [next].  The first is the [AppError] 404, exactly when no
    document has the request id; the state is then as it was.  Every other
    error is no [AppError], and [errorHandler] answers it with the status
    500 and its fixed message, not the message of the error. *)
Theorem analyze_errors_are_404_or_500 :
  ∀ (env : Env) (requestId : string) (st st' : State) (e : Error),
    analyze env requestId st = (Ok (NextError e), st') →
    (e = AppError 404 ("No documents found for request_id: " +:+ requestId) ∧
     (findByRequestId requestId st).1 = Ok [] ∧ st' = st ∧
     res_status (errorHandler e) = 404%Z ∧
     body_message (errorHandler e) = message e) ∨
    (statusCode e = None ∧
     (findByRequestId requestId st).1 ≠ Ok [] ∧
     res_status (errorHandler e) = 500%Z ∧
     body_message (errorHandler e) = "An unexpected error occurred").
Proof.
  intros env requestId st st' e.
  unfold analyze, tryCatch, analyzeBody, bind, findByRequestId, gets.
  cbn [fst snd].
  destruct (List.filter _ _) as [|document others].
  { cbn. intros [= <- <-]. left. done. }
  unfold create. cbn [ar_id].
  destruct (bool_decide (is_Some (analysisTable st !! uuidv4 env))).
  { intros [= <- <-]. right. done. }
  steps_of_run ltac:(first [by intros [=] | intros [= <- <-]; right; done]).
Qed.

Lemma analyze_errors_are_404_or_500_witness :
  ∃ e st',
    analyze (envWithUnprintableUEI confidentReply) "request-1" readyState
      = (Ok (NextError e), st') ∧
    statusCode e = None ∧ res_status (errorHandler e) = 500%Z ∧
    body_message (errorHandler e) = "An unexpected error occurred".
Proof.
  destruct (analyze (envWithUnprintableUEI confidentReply) "request-1" readyState)
    as [[[| |e]|e] st'] eqn:Hrun; try (by vm_compute in Hrun).
  exists e, st'. split; [reflexivity|].
  destruct (analyze_errors_are_404_or_500 _ _ _ _ _ Hrun)
    as [(_ & Hnone & _)|(He & _ & Hstatus & Hmsg)].
  - by vm_compute in Hnone.
  - done.
Defined.

(** X22.  A run of the handler touches one row of [analysis_results], the
    one under the id it has drawn: every other row, the table of documents
    and the rule store are after the run as they were before. *)
Theorem analyze_touches_only_its_row :
  ∀ (env : Env) (requestId : string) (st : State),
    let st' := (analyze env requestId st).2 in
    documentsTable st' = documentsTable st ∧
    collection st' = collection st ∧
    ∀ key, key ≠ uuidv4 env → analysisTable st' !! key = analysisTable st !! key.
Proof.
  intros env requestId st.
  unfold analyze, tryCatch, analyzeBody, bind, findByRequestId, gets.
  cbn [fst snd].
  destruct (List.filter _ _) as [|document others]; [done|].
  unfold create. cbn [ar_id].
  destruct (bool_decide (is_Some (analysisTable st !! uuidv4 env))); [done|].
  cbn [update modify ret throw liftOutcome].
  destruct (shouldAbstain _).
  { cbn. split; [done|]. split; [done|]. intros key Hne.
    by rewrite !lookup_alter_ne, lookup_insert_ne. }
  unfold queryRules. cbn [collection].
  destruct (collection st) as [store|] eqn:Hc.
  2:{ cbn. split; [done|]. split; [done|]. intros key Hne.
      by rewrite !lookup_alter_ne, lookup_insert_ne. }
  pose proof (query_store store) as Hstore.
  match goal with
  | |- context [query store ?q 5] =>
      specialize (Hstore q 5%Z); destruct (query store q 5) as [result store']
  end.
  cbn [snd] in Hstore. subst store'.
  unfold generateChecklistResult.
  destruct (checklistConverts _ _); [destruct (stringifies _)|];
    (cbn; split; [done|]; split; [done|]; intros key Hne;
     by rewrite ?lookup_alter_ne, ?lookup_insert_ne).
Qed.

(** X23.  When the handler answers with the full analysis, the row it
    leaves is [completed] and holds what the answer holds: the
    classification, the checklist, the citations, the brief and the email.
    There are at most five citations, the classifier has not abstained, and
    the checklist is the one the evaluator gives for the extracted fields
    alone. *)
Theorem analyze_row_matches_response :
  ∀ (env : Env) (requestId : string) (st st' : State) (analysisId rid : string)
    (c : ClassificationResult) (extracted : FieldExtractionResult)
    (citations : list string) (checklist : list ChecklistItem) (brief email : string),
    analyze env requestId st =
      (Ok (RespondAnalyzed analysisId rid c extracted citations checklist brief email),
       st') →
    analysisId = uuidv4 env ∧ rid = requestId ∧
    shouldAbstain c = false ∧
    (length citations ≤ 5)%nat ∧
    checklist = generateChecklist (fields extracted) (documentType c) [] ∧
    analysisTable st' !! analysisId =
      Some {| ar_id := analysisId; request_id := requestId;
              document_classification := Some (documentType c);
              classification_confidence := Some (confidence c);
              checklist_items := Some checklist;
              negotiation_brief := Some brief;
              client_email := Some email;
              rule_citations := Some citations;
              ar_status := completed;
              error_message := None |}.
Proof.
  intros env requestId st st' analysisId rid c extracted citations checklist brief email.
  unfold analyze, tryCatch, analyzeBody, bind, findByRequestId, gets.
  cbn [fst snd].
  destruct (List.filter _ _) as [|document others]; [by intros [=]|].
  unfold create. cbn [ar_id].
  destruct (bool_decide (is_Some (analysisTable st !! uuidv4 env))); [by intros [=]|].
  cbn [update modify ret throw liftOutcome].
  destruct (shouldAbstain _) eqn:Habstain; [by intros [=]|].
  unfold queryRules. cbn [collection].
  destruct (collection st) as [store|] eqn:Hc; [|by intros [=]].
  match goal with
  | |- context [query store ?q 5] =>
      pose proof (query_at_most_nResults store q 5 ltac:(lia)) as Hle;
      destruct (query store q 5) as [result store'] eqn:Hq
  end.
  cbn [fst] in Hle.
  unfold generateChecklistResult.
  destruct (checklistConverts _ _); [|by intros [=]].
  destruct (stringifies _); [|by intros [=]].
  cbn. intros [= <- <- <- <- <- <- <- <- <-].
  split; [done|]. split; [done|]. split; [done|]. split; [lia|].
  split; [done|].
  cbn [analysisTable]. rewrite !lookup_alter_eq, lookup_insert_eq. done.
Qed.

Lemma analyze_row_matches_response_witness :
  ∃ st' c extracted citations checklist,
    analyze (envWith confidentReply) "request-1" readyState =
      (Ok (RespondAnalyzed "analysis-1" "request-1" c extracted citations checklist
             "brief" "email"), st') ∧
    shouldAbstain c = false ∧ (length citations ≤ 5)%nat ∧
    checklist = generateChecklist (fields extracted) (documentType c) [].
Proof.
  destruct (analyze (envWith confidentReply) "request-1" readyState)
    as [[[|aid rid c ex cites cl b em|e]|e] st'] eqn:Hrun;
    try (by vm_compute in Hrun).
  assert (aid = "analysis-1" ∧ rid = "request-1" ∧ b = "brief" ∧ em = "email")
    as (-> & -> & -> & ->).
  { vm_compute in Hrun. by injection Hrun as <- <- _ _ _ _ <- <- _. }
  exists st', c, ex, cites, cl. split; [reflexivity|].
  destruct (analyze_row_matches_response _ _ _ _ _ _ _ _ _ _ _ _ Hrun)
    as (_ & _ & Habstain & Hlen & Hcl & _).
  split; [exact Habstain|]. split; [exact Hlen|exact Hcl].
Defined.

End AnalyzeFacts.

(** ** From the ingest route to the analysis route *)

Module PipelineFacts.
Import Pipeline.

Lemma filter_request_id_other (requestId : string) (rows : list Ingest.DocumentRow) :
  (∀ row, row ∈ rows → Ingest.request_id row ≠ requestId) →
  List.filter (λ d, bool_decide (doc_request_id d = requestId)) (map columnsRead rows) = [].
Proof.
  induction rows as [|row rows IH]; intros H; [done|].
  cbn [map List.filter columnsRead doc_request_id].
  rewrite bool_decide_eq_false_2 by (apply H; left).
  apply IH. intros row' Hin. apply H. by right.
Qed.

(** X24.  What the language model is given is the redacted text.  After a
    run of the ingest route that has parsed its file, a run of the analysis
    route on the request id of that run finds the document, and its
    classification and its extraction are the ones computed from the text
    that [redactPII] returned for the parsed text.  An error of that run is
    never the 404 of a missing document: it is no [AppError]. *)
Theorem analysis_reads_redacted_text :
  ∀ (ienv : Ingest.Env) (u : Ingest.Uuids) (f : Ingest.File)
    (bodyMetadata : option jsstring) (db : Ingest.Db)
    (parsed : DocumentParser.ParsedDocument)
    (env : Env) (table : gmap string AnalysisResult)
    (rules : option (list VectorDocument)),
    (Ingest.size f ≤ 10 * 1024 * 1024)%Z →
    DocumentParser.parseDocument (Ingest.parsers ienv) (Ingest.buffer f) (Ingest.mimetype f)
      = Ok parsed →
    Ingest.rowId u ∉ map Ingest.id (Ingest.documents db) →
    (∀ row, row ∈ Ingest.documents db → Ingest.request_id row ≠ Ingest.requestId u) →
    ∃ r response db',
      redactPII (Ingest.sha256 ienv) (DocumentParser.text parsed) = Some r ∧
      Ingest.ingest ienv u (Some f) bodyMetadata db = Some (response, db') ∧
      let classification :=
        classifyDocument (CONFIDENCE_THRESHOLD env) (classifierReply env (redactedText r)) in
      let extraction :=
        extractFields (documentType classification)
          (extractorReply env (redactedText r) (documentType classification)) in
      match (analyze env (Ingest.requestId u) (stateOver db' table rules)).1 with
      | Ok (RespondAbstained _ _ c) => c = classification
      | Ok (RespondAnalyzed _ _ c extracted _ _ _ _) =>
          c = classification ∧ extracted = extraction
      | Ok (NextError e) => statusCode e = None
      | Throw _ => False
      end.
Proof.
  intros ienv u f bodyMetadata db parsed env table rules Hsize Hparse Hfresh Hreq.
  destruct (IngestFacts.ingest_stores_row ienv u f bodyMetadata db parsed
              Hsize Hparse Hfresh) as (r & response & db' & Hr & Hrun & Hd).
  exists r, response, db'. split; [exact Hr|]. split; [exact Hrun|].
  intros classification extraction.
  unfold analyze, tryCatch, analyzeBody, bind, findByRequestId, gets, stateOver.
  cbn [fst snd documentsTable].
  rewrite Hd, map_app, List.filter_app, (filter_request_id_other _ _ Hreq).
  cbn [map List.filter columnsRead doc_request_id Ingest.request_id app].
  rewrite bool_decide_eq_true_2 by done.
  set (row := {| Ingest.id := Ingest.rowId u; Ingest.redacted_content := redactedText r |}).
  change (default [] (redacted_content (columnsRead row))) with (redactedText r).
  unfold create. cbn [ar_id analysisTable].
  destruct (bool_decide (is_Some (table !! uuidv4 env))); [done|].
  cbn [update modify ret throw liftOutcome].
  fold classification.
  destruct (shouldAbstain classification); [done|].
  fold extraction.
  unfold queryRules. cbn [collection].
  destruct rules as [store|]; [|done].
  destruct (query store _ 5) as [result store'].
  unfold generateChecklistResult.
  destruct (checklistConverts _ _); [|done].
  by destruct (stringifies _).
Qed.

Lemma analysis_reads_redacted_text_witness :
  ∃ r response db',
    redactPII (Ingest.sha256 IngestInputs.host) (str "Contact john@example.com") = Some r ∧
    Ingest.ingest IngestInputs.host IngestInputs.run1
      (Some (IngestInputs.textFile (str "profile.txt") (str "Contact john@example.com")))
      None IngestInputs.emptyDb = Some (response, db') ∧
    let env := envWith confidentReply in
    let classification :=
      classifyDocument (CONFIDENCE_THRESHOLD env) (classifierReply env (redactedText r)) in
    let extraction :=
      extractFields (documentType classification)
        (extractorReply env (redactedText r) (documentType classification)) in
    match (analyze env "request-1" (stateOver db' ∅ (Some GSA_RULES))).1 with
    | Ok (RespondAbstained _ _ c) => c = classification
    | Ok (RespondAnalyzed _ _ c extracted _ _ _ _) =>
        c = classification ∧ extracted = extraction
    | Ok (NextError e) => statusCode e = None
    | Throw _ => False
    end.
Proof.
  apply (analysis_reads_redacted_text IngestInputs.host IngestInputs.run1
           (IngestInputs.textFile (str "profile.txt") (str "Contact john@example.com"))
           None IngestInputs.emptyDb
           {| DocumentParser.text := str "Contact john@example.com";
              DocumentParser.pageCount := None;
              DocumentParser.metadata :=
                Some (JObj {[ "encoding" := JStr (str "utf-8") ]}) |}
           (envWith confidentReply) ∅ (Some GSA_RULES)).
  - vm_compute. discriminate.
  - reflexivity.
  - cbn. apply not_elem_of_nil.
  - intros row Hin. by apply elem_of_nil in Hin.
Defined.

End PipelineFacts.

(** ** What the patterns match *)

Module PatternFacts.
Import Language.

Lemma star_denotes (p : ascii → bool) (k : option ascii → jsstring → option jsstring) :
  ∀ rest prev out,
    star p prev rest k = Some out →
    ∃ pre prev' rest',
      rest = pre ++ rest' ∧ k prev' rest' = Some out ∧ Forall (λ c, p c = true) pre.
Proof.
  induction rest as [|c t IH]; intros prev out H; simpl in H.
  - by exists [], prev, [].
  - destruct (p c) eqn:Hp.
    + destruct (star p (Some c) t k) as [out'|] eqn:E.
      * injection H as <-.
        destruct (IH _ _ E) as (pre & prev' & rest' & -> & Hk & Hall).
        exists (c :: pre), prev', rest'. split; [done|]. split; [done|].
        by constructor.
      * by exists [], prev, (c :: t).
    + by exists [], prev, (c :: t).
Qed.

(** What a successful match consumes is a text of the pattern. *)
Lemma rmatch_denotes (r : regex) :
  ∀ prev rest k out,
    rmatch r prev rest k = Some out →
    ∃ pre prev' rest',
      rest = pre ++ rest' ∧ k prev' rest' = Some out ∧ denotes r pre.
Proof.
  induction r as [|p|p|r1 IH1|r1 IH1 r2 IH2|]; intros prev rest k out H; simpl in H.
  - by exists [], prev, rest.
  - destruct rest as [|c t]; [done|]. destruct (p c) eqn:Hp; [|done].
    exists [c], (Some c), t. split; [done|]. split; [done|]. by exists c.
  - by apply (star_denotes _ _ _ _ _ H).
  - destruct (rmatch r1 prev rest k) as [out'|] eqn:E.
    + injection H as <-.
      destruct (IH1 _ _ _ _ E) as (pre & prev' & rest' & -> & Hk & Hd).
      exists pre, prev', rest'. split; [done|]. split; [done|]. by right.
    + exists [], prev, rest. split; [done|]. split; [done|]. by left.
  - destruct (IH1 _ _ _ _ H) as (pre1 & prev1 & rest1 & -> & H2 & Hd1).
    destruct (IH2 _ _ _ _ H2) as (pre2 & prev2 & rest2 & -> & Hk & Hd2).
    exists (pre1 ++ pre2), prev2, rest2.
    split; [by rewrite app_assoc|]. split; [done|]. by exists pre1, pre2.
  - destruct (at_boundary prev rest); [|done].
    by exists [], prev, rest.
Qed.

Lemma scan_denotes (r : regex) :
  ∀ rest prev i j v, scan r prev rest i = Some (j, v) → denotes r v.
Proof.
  induction rest as [|c t IH]; intros prev i j v H; rewrite scan_unfold in H.
  - destruct (rmatch r prev [] accept) as [out|] eqn:E; [|done].
    injection H as <- <-.
    destruct (rmatch_denotes _ _ _ _ _ E) as (pre & prev' & rest' & Hrest & Hk & Hd).
    symmetry in Hrest. apply app_eq_nil in Hrest as [-> ->]. done.
  - destruct (rmatch r prev (c :: t) accept) as [out|] eqn:E.
    + injection H as <- <-.
      destruct (rmatch_denotes _ _ _ _ _ E) as (pre & prev' & rest' & Hrest & Hk & Hd).
      injection Hk as ->.
      assert (Hlen : (S (length t) - length out)%nat = length pre).
      { apply (f_equal length) in Hrest. rewrite length_app in Hrest.
        simpl in Hrest. lia. }
      cbn [length]. by rewrite Hlen, Hrest, take_app_length.
    + by apply (IH _ _ _ _ H).
Qed.

Lemma execLoop_denotes (r : regex) (text : jsstring) :
  ∀ fuel lastIndex l,
    execLoop fuel r text lastIndex = Some l →
    ∀ i v, (i, v) ∈ l → denotes r v.
Proof.
  induction fuel as [|fuel IH]; intros lastIndex l H i v Hin; [done|].
  simpl in H. destruct (exec r text lastIndex) as [[[j w]|] li] eqn:E.
  - destruct (execLoop fuel r text li) as [l0|] eqn:E0; [|done].
    injection H as <-.
    apply elem_of_cons in Hin as [[= -> ->]|Hin]; [|by apply (IH _ _ E0 i v)].
    unfold exec in E. destruct (length text <? lastIndex)%nat; [done|].
    destruct (scan r _ _ _) as [[j' w']|] eqn:Es; [|done].
    injection E as -> -> _. by apply (scan_denotes _ _ _ _ _ _ Es).
  - injection H as <-. by apply elem_of_nil in Hin.
Qed.

Lemma execAll_denotes (r : regex) (text : jsstring) (l : list (nat * jsstring))
    (i : nat) (v : jsstring) :
  execAll r text = Some l → (i, v) ∈ l → denotes r v.
Proof. intros Hl Hin. by apply (execLoop_denotes _ _ _ _ _ Hl i v). Qed.

(** *** The three patterns *)

Lemma digitCount_app (a b : jsstring) :
  digitCount (a ++ b) = (digitCount a + digitCount b)%nat.
Proof. unfold digitCount. by rewrite List.filter_app, length_app. Qed.

Lemma digitCount_single (c : ascii) :
  digitCount [c] = if is_digit c then 1%nat else 0%nat.
Proof. unfold digitCount. cbn [List.filter]. by destruct (is_digit c). Qed.

Lemma is_char_eq (x c : ascii) : is_char x c = true → c = x.
Proof. unfold is_char. by intros ->%Ascii.eqb_eq. Qed.

Lemma sep_dot_space_no_digit (c : ascii) : sep_dot_space c = true → is_digit c = false.
Proof. destruct c as [[] [] [] [] [] [] [] []]; by vm_compute. Qed.

Lemma sep_space_no_digit (c : ascii) : sep_space c = true → is_digit c = false.
Proof. destruct c as [[] [] [] [] [] [] [] []]; by vm_compute. Qed.

(** Take a hypothesis [denotes r v] on a pattern without repetition apart:
    every part is named, and every choice of an optional part gives a
    case. *)
Ltac break_denotes :=
  repeat match goal with
  | H : ∃ _, _ |- _ => destruct H as [? H]
  | H : _ ∧ _ |- _ => destruct H as [? H]
  | H : _ ∨ _ |- _ => destruct H as [H|H]
  end; subst;
  repeat match goal with
  | H : is_char _ _ = true |- _ => apply is_char_eq in H; subst
  | H : sep_dot_space _ = true |- _ => apply sep_dot_space_no_digit in H
  | H : sep_space _ = true |- _ => apply sep_space_no_digit in H
  end.

Ltac count_digits :=
  rewrite ?digitCount_app, ?digitCount_single;
  repeat match goal with
  | H : is_digit ?c = _ |- _ => rewrite !H; clear H
  end;
  vm_compute; lia.

Lemma ssn_shape (v : jsstring) :
  denotes ssn_pattern v → digitCount v = 9%nat ∧ (length v ≤ 11)%nat.
Proof.
  unfold ssn_pattern. cbn [seq_of ClsN denotes]. intros H.
  break_denotes; (split; [count_digits|rewrite ?length_app; simpl; lia]).
Qed.

Lemma phone_shape (v : jsstring) :
  denotes phone_pattern v →
  (10 ≤ digitCount v ≤ 11)%nat ∧ (10 ≤ length v ≤ 17)%nat.
Proof.
  unfold phone_pattern. cbn [seq_of ClsN denotes]. intros H.
  break_denotes; (split; [count_digits|rewrite ?length_app; simpl; lia]).
Qed.

Lemma email_shape (v : jsstring) :
  denotes email_pattern v →
  ∃ local domain tld,
    v = local ++ "@"%char :: domain ++ "."%char :: tld ∧
    local ≠ [] ∧ domain ≠ [] ∧ (2 ≤ length tld)%nat ∧
    Forall (λ c, email_local c = true) local ∧
    Forall (λ c, email_domain c = true) domain ∧
    Forall (λ c, email_tld c = true) tld.
Proof.
  unfold email_pattern, ClsPlus, ClsAtLeast. cbn [seq_of ClsN denotes]. intros H.
  destruct H as (? & ? & -> & -> & H).
  destruct H as (? & ? & -> & (? & l1 & -> & (c1 & -> & Hc1) & Hl1) & H).
  destruct H as (? & ? & -> & (? & -> & ->%is_char_eq) & H).
  destruct H as (? & ? & -> & (? & l2 & -> & (c2 & -> & Hc2) & Hl2) & H).
  destruct H as (? & ? & -> & (? & -> & ->%is_char_eq) & H).
  destruct H as (? & ? & -> & (? & l3 & -> & Ht & Hl3) & ->).
  destruct Ht as (? & ? & -> & (t1 & -> & Ht1) & ? & ? & -> & (t2 & -> & Ht2) & ->).
  exists (c1 :: l1), (c2 :: l2), (t1 :: t2 :: l3).
  split; [|repeat split; try done; try (simpl; lia); by repeat constructor].
  rewrite app_nil_r. cbn [app]. by rewrite <- ?app_assoc.
Qed.

(** X25.  What [redactPII] reports as redacted has the shape of its
    category, whatever the text is.  An email literal is a non-empty local
    part, an at sign, a non-empty domain, a dot and at least two letters or
    bars; a phone literal holds ten or eleven digits in ten to seventeen
    characters; an SSN literal holds nine digits in at most eleven
    characters. *)
Theorem redacted_literals_fit_their_pattern :
  ∀ (hashValue : jsstring → jsstring) (text : jsstring) (r : RedactionResult)
    (m : RedactionMatch),
    redactPII hashValue text = Some r →
    m ∈ matches r →
    match type m with
    | email =>
        ∃ local domain tld,
          value m = local ++ "@"%char :: domain ++ "."%char :: tld ∧
          local ≠ [] ∧ domain ≠ [] ∧ (2 ≤ length tld)%nat ∧
          Forall (λ c, email_local c = true) local ∧
          Forall (λ c, email_domain c = true) domain ∧
          Forall (λ c, email_tld c = true) tld
    | phone =>
        (10 ≤ digitCount (value m) ≤ 11)%nat ∧ (10 ≤ length (value m) ≤ 17)%nat
    | ssn =>
        digitCount (value m) = 9%nat ∧ (length (value m) ≤ 11)%nat
    end.
Proof.
  intros hashValue text r m Hr Hm.
  destruct (redactPII_matches_origin hashValue text) as (r' & adj & Hr' & _ & Hall & _).
  rewrite Hr in Hr'. injection Hr' as <-.
  destruct (Hall m Hm) as (i & l & Hl & Hin & _).
  pose proof (execAll_denotes _ _ _ _ _ Hl Hin) as Hd.
  destruct (type m); cbn [PII_PATTERNS] in Hd.
  - by apply email_shape.
  - by apply phone_shape.
  - by apply ssn_shape.
Qed.

Lemma redacted_literals_fit_their_pattern_witness :
  ∃ r m,
    redactPII (λ v, v) (str "SSN: 123-45-6789") = Some r ∧ m ∈ matches r ∧
    type m = ssn ∧ digitCount (value m) = 9%nat ∧ (length (value m) ≤ 11)%nat.
Proof.
  destruct (redactPII (λ v, v) (str "SSN: 123-45-6789")) as [r|] eqn:Hr;
    [|by vm_compute in Hr].
  assert (Hm : ∃ m, m ∈ matches r ∧ type m = ssn).
  { vm_compute in Hr. injection Hr as <-. eexists. split; [left|reflexivity]. }
  destruct Hm as (m & Hm & Ht).
  exists r, m. split; [reflexivity|]. split; [exact Hm|]. split; [exact Ht|].
  pose proof (redacted_literals_fit_their_pattern _ _ _ _ Hr Hm) as H.
  by rewrite Ht in H.
Defined.

End PatternFacts.
